(** * Verification of the Gerrit review-ingestion backend
    (perceval/backends/gerrit.py)

    The development is a shallow embedding of the class [Gerrit]:
    - Python's [str] operations used by the backend ([replace], [split],
      [startswith]) on [string];
    - the JSON codec of Python's [json] module ([json.loads], [json.dumps]
      with their default options) on a datatype of JSON values;
    - the storage directory as a finite map from file names to their text,
      the logger as a list of records, the remote command channel
      ([subprocess.check_output]) as a function of the commands issued so
      far and the command;
    - the methods of [Gerrit] as functions in a state and exception monad.

    Scope of the model.  A Python [str] is a [string] whose characters are
    the code points 0..255.  JSON numbers are the integers: a text that
    holds a float ([1.5], [1e3], [NaN], [Infinity]) or an escape for a code
    point above 255 makes the codec raise [Unsupported], which is not an
    exception of the program.  Integers are taken to have no more than
    4300 digits, the limit that CPython puts on the conversion between
    [int] and [str]: the limit is modelled where the program converts
    text that the remote chose, in [int()] of the version detector, and
    not in [str()] or in the codec.  The storage directory exists and
    holds regular files that the process can open, so writing a file
    does not fail; the constructor, which handles failed file operations,
    is also modelled on a storage directory where [open] can fail
    ([Obstructed]).  Timing (the ETA of the progress report) and
    the [psutil] memory probe are left out of the log records.
    [_close_cache] is not modelled: it only calls a helper of another
    module, and no method of the class calls it. *)

From Stdlib Require Import Ascii String ZArith Lia List.
From Stdlib Require Import DecimalString DecimalZ DecimalPos DecimalFacts.
From stdpp Require Import base strings gmap.

Local Open Scope Z_scope.

(* [simpl] computes the concatenation of strings on a literal prefix. *)
#[local] Arguments String.append !_ _ /.

(** ** Exceptions and outcomes *)

(** The exceptions the modelled code can raise.  [Unsupported] marks an input
    outside the scope of the model (see above). *)
Inductive error : Type :=
  | ValueError (msg : string)          (* also json.JSONDecodeError *)
  | KeyError (key : string)
  | TypeError
  | AttributeError
  | FileNotFoundError (fname : string)
  | IsADirectoryError (fname : string) (* open() on a directory *)
  | PermissionError (fname : string)   (* open() on a file of somebody else *)
  | CalledProcessError (cmd : string)  (* subprocess.check_output failed *)
  | Exception_ (msg : string)          (* raise Exception(msg) *)
  | Unsupported.

(** What running a piece of code gives: a value, a raised exception, or
    [OutOfFuel] when a loop was cut before it ended. *)
Inductive outcome (A : Type) : Type :=
  | Ok (a : A)
  | Raise (e : error)
  | OutOfFuel.
Arguments Ok {A} a.
Arguments Raise {A} e.
Arguments OutOfFuel {A}.

Definition obind {A B} (m : outcome A) (k : A -> outcome B) : outcome B :=
  match m with
  | Ok a => k a
  | Raise e => Raise e
  | OutOfFuel => OutOfFuel
  end.

Notation "'let*' p ':=' m 'in' k" := (obind m (fun p => k))
  (at level 10, p pattern, m at level 100, k at level 200).

(** ** Python [str] *)

Definition chr (n : Z) : ascii := ascii_of_N (Z.to_N n).
Definition ord (c : ascii) : Z := Z.of_N (N_of_ascii c).

Definition NL : ascii := Eval cbv in chr 10.
Definition DQ : ascii := Eval cbv in chr 34.

(** [s.startswith(p)] *)
Fixpoint startswith (p s : string) : bool :=
  match p, s with
  | EmptyString, _ => true
  | String a p', String b s' => Ascii.eqb a b && startswith p' s'
  | String _ _, EmptyString => false
  end.

(** [s[n:]] *)
Fixpoint str_drop (n : nat) (s : string) : string :=
  match n, s with
  | O, _ => s
  | S n', String _ s' => str_drop n' s'
  | S _, EmptyString => EmptyString
  end.

Fixpoint replace_aux (fuel : nat) (old new s : string) : string :=
  match fuel with
  | O => s
  | S fuel' =>
      match s with
      | EmptyString => EmptyString
      | String c s' =>
          if startswith old s
          then new +:+ replace_aux fuel' old new (str_drop (String.length old) s)
          else String c (replace_aux fuel' old new s')
      end
  end.

(** [s.replace(old, new)] for a non-empty [old]: the occurrences of [old]
    are replaced from left to right, without overlap. *)
Definition str_replace (old new s : string) : string :=
  replace_aux (String.length s) old new s.

(** [s.split(sep)] for a separator of one character. *)
Fixpoint str_split (sep : ascii) (s : string) : list string :=
  match s with
  | EmptyString => [EmptyString]
  | String c s' =>
      if Ascii.eqb c sep then EmptyString :: str_split sep s'
      else match str_split sep s' with
           | h :: t => String c h :: t
           | [] => [String c EmptyString]
           end
  end.

(** [l.pop()] on a list, as a statement: the list without its last element
    ([IndexError] on the empty list cannot happen after [split]). *)
Definition list_pop {A} (l : list A) : list A := removelast l.

Definition is_digit (c : ascii) : bool := (48 <=? ord c) && (ord c <=? 57).

(** The longest prefix of [s] made of digits, and what follows: how a
    greedy [\d+] or [[0-9]*] matches. *)
Fixpoint span_digits (s : string) : string * string :=
  match s with
  | EmptyString => (EmptyString, EmptyString)
  | String c s' =>
      if is_digit c then
        let '(ds, rest) := span_digits s' in (String c ds, rest)
      else (EmptyString, s)
  end.

(** The number that a string of digits writes. *)
Definition digits_value (ds : string) : Z :=
  match NilEmpty.uint_of_string ds with
  | Some d => Z.of_uint d
  | None => 0
  end.

Fixpoint all_digits (s : string) : bool :=
  match s with
  | EmptyString => true
  | String c s' => is_digit c && all_digits s'
  end.

(** [str(n)] for an [int]. *)
Definition str_of_int (n : Z) : string := NilZero.string_of_int (Z.to_int n).

(** Whether the character [c] is absent from [s]. *)
Fixpoint no_char (c : ascii) (s : string) : bool :=
  match s with
  | EmptyString => true
  | String a s' => negb (Ascii.eqb a c) && no_char c s'
  end.

(** ** JSON values *)

(** What [json.loads] returns: [None], [bool], [int], [str], [list] and
    [dict].  A dict keeps its keys in insertion order. *)
#[local] Set Warnings "-register-all".
Inductive json : Type :=
  | JNull
  | JBool (b : bool)
  | JInt (n : Z)
  | JStr (s : string)
  | JArr (l : list json)
  | JObj (kvs : list (string * json)).

(** [d[k] = v] on a dict: a present key keeps its place. *)
Fixpoint dict_set (k : string) (v : json) (d : list (string * json))
  : list (string * json) :=
  match d with
  | [] => [(k, v)]
  | (k', v') :: d' =>
      if String.eqb k k' then (k, v) :: d' else (k', v') :: dict_set k v d'
  end.

(** [dict(pairs)] *)
Definition dict_of_pairs (pairs : list (string * json)) : list (string * json) :=
  fold_left (fun d kv => dict_set (fst kv) (snd kv) d) pairs [].

Fixpoint dict_get (k : string) (d : list (string * json)) : option json :=
  match d with
  | [] => None
  | (k', v) :: d' => if String.eqb k k' then Some v else dict_get k d'
  end.

Definition dict_has (k : string) (d : list (string * json)) : bool :=
  match dict_get k d with Some _ => true | None => false end.

(** *** [json.dumps] with its defaults: separators [", "] and [": "],
    [ensure_ascii=True]. *)

Definition hex_digit (n : Z) : ascii :=
  if n <? 10 then chr (48 + n) else chr (87 + n).

Definition QUOTE : string := String DQ EmptyString.

(** One character of a string, as [json.dumps] writes it. *)
Definition esc_char (c : ascii) : string :=
  let n := ord c in
  if n =? 34 then String "\" QUOTE
  else if n =? 92 then "\\"
  else if n =? 10 then "\n"
  else if n =? 13 then "\r"
  else if n =? 9 then "\t"
  else if n =? 8 then "\b"
  else if n =? 12 then "\f"
  else if (32 <=? n) && (n <=? 126) then String c EmptyString
  else String "\" (String "u" (String "0" (String "0"
         (String (hex_digit (n / 16)) (String (hex_digit (n mod 16)) EmptyString))))).

Fixpoint esc_string (s : string) : string :=
  match s with
  | EmptyString => EmptyString
  | String c s' => esc_char c +:+ esc_string s'
  end.

Definition dumps_str (s : string) : string := QUOTE +:+ esc_string s +:+ QUOTE.

Fixpoint dumps (v : json) : string :=
  match v with
  | JNull => "null"
  | JBool true => "true"
  | JBool false => "false"
  | JInt n => str_of_int n
  | JStr s => dumps_str s
  | JArr l => "[" +:+ String.concat ", " (map dumps l) +:+ "]"
  | JObj kvs =>
      "{" +:+ String.concat ", "
                (map (fun kv => dumps_str (fst kv) +:+ ": " +:+ dumps (snd kv)) kvs)
          +:+ "}"
  end.

(** *** [json.loads]: the decoder of [json.decoder] and [json.scanner],
    in strict mode. *)

Definition is_ws (c : ascii) : bool :=
  let n := ord c in (n =? 32) || (n =? 9) || (n =? 10) || (n =? 13).

Fixpoint skip_ws (s : string) : string :=
  match s with
  | EmptyString => EmptyString
  | String c s' => if is_ws c then skip_ws s' else s
  end.

Definition hex_val (c : ascii) : option Z :=
  let n := ord c in
  if (48 <=? n) && (n <=? 57) then Some (n - 48)
  else if (97 <=? n) && (n <=? 102) then Some (n - 87)
  else if (65 <=? n) && (n <=? 70) then Some (n - 55)
  else None.

Definition hex4 (a b c d : ascii) : option Z :=
  match hex_val a, hex_val b, hex_val c, hex_val d with
  | Some x, Some y, Some z, Some w => Some (((x * 16 + y) * 16 + z) * 16 + w)
  | _, _, _, _ => None
  end.

(** The table [BACKSLASH] of [json.decoder]. *)
Definition unescape (c : ascii) : option ascii :=
  if Ascii.eqb c DQ then Some DQ
  else if Ascii.eqb c "\" then Some "\"%char
  else if Ascii.eqb c "/" then Some "/"%char
  else if Ascii.eqb c "b" then Some (chr 8)
  else if Ascii.eqb c "f" then Some (chr 12)
  else if Ascii.eqb c "n" then Some (chr 10)
  else if Ascii.eqb c "r" then Some (chr 13)
  else if Ascii.eqb c "t" then Some (chr 9)
  else None.

(** [scanstring]: the text after an opening quote, up to the closing one. *)
Fixpoint scanstring (s : string) : outcome (string * string) :=
  match s with
  | EmptyString => Raise (ValueError "Unterminated string starting at")
  | String c r =>
      if Ascii.eqb c DQ then Ok (EmptyString, r)
      else if Ascii.eqb c "\" then
        match r with
        | EmptyString => Raise (ValueError "Unterminated string starting at")
        | String e r' =>
            if Ascii.eqb e "u" then
              match r' with
              | String h1 (String h2 (String h3 (String h4 r''))) =>
                  match hex4 h1 h2 h3 h4 with
                  | Some n =>
                      if n <? 256 then
                        let* (tl, rest) := scanstring r'' in
                        Ok (String (chr n) tl, rest)
                      else Raise Unsupported
                  | None => Raise (ValueError "Invalid \uXXXX escape")
                  end
              | _ => Raise (ValueError "Invalid \uXXXX escape")
              end
            else
              match unescape e with
              | Some ch =>
                  let* (tl, rest) := scanstring r' in
                  Ok (String ch tl, rest)
              | None => Raise (ValueError "Invalid \escape")
              end
        end
      else if ord c <? 32 then Raise (ValueError "Invalid control character at")
      else
        let* (tl, rest) := scanstring r in
        Ok (String c tl, rest)
  end.

(** The integer part of [NUMBER_RE]: an optional minus sign, then either
    a single 0 or a digit 1-9 followed by any digits. *)
Definition match_int (s : string) : option (Z * string) :=
  let '(neg, s1) :=
    match s with
    | String c r => if Ascii.eqb c "-" then (true, r) else (false, s)
    | EmptyString => (false, s)
    end in
  match s1 with
  | EmptyString => None
  | String c r =>
      if Ascii.eqb c "0" then Some (0, r)
      else if is_digit c then
        let '(ds, rest) := span_digits s1 in
        Some (if neg : bool then - digits_value ds else digits_value ds, rest)
      else None
  end.

Definition starts_with_digit (s : string) : bool :=
  match s with
  | String c _ => is_digit c
  | EmptyString => false
  end.

(** Whether the fraction or exponent group of [NUMBER_RE] matches at [s]:
    the number is then a float. *)
Definition is_float_tail (s : string) : bool :=
  match s with
  | String c r =>
      if Ascii.eqb c "." then starts_with_digit r
      else if Ascii.eqb c "e" || Ascii.eqb c "E" then
        match r with
        | String c2 r2 =>
            if Ascii.eqb c2 "+" || Ascii.eqb c2 "-" then starts_with_digit r2
            else is_digit c2
        | EmptyString => false
        end
      else false
  | EmptyString => false
  end.

Definition EXPECTING_VALUE : error := ValueError "Expecting value".
Definition EXPECTING_NAME : error :=
  ValueError "Expecting property name enclosed in double quotes".
Definition EXPECTING_COMMA : error := ValueError "Expecting ',' delimiter".
Definition EXPECTING_COLON : error := ValueError "Expecting ':' delimiter".

(** The constants and numbers of [scan_once]. *)
Definition scan_atom (s : string) : outcome (json * string) :=
  if startswith "null" s then Ok (JNull, str_drop 4 s)
  else if startswith "true" s then Ok (JBool true, str_drop 4 s)
  else if startswith "false" s then Ok (JBool false, str_drop 5 s)
  else match match_int s with
       | Some (n, rest) =>
           if is_float_tail rest then Raise Unsupported else Ok (JInt n, rest)
       | None =>
           if startswith "NaN" s || startswith "Infinity" s
              || startswith "-Infinity" s
           then Raise Unsupported
           else Raise EXPECTING_VALUE
       end.

(** [scan_once], [JSONArray] and [JSONObject].  [array_items] starts at the
    first character of an element; [object_items] starts after the opening
    quote of a key. *)
Fixpoint scan_once (fuel : nat) (s : string) {struct fuel}
  : outcome (json * string) :=
  match fuel with
  | O => OutOfFuel
  | S f =>
      match s with
      | EmptyString => Raise EXPECTING_VALUE
      | String c r =>
          if Ascii.eqb c DQ then
            let* (str, rest) := scanstring r in
            Ok (JStr str, rest)
          else if Ascii.eqb c "{" then
            match skip_ws r with
            | EmptyString => Raise EXPECTING_NAME
            | String c2 r2 =>
                if Ascii.eqb c2 "}" then Ok (JObj [], r2)
                else if Ascii.eqb c2 DQ then
                  let* (pairs, rest) := object_items f r2 in
                  Ok (JObj (dict_of_pairs pairs), rest)
                else Raise EXPECTING_NAME
            end
          else if Ascii.eqb c "[" then
            match skip_ws r with
            | EmptyString => Raise EXPECTING_VALUE
            | String c2 r2 =>
                if Ascii.eqb c2 "]" then Ok (JArr [], r2)
                else
                  let* (vs, rest) := array_items f (String c2 r2) in
                  Ok (JArr vs, rest)
            end
          else scan_atom s
      end
  end
with array_items (fuel : nat) (s : string) {struct fuel}
  : outcome (list json * string) :=
  match fuel with
  | O => OutOfFuel
  | S f =>
      let* (v, r1) := scan_once f s in
      match skip_ws r1 with
      | EmptyString => Raise EXPECTING_COMMA
      | String c r2 =>
          if Ascii.eqb c "]" then Ok ([v], r2)
          else if Ascii.eqb c "," then
            let* (vs, rest) := array_items f (skip_ws r2) in
            Ok (v :: vs, rest)
          else Raise EXPECTING_COMMA
      end
  end
with object_items (fuel : nat) (s : string) {struct fuel}
  : outcome (list (string * json) * string) :=
  match fuel with
  | O => OutOfFuel
  | S f =>
      let* (k, r1) := scanstring s in
      match skip_ws r1 with
      | EmptyString => Raise EXPECTING_COLON
      | String c r2 =>
          if Ascii.eqb c ":" then
            let* (v, r3) := scan_once f (skip_ws r2) in
            match skip_ws r3 with
            | EmptyString => Raise EXPECTING_COMMA
            | String c2 r4 =>
                if Ascii.eqb c2 "}" then Ok ([(k, v)], r4)
                else if Ascii.eqb c2 "," then
                  match skip_ws r4 with
                  | EmptyString => Raise EXPECTING_NAME
                  | String c3 r5 =>
                      if Ascii.eqb c3 DQ then
                        let* (kvs, rest) := object_items f r5 in
                        Ok ((k, v) :: kvs, rest)
                      else Raise EXPECTING_NAME
                  end
                else Raise EXPECTING_COMMA
            end
          else Raise EXPECTING_COLON
      end
  end.

(** [json.loads(s)] *)
Definition loads (s : string) : outcome json :=
  let* (v, rest) := scan_once (2 * String.length s + 2) (skip_ws s) in
  match skip_ws rest with
  | EmptyString => Ok v
  | String _ _ => Raise (ValueError "Extra data")
  end.


(** *** Well-formed values and sizes *)

Fixpoint distinct (l : list string) : bool :=
  match l with
  | [] => true
  | x :: l' => negb (existsb (String.eqb x) l') && distinct l'
  end.

(** The values a Python program can hold: the keys of a dict are
    distinct. *)
Fixpoint json_wf (v : json) : bool :=
  match v with
  | JArr l => forallb json_wf l
  | JObj kvs => distinct (map fst kvs) && forallb (fun kv => json_wf (snd kv)) kvs
  | JNull | JBool _ | JInt _ | JStr _ => true
  end.

(** The fuel that [scan_once] needs on the text of [v]: one unit for [v]
    and, in a list or a dict, one more for each element. *)
Fixpoint json_size (v : json) : nat :=
  match v with
  | JArr l => S (list_sum (map (fun x => S (json_size x)) l))
  | JObj kvs => S (list_sum (map (fun kv => S (json_size (snd kv))) kvs))
  | JNull | JBool _ | JInt _ | JStr _ => 1
  end.

(** What may follow a number in a text without changing how it scans. *)
Definition value_end (rest : string) : bool :=
  negb (starts_with_digit rest) && negb (is_float_tail rest).

Fixpoint all_ws (s : string) : bool :=
  match s with
  | EmptyString => true
  | String c s' => is_ws c && all_ws s'
  end.

(** The text of [v], followed by anything that ends a value, scans back to
    [v] with enough fuel. *)
Definition roundtrips (v : json) : Prop :=
  forall rest fuel,
    value_end rest = true -> (json_size v <= fuel)%nat ->
    scan_once fuel (dumps v +:+ rest) = Ok (v, rest).

(** The text of a key and its value in [json.dumps]. *)
Definition pair_text (kv : string * json) : string :=
  dumps_str (fst kv) +:+ ": " +:+ dumps (snd kv).

(** A run of the decoder that has the fuel for its text ends, and a value
    takes at least one character. *)
Definition ends_shorter {A} (s : string) (o : outcome (A * string)) : Prop :=
  match o with
  | Ok (_, rest) => (String.length rest < String.length s)%nat
  | Raise _ => True
  | OutOfFuel => False
  end.

(** ** Python operations on the values [json.loads] returns *)

(** [iter(v)]: the elements of a list, the keys of a dict, the characters of
    a str; the other values are not iterable. *)
Definition py_iter (v : json) : outcome (list json) :=
  match v with
  | JArr l => Ok l
  | JObj kvs => Ok (map (fun kv => JStr (fst kv)) kvs)
  | JStr s => Ok (map (fun c => JStr (String c EmptyString)) (list_ascii_of_string s))
  | JNull | JBool _ | JInt _ => Raise TypeError
  end.

(** [bool(v)] *)
Definition truthy (v : json) : bool :=
  match v with
  | JNull => false
  | JBool b => b
  | JInt n => negb (n =? 0)
  | JStr s => negb (String.eqb s EmptyString)
  | JArr l => match l with [] => false | _ :: _ => true end
  | JObj kvs => match kvs with [] => false | _ :: _ => true end
  end.

(** [v == n] for an int [n]: a bool compares as 0 or 1. *)
Definition py_eq_int (v : json) (n : Z) : bool :=
  match v with
  | JInt m => m =? n
  | JBool b => (if b then 1 else 0) =? n
  | JNull | JStr _ | JArr _ | JObj _ => false
  end.

(** ** The world of the backend *)

Inductive level : Type := DEBUG | INFO | WARNING | ERROR | STDOUT.

(** The records of the run: the calls of [logging], and under [STDOUT] the
    traceback that the constructor prints. *)
Inductive message : Type :=
  | MsgGettingFromCache                       (* "Getting all data from cache" *)
  | MsgTraceback (e : error)                  (* traceback.print_exc *)
  | MsgCacheCorrupted                         (* "Cache corrupted" *)
  | MsgRestoring                              (* "Restoring data from %s" *)
  | MsgRestoreCompleted                       (* "Restore completed" *)
  | MsgRestoreFailed (fname : string)         (* "Restore failed. Wrong dump files in: %s" *)
  | MsgDumping                                (* "Dumping data to  %s" *)
  | MsgDumpCompleted                          (* "Dump completed" *)
  | MsgCacheIncomplete (fname : string)       (* "Cache incomplete. Not found: %s" *)
  | MsgLoadedFromCache (project : string)     (* "Loaded from cache: %s" *)
  | MsgGettingProjects                        (* "Getting list of gerrit projects" *)
  | MsgDone                                   (* "Done" *)
  | MsgTotalReviews (n : nat)                 (* "Total reviews: %i" *)
  | MsgCompleted (project : json) (current total : nat)
                                              (* "Completed %s %i/%i (ETA: ...)" *)
  | MsgMaxReviews (n : Z)                     (* "Max reviews reached: %i " *)
  | MsgReviewsInMemory (n : nat)              (* "Total reviews in memory: %i" *)
  | MsgMemory.                                (* "Total memory: %i MB" *)

(** The instance of [Gerrit].  [issues] is the attribute that [_restore]
    sets: it does not exist before. *)
Record Gerrit : Type := {
  gerrit_user : string;
  project : string;
  nreviews : Z;
  reviews : list json;
  projects : list json;
  cache : gmap string json;
  use_cache : bool;
  use_history : bool;
  url : string;
  gerrit_cmd : string;
  max_reviews : Z;
  issues : option json
}.

(** The state of a run: the instance, the files of the storage directory
    (by their name in it; the directory exists once the constructor has
    run), the log and the commands sent to the remote channel, both oldest
    first. *)
Record state : Type := {
  self : Gerrit;
  files : gmap string string;
  log : list (level * message);
  trace : list string
}.

Definition set_self (g : Gerrit) (st : state) : state :=
  {| self := g; files := files st; log := log st; trace := trace st |}.

Definition set_reviews (l : list json) (g : Gerrit) : Gerrit :=
  {| gerrit_user := gerrit_user g; project := project g; nreviews := nreviews g;
     reviews := l; projects := projects g; cache := cache g;
     use_cache := use_cache g; use_history := use_history g; url := url g;
     gerrit_cmd := gerrit_cmd g; max_reviews := max_reviews g;
     issues := issues g |}.

Definition set_cache (c : gmap string json) (g : Gerrit) : Gerrit :=
  {| gerrit_user := gerrit_user g; project := project g; nreviews := nreviews g;
     reviews := reviews g; projects := projects g; cache := c;
     use_cache := use_cache g; use_history := use_history g; url := url g;
     gerrit_cmd := gerrit_cmd g; max_reviews := max_reviews g;
     issues := issues g |}.

Definition set_use_cache (b : bool) (g : Gerrit) : Gerrit :=
  {| gerrit_user := gerrit_user g; project := project g; nreviews := nreviews g;
     reviews := reviews g; projects := projects g; cache := cache g;
     use_cache := b; use_history := use_history g; url := url g;
     gerrit_cmd := gerrit_cmd g; max_reviews := max_reviews g;
     issues := issues g |}.

Definition set_use_history (b : bool) (g : Gerrit) : Gerrit :=
  {| gerrit_user := gerrit_user g; project := project g; nreviews := nreviews g;
     reviews := reviews g; projects := projects g; cache := cache g;
     use_cache := use_cache g; use_history := b; url := url g;
     gerrit_cmd := gerrit_cmd g; max_reviews := max_reviews g;
     issues := issues g |}.

Definition set_issues (v : json) (g : Gerrit) : Gerrit :=
  {| gerrit_user := gerrit_user g; project := project g; nreviews := nreviews g;
     reviews := reviews g; projects := projects g; cache := cache g;
     use_cache := use_cache g; use_history := use_history g; url := url g;
     gerrit_cmd := gerrit_cmd g; max_reviews := max_reviews g;
     issues := Some v |}.

Definition set_max_reviews (n : Z) (g : Gerrit) : Gerrit :=
  {| gerrit_user := gerrit_user g; project := project g; nreviews := nreviews g;
     reviews := reviews g; projects := projects g; cache := cache g;
     use_cache := use_cache g; use_history := use_history g; url := url g;
     gerrit_cmd := gerrit_cmd g; max_reviews := n;
     issues := issues g |}.

(** *** The monad of the methods: state that survives a raised exception. *)

Definition M (A : Type) : Type := state -> outcome A * state.

Definition ret {A} (a : A) : M A := fun st => (Ok a, st).

Definition raise {A} (e : error) : M A := fun st => (Raise e, st).

Definition bind {A B} (m : M A) (k : A -> M B) : M B :=
  fun st =>
    match m st with
    | (Ok a, st') => k a st'
    | (Raise e, st') => (Raise e, st')
    | (OutOfFuel, st') => (OutOfFuel, st')
    end.

Notation "'let!' p ':=' m 'in' k" := (bind m (fun p => k))
  (at level 10, p pattern, m at level 100, k at level 200).
Notation "m1 ';;' m2" := (bind m1 (fun _ => m2))
  (at level 100, m2 at level 200, right associativity).

(** A pure computation that may raise. *)
Definition lift {A} (o : outcome A) : M A := fun st => (o, st).

(** [try: body except: handler], the bare form, which catches every
    exception; here the marker [Unsupported] is handled as one, which
    [Obstructed.try_except] below does not do. *)
Definition try_except {A} (body : M A) (handler : error -> M A) : M A :=
  fun st =>
    match body st with
    | (Raise e, st') => handler e st'
    | r => r
    end.

(** [try: body except ValueError: handler] *)
Definition try_except_ValueError {A} (body : M A) (handler : M A) : M A :=
  fun st =>
    match body st with
    | (Raise (ValueError _), st') => handler st'
    | r => r
    end.

Definition get_self : M Gerrit := fun st => (Ok (self st), st).

Definition modify_self (f : Gerrit -> Gerrit) : M unit :=
  fun st => (Ok tt, set_self (f (self st)) st).

Definition logging (l : level) (m : message) : M unit :=
  fun st => (Ok tt, {| self := self st; files := files st;
                       log := log st ++ [(l, m)]; trace := trace st |}).

(** [os.path.exists(fname)] *)
Definition path_exists (fname : string) : M bool :=
  fun st => (Ok (bool_decide (is_Some (files st !! fname))), st).

(** [open(fname).read()] *)
Definition read_file (fname : string) : M string :=
  fun st =>
    match files st !! fname with
    | Some text => (Ok text, st)
    | None => (Raise (FileNotFoundError fname), st)
    end.

(** [open(fname, "w").write(text)] on a regular file or an absent one of
    a directory that the process can write: it does not fail. *)
Definition write_file (fname text : string) : M unit :=
  fun st => (Ok tt, {| self := self st; files := <[fname := text]> (files st);
                       log := log st; trace := trace st |}).

(** The value of a string of digits of any length, as a program without
    a limit on the size of numerals reads it. *)
Definition parse_digits (s : string) : outcome Z :=
  match s with
  | EmptyString => Raise (ValueError "invalid literal for int()")
  | String _ _ =>
      if all_digits s then Ok (digits_value s)
      else Raise (ValueError "invalid literal for int()")
  end.

(** [sys.get_int_max_str_digits()]: the longest string of digits that
    [int()] converts, leading zeros counted; 4300 unless the interpreter
    was told otherwise. *)
Definition int_max_str_digits : Z := 4300.

(** [int(s)] for a string of digits, the only strings the backend converts
    (the groups of the version pattern): it raises [ValueError] on a
    string of more digits than the limit. *)
Definition py_int (s : string) : outcome Z :=
  if Z.of_nat (String.length s) <=? int_max_str_digits then parse_digits s
  else Raise (ValueError
                "Exceeds the limit (4300 digits) for integer string conversion").

(** [re.match("gerrit version (\d+)\.(\d+).*", raw)]: the two groups of a
    match.  The pattern is anchored at the start only, the groups are
    greedy, and nothing can follow that would make the match backtrack. *)
Definition match_version (raw : string) : option (string * string) :=
  if startswith "gerrit version " raw then
    let '(g1, r1) := span_digits (str_drop 15 raw) in
    match g1, r1 with
    | String _ _, String c r2 =>
        if Ascii.eqb c "." then
          let '(g2, _) := span_digits r2 in
          match g2 with
          | String _ _ => Some (g1, g2)
          | EmptyString => None
          end
        else None
    | _, _ => None
    end
  else None.

(** The body of [_get_version] after the remote call. *)
Definition parse_version (raw : string) : outcome (Z * Z) :=
  match match_version raw with
  | None => Raise (Exception_ ("Invalid gerrit version " +:+ raw))
  | Some (g1, g2) =>
      match py_int g1, py_int g2 with
      | Ok mayor, Ok minor => Ok (mayor, minor)
      | _, _ => Raise (Exception_ ("Invalid gerrit version " +:+ raw +:+ " "))
      end
  end.

(** The cursor [last_item] of the pagination loop.  Its constructor records
    the outcome of the test [gerrit_version[0] == 2 and gerrit_version[1]
    >= 9], which the source repeats wherever it uses the cursor: an int in
    the offset protocol, the last [sortKey] otherwise, where [SortKey JNull]
    is [None]. *)
Inductive cursor : Type :=
  | Offset (n : Z)
  | SortKey (k : json).

Record loop_state : Type := {
  last_item : cursor;
  number_results : json;
  acc : list json      (* the local variable [reviews] *)
}.

Definition offset_protocol (version : Z * Z) : bool :=
  (fst version =? 2) && (9 <=? snd version).

(** [number_results == self.nreviews or number_results == self.nreviews + 1] *)
Definition loop_cond (nrev : Z) (nres : json) : bool :=
  py_eq_int nres nrev || py_eq_int nres (nrev + 1).

(** What the loop appends to the base command for the cursor. *)
Definition cursor_arg (c : cursor) : outcome string :=
  match c with
  | Offset n => Ok (" --start=" +:+ str_of_int n)
  | SortKey JNull => Ok EmptyString
  | SortKey (JStr k) => Ok (" resume_sortkey:" +:+ k)
  | SortKey _ => Raise TypeError
  end.

(** The body of [for entry in tickets]. *)
Definition consume_entry (ls : loop_state) (entry : json) : outcome loop_state :=
  match entry with
  | JObj kvs =>
      if dict_has "project" kvs then
        match last_item ls with
        | Offset n =>
            Ok {| last_item := Offset (n + 1);
                  number_results := number_results ls;
                  acc := acc ls ++ [entry] |}
        | SortKey _ =>
            match dict_get "sortKey" kvs with
            | Some k =>
                Ok {| last_item := SortKey k;
                      number_results := number_results ls;
                      acc := acc ls ++ [entry] |}
            | None => Raise (KeyError "sortKey")
            end
        end
      else if dict_has "rowCount" kvs then
        match dict_get "rowCount" kvs with
        | Some n =>
            Ok {| last_item := last_item ls; number_results := n; acc := acc ls |}
        | None => Raise (KeyError "rowCount")
        end
      else Ok ls
  | _ => Raise AttributeError      (* entry.keys() *)
  end.

Fixpoint consume_entries (ls : loop_state) (tickets : list json)
  : outcome loop_state :=
  match tickets with
  | [] => Ok ls
  | entry :: rest =>
      let* ls' := consume_entry ls entry in
      consume_entries ls' rest
  end.

(** The framing of a page: [ "[" + raw.replace("\n", ",") + "]" ], then
    [.replace(",]", "]")]. *)
Definition frame_page (raw_data : string) : string :=
  let tickets_raw := "[" +:+ str_replace (String NL EmptyString) "," raw_data +:+ "]" in
  str_replace ",]" "]" tickets_raw.

Definition cache_projects_file : string := "cache_projects.json".
Definition reviews_file : string := "reviews.json".

(** The name of the review artifact of a project. *)
Definition cache_reviews_file (project : string) : string :=
  "cache_" +:+ str_replace "/" "_" project +:+ "-reviews.json".

(** The base command of the queries of a project: [gerrit_cmd_prj]. *)
Definition query_command (gerrit_cmd project : string) (nrev : Z) : string :=
  gerrit_cmd +:+ " query project:" +:+ project +:+ " "
  +:+ "limit:" +:+ str_of_int nrev
  +:+ " --all-approvals --comments --format=JSON".

Section Backend.

(** The remote command channel: what [subprocess.check_output(cmd,
    shell=True)] returns, decoded, given the commands sent before; [None]
    when the command fails. *)
Variable remote : list string -> string -> option string.

Definition check_output (cmd : string) : M string :=
  fun st =>
    let st' := {| self := self st; files := files st; log := log st;
                  trace := trace st ++ [cmd] |} in
    match remote (trace st) cmd with
    | Some out => (Ok out, st')
    | None => (Raise (CalledProcessError cmd), st')
    end.

Definition _restore : M unit :=
  try_except_ValueError
    (logging DEBUG MsgRestoring ;;
     let! present := path_exists reviews_file in
     (if present : bool then
        let! data := read_file reviews_file in
        let! v := lift (loads data) in
        modify_self (set_issues v)
      else ret tt) ;;
     logging DEBUG MsgRestoreCompleted)
    (logging WARNING (MsgRestoreFailed reviews_file)).

(** [_dump]: the dump file is opened for writing, and so emptied, before
    [self.issues] is read; an instance that never restored has no such
    attribute. *)
Definition _dump : M unit :=
  logging DEBUG MsgDumping ;;
  write_file reviews_file EmptyString ;;       (* open(dump_file, "w") *)
  let! g := get_self in
  match issues g with
  | Some v => write_file reviews_file (dumps v) ;; logging DEBUG MsgDumpCompleted
  | None => raise AttributeError
  end.

(** The statements after the [return] of the source are not run. *)
Definition _load_cache : M unit :=
  let! text := read_file cache_projects_file in
  let! v := lift (loads text) in
  modify_self (fun g => set_cache (<["projects" := v]> (cache g)) g).

Definition _load_cache_project (project : string) : M (option json) :=
  let fname := cache_reviews_file project in
  let! present := path_exists fname in
  if present : bool then
    let! text := read_file fname in
    logging DEBUG (MsgLoadedFromCache project) ;;
    let! v := lift (loads text) in
    ret (Some v)
  else
    logging DEBUG (MsgCacheIncomplete fname) ;;
    ret None.

Definition _clean_cache : M unit :=
  write_file cache_projects_file EmptyString ;;
  modify_self (fun g => set_cache (<["projects" := JArr []]> (cache g)) g).

Definition _projects_to_cache (projects : json) : M unit :=
  write_file cache_projects_file (dumps projects).

Definition _project_reviews_to_cache (project : string) (reviews : list json)
  : M unit :=
  write_file (cache_reviews_file project) (dumps (JArr reviews)).

Definition _get_version : M (Z * Z) :=
  let! g := get_self in
  let! raw_data := check_output (gerrit_cmd g +:+ " version ") in
  lift (parse_version raw_data).

Definition _get_projects : M json :=
  logging DEBUG MsgGettingProjects ;;
  let! g := get_self in
  let! projects :=
    (if use_cache g then
       match cache g !! "projects" with
       | Some v => ret v
       | None => raise (KeyError "projects")
       end
     else
       let! projects_raw := check_output (gerrit_cmd g +:+ "ls-projects ") in
       let projects := JArr (map JStr (list_pop (str_split NL projects_raw))) in
       _projects_to_cache projects ;;
       ret projects) in
  logging DEBUG MsgDone ;;
  ret projects.

(** One turn of the [while] loop of [_get_project_reviews]. *)
Definition fetch_page (project gerrit_cmd_prj : string) (ls : loop_state)
  : M loop_state :=
  let! arg := lift (cursor_arg (last_item ls)) in
  let! raw_data := check_output (gerrit_cmd_prj +:+ arg) in
  let! tickets := lift (loads (frame_page raw_data)) in
  let! entries := lift (py_iter tickets) in
  let! ls' := lift (consume_entries ls entries) in
  _project_reviews_to_cache project (acc ls') ;;
  ret ls'.

Fixpoint while_pages (fuel : nat) (nrev : Z) (project gerrit_cmd_prj : string)
  (ls : loop_state) : M (list json) :=
  if loop_cond nrev (number_results ls) then
    match fuel with
    | O => fun st => (OutOfFuel, st)
    | S fuel' =>
        let! ls' := fetch_page project gerrit_cmd_prj ls in
        while_pages fuel' nrev project gerrit_cmd_prj ls'
    end
  else ret (acc ls).

(** The remote path of [_get_project_reviews], from [gerrit_version =
    self._get_version()] on.  [project] is an element of the project list,
    a str unless a cache file held something else: the concatenation then
    fails with [TypeError]. *)
Definition fetch_remote (fuel : nat) (project : json) : M json :=
  let! gerrit_version := _get_version in
  let last_item :=
    if offset_protocol gerrit_version then Offset 0 else SortKey JNull in
  let! g := get_self in
  match project with
  | JStr p =>
      let gerrit_cmd_prj := query_command (gerrit_cmd g) p (nreviews g) in
      let! reviews :=
        while_pages fuel (nreviews g) p gerrit_cmd_prj
          {| last_item := last_item;
             number_results := JInt (nreviews g);
             acc := [] |} in
      logging INFO (MsgTotalReviews (length reviews)) ;;
      ret (JArr reviews)
  | _ => raise TypeError
  end.

(** [_get_project_reviews]: with cache-reuse, a cached value that is true
    ([if reviews:]) is returned as it is; [project.replace] fails with
    [AttributeError] on a project that is not a str. *)
Definition _get_project_reviews (fuel : nat) (project : json) : M json :=
  let! g := get_self in
  let! cached :=
    (if use_cache g then
       match project with
       | JStr p => _load_cache_project p
       | _ => raise AttributeError
       end
     else ret None) in
  match cached with
  | Some v => if truthy v then ret v else fetch_remote fuel project
  | None => fetch_remote fuel project
  end.

(** The [for project in projects] loop of [get_reviews]; the last branch of
    the conditional is the [break]. *)
Fixpoint for_projects (fuel : nat) (total current_repo : nat)
  (projects : list json) : M unit :=
  match projects with
  | [] => ret tt
  | project :: rest =>
      let! fetched := _get_project_reviews fuel project in
      let! items := lift (py_iter fetched) in      (* self.reviews += ... *)
      modify_self (fun g => set_reviews (reviews g ++ items) g) ;;
      logging INFO (MsgCompleted project current_repo total) ;;
      let! g := get_self in
      if max_reviews g <=? Z.of_nat (length (reviews g)) then
        logging ERROR (MsgMaxReviews (max_reviews g))
      else
        logging DEBUG (MsgReviewsInMemory (length (reviews g))) ;;
        logging DEBUG MsgMemory ;;
        for_projects fuel total (S current_repo) rest
  end.

(** [get_reviews]; [len(projects)] and the iteration fail with [TypeError]
    on a value that is not iterable. *)
Definition get_reviews (fuel : nat) : M (list json) :=
  let! projects := _get_projects in
  let! plist := lift (py_iter projects) in
  for_projects fuel (length plist) 1 plist ;;
  let! g := get_self in
  ret (reviews g).

(** The constructor, after the assignments of the attributes. *)
Definition __init__ : M unit :=
  let! g := get_self in
  (if use_cache g then modify_self (set_use_history false) else ret tt) ;;
  let! g := get_self in
  if use_history g then _restore
  else if use_cache g then
    logging INFO MsgGettingFromCache ;;
    try_except _load_cache
      (fun e =>
         logging STDOUT (MsgTraceback e) ;;
         logging DEBUG MsgCacheCorrupted ;;
         modify_self (set_use_cache false) ;;
         _clean_cache)
  else _clean_cache.

End Backend.

(** The attributes that the constructor assigns first. *)
Definition new_Gerrit (user repository : string) (nrev : Z)
  (use_cache_arg history : bool) : Gerrit :=
  {| gerrit_user := user;
     project := repository;
     nreviews := nrev;
     reviews := [];
     projects := [];
     cache := ∅;
     use_cache := use_cache_arg;
     use_history := history;
     url := repository;
     gerrit_cmd := "ssh -p 29418 " +:+ user +:+ "@" +:+ repository +:+ " gerrit ";
     max_reviews := 1000 * 50;
     issues := None |}.

(** [Gerrit(user, repository, nreviews, use_cache, history)] run on a
    storage directory that holds the files [fs]. *)
Definition Gerrit_new (user repository : string) (nrev : Z)
  (use_cache_arg history : bool) (fs : gmap string string)
  : outcome unit * state :=
  __init__ {| self := new_Gerrit user repository nrev use_cache_arg history;
              files := fs; log := []; trace := [] |}.

(** ** The constructor on a storage directory with obstacles

    The methods above run on a storage directory of regular files that
    the process can open: there [read_file] fails on an absent file only
    and [write_file] never.  The constructor is the one method that
    handles a failed file operation itself, so it is modelled a second
    time, statement by statement, on a storage directory where [open]
    can fail. *)

(** What can stand at a name of the storage directory in place of a
    regular file of the process: a directory, or a file that the process
    may neither read nor write. *)
Inductive obstacle : Type := Directory | Forbidden.

(** The [OSError] that [open] raises on an obstacle. *)
Definition open_error (o : obstacle) (fname : string) : error :=
  match o with
  | Directory => IsADirectoryError fname
  | Forbidden => PermissionError fname
  end.

Module Obstructed.

Section Storage.

(** The obstacles of the storage directory; no method moves them. *)
Variable obstacles : string -> option obstacle.

(** [open(fname).read()] *)
Definition read_file (fname : string) : M string :=
  fun st =>
    match obstacles fname with
    | Some o => (Raise (open_error o fname), st)
    | None =>
        match files st !! fname with
        | Some text => (Ok text, st)
        | None => (Raise (FileNotFoundError fname), st)
        end
    end.

(** [open(fname, "w").write(text)] *)
Definition write_file (fname text : string) : M unit :=
  fun st =>
    match obstacles fname with
    | Some o => (Raise (open_error o fname), st)
    | None =>
        (Ok tt, {| self := self st; files := <[fname := text]> (files st);
                   log := log st; trace := trace st |})
    end.

(** [os.path.isfile(fname)] *)
Definition path_isfile (fname : string) : M bool :=
  fun st =>
    (Ok match obstacles fname with
        | Some Directory => false
        | Some Forbidden => true
        | None => bool_decide (is_Some (files st !! fname))
        end, st).

(** [try: body except: handler], the bare form, which catches every
    exception of the program.  [Unsupported] is none: it marks a text
    that the codec of this development does not read, and goes through. *)
Definition try_except {A} (body : M A) (handler : error -> M A) : M A :=
  fun st =>
    match body st with
    | (Raise Unsupported, st') => (Raise Unsupported, st')
    | (Raise e, st') => handler e st'
    | r => r
    end.

Definition _restore : M unit :=
  try_except_ValueError
    (logging DEBUG MsgRestoring ;;
     let! present := path_isfile reviews_file in
     (if present : bool then
        let! data := read_file reviews_file in
        let! v := lift (loads data) in
        modify_self (set_issues v)
      else ret tt) ;;
     logging DEBUG MsgRestoreCompleted)
    (logging WARNING (MsgRestoreFailed reviews_file)).

Definition _load_cache : M unit :=
  let! text := read_file cache_projects_file in
  let! v := lift (loads text) in
  modify_self (fun g => set_cache (<["projects" := v]> (cache g)) g).

Definition _clean_cache : M unit :=
  write_file cache_projects_file EmptyString ;;
  modify_self (fun g => set_cache (<["projects" := JArr []]> (cache g)) g).

(** The constructor, after the assignments of the attributes. *)
Definition __init__ : M unit :=
  let! g := get_self in
  (if use_cache g then modify_self (set_use_history false) else ret tt) ;;
  let! g := get_self in
  if use_history g then _restore
  else if use_cache g then
    logging INFO MsgGettingFromCache ;;
    try_except _load_cache
      (fun e =>
         logging STDOUT (MsgTraceback e) ;;
         logging DEBUG MsgCacheCorrupted ;;
         modify_self (set_use_cache false) ;;
         _clean_cache)
  else _clean_cache.

End Storage.

(** [Gerrit(user, repository, nreviews, use_cache, history)] run on a
    storage directory that holds the files [fs] and the obstacles. *)
Definition Gerrit_new (obstacles : string -> option obstacle)
  (user repository : string) (nrev : Z) (use_cache_arg history : bool)
  (fs : gmap string string) : outcome unit * state :=
  __init__ obstacles
    {| self := new_Gerrit user repository nrev use_cache_arg history;
       files := fs; log := []; trace := [] |}.

(** The exception of the program that [_load_cache] raises on the files
    [fs]: the error of [open] on an obstacle or on an absent artifact,
    or the error of [json.loads] on its text. *)
Definition cache_load_error (obstacles : string -> option obstacle)
  (fs : gmap string string) (e : error) : Prop :=
  match obstacles cache_projects_file with
  | Some o => e = open_error o cache_projects_file
  | None =>
      match fs !! cache_projects_file with
      | None => e = FileNotFoundError cache_projects_file
      | Some text => loads text = Raise e /\ e <> Unsupported
      end
  end.

End Obstructed.

(** A storage directory whose project-list artifact is a directory. *)
Definition artifact_is_directory (fname : string) : option obstacle :=
  if String.eqb fname cache_projects_file then Some Directory else None.

(** A string of [n] digits. *)
Fixpoint ones (n : nat) : string :=
  match n with
  | O => EmptyString
  | S n' => String "1" (ones n')
  end.

(** ** A simulated paginated remote source *)

(** The control record that ends a page. *)
Definition stats_record (rows : nat) : json :=
  JObj [("type", JStr "stats"); ("rowCount", JInt (Z.of_nat rows));
        ("runTimeMilliseconds", JInt 0)].

(** Lines of text, each one ended by a newline. *)
Fixpoint unlines (ls : list string) : string :=
  match ls with
  | [] => EmptyString
  | l :: ls' => l +:+ String NL (unlines ls')
  end.

(** A page on the wire: one JSON object per line, the control record last. *)
Definition page_text (rows : list json) : string :=
  unlines (map dumps (rows ++ [stats_record (length rows)])).

Fixpoint strip_prefix (p s : string) : option string :=
  match p, s with
  | EmptyString, _ => Some s
  | String a p', String b s' => if Ascii.eqb a b then strip_prefix p' s' else None
  | String _ _, EmptyString => None
  end.

Definition has_sortKey (k : string) (r : json) : bool :=
  match r with
  | JObj kvs =>
      match dict_get "sortKey" kvs with
      | Some (JStr k') => String.eqb k k'
      | _ => false
      end
  | _ => false
  end.

(** The rows that follow the row whose [sortKey] is [k]. *)
Fixpoint after_key (k : string) (rs : list json) : list json :=
  match rs with
  | [] => []
  | r :: rs' => if has_sortKey k r then rs' else after_key k rs'
  end.

(** The source holds the reviews of each project and serves them in pages
    of [sim_limit] rows, from an offset ([--start=N]), after a sort key
    ([resume_sortkey:K]) or from the first row. *)
Record sim_source : Type := {
  sim_cmd : string;                              (* the command prefix *)
  sim_banner : string;                           (* the answer to "version" *)
  sim_limit : nat;                               (* the page size *)
  sim_projects : list (string * list json)
}.

Definition sim_query (limit : nat) (rs : list json) (suffix : string)
  : option string :=
  match suffix with
  | EmptyString => Some (page_text (firstn limit rs))
  | String _ _ =>
      match strip_prefix " --start=" suffix with
      | Some ds =>
          match parse_digits ds with
          | Ok n => Some (page_text (firstn limit (skipn (Z.to_nat n) rs)))
          | _ => None
          end
      | None =>
          match strip_prefix " resume_sortkey:" suffix with
          | Some k => Some (page_text (firstn limit (after_key k rs)))
          | None => None
          end
      end
  end.

Fixpoint sim_find (src : sim_source) (projs : list (string * list json))
  (cmd : string) : option string :=
  match projs with
  | [] => None
  | (p, rs) :: rest =>
      match strip_prefix
              (query_command (sim_cmd src) p (Z.of_nat (sim_limit src))) cmd with
      | Some suffix => sim_query (sim_limit src) rs suffix
      | None => sim_find src rest cmd
      end
  end.

(** The simulated channel; it keeps no state between commands. *)
Definition sim_remote (src : sim_source) (_ : list string) (cmd : string)
  : option string :=
  if String.eqb cmd (sim_cmd src +:+ " version ") then Some (sim_banner src)
  else if String.eqb cmd (sim_cmd src +:+ "ls-projects ") then
    Some (unlines (map fst (sim_projects src)))
  else sim_find src (sim_projects src) cmd.


(** The [rowCount] of the last control record of a page, if it has one: an
    entry without [project] and with [rowCount]. *)
Fixpoint last_rowCount (tickets : list json) : option json :=
  match tickets with
  | [] => None
  | entry :: rest =>
      match last_rowCount rest with
      | Some n => Some n
      | None =>
          match entry with
          | JObj kvs =>
              if dict_has "project" kvs then None else dict_get "rowCount" kvs
          | _ => None
          end
      end
  end.

(** *** A source of three projects of six reviews each *)

Definition demo_review (p : string) (i : Z) : json :=
  JObj [("project", JStr p); ("number", JInt i);
        ("sortKey", JStr ("002a" +:+ str_of_int i))].

Definition demo_reviews (p : string) : list json :=
  map (demo_review p) [1; 2; 3; 4; 5; 6].

Definition demo_source (banner : string) : sim_source :=
  {| sim_cmd := "ssh -p 29418 u@h gerrit ";
     sim_banner := banner;
     sim_limit := 4;
     sim_projects := [("a/x", demo_reviews "a/x"); ("b", demo_reviews "b");
                      ("c", demo_reviews "c")] |}.

(** The states that the loop of [_get_project_reviews] goes through:
    [pages_run remote nrev p cmd ls st ls' st'] when the loop, entered with
    the variables [ls] in the state [st], has consumed one page or more and
    stands at its test with [ls'] in [st']. *)
Inductive pages_run (remote : list string -> string -> option string)
  (nrev : Z) (p cmd : string) (ls : loop_state) (st : state)
  : loop_state -> state -> Prop :=
  | run_first (ls' : loop_state) (st' : state) :
      loop_cond nrev (number_results ls) = true ->
      fetch_page remote p cmd ls st = (Ok ls', st') ->
      pages_run remote nrev p cmd ls st ls' st'
  | run_next (ls1 ls2 : loop_state) (st1 st2 : state) :
      pages_run remote nrev p cmd ls st ls1 st1 ->
      loop_cond nrev (number_results ls1) = true ->
      fetch_page remote p cmd ls1 st1 = (Ok ls2, st2) ->
      pages_run remote nrev p cmd ls st ls2 st2.

(** A fresh instance for this source, with [max_reviews] set to [cap]. *)
Definition demo_state (cap : Z) : state :=
  {| self := set_max_reviews cap (new_Gerrit "u" "h" 4 false false);
     files := ∅; log := []; trace := [] |}.

(** *** The rows a simulated source can serve *)

(** Whether [s] has no comma followed by a closing bracket. *)
Fixpoint no_comma_bracket (s : string) : bool :=
  match s with
  | EmptyString => true
  | String c s' =>
      match s' with
      | EmptyString => true
      | String d _ => negb (Ascii.eqb c "," && Ascii.eqb d "]") && no_comma_bracket s'
      end
  end.

(** A data row: a dict with the key [project]. *)
Definition is_review (r : json) : bool :=
  match r with
  | JObj kvs => dict_has "project" kvs
  | _ => false
  end.

(** The [sortKey] of a row, when it is a str. *)
Definition sortKey_of (r : json) : option string :=
  match r with
  | JObj kvs =>
      match dict_get "sortKey" kvs with
      | Some (JStr k) => Some k
      | _ => None
      end
  | _ => None
  end.

(** The rows of a source: data rows that are values of a Python program
    and whose text has no comma before a closing bracket (inside a str,
    the only place where [json.dumps] can put one). *)
Definition row_ok (r : json) : bool :=
  is_review r && json_wf r && no_comma_bracket (dumps r).

(** The rows of a source that serves pages by sort key: each has a str
    [sortKey], and the keys are pairwise distinct. *)
Definition key_or_empty (r : json) : string :=
  match sortKey_of r with
  | Some k => k
  | None => EmptyString
  end.

Definition keyed (rs : list json) : bool :=
  forallb (fun r => match sortKey_of r with Some _ => true | None => false end) rs
  && distinct (map key_or_empty rs).

Fixpoint last_opt {A} (l : list A) : option A :=
  match l with
  | [] => None
  | [x] => Some x
  | _ :: l' => last_opt l'
  end.

(** The cursor of the loop once it has consumed the rows [pre]. *)
Definition cursor_after (offset : bool) (pre : list json) : cursor :=
  if offset then Offset (Z.of_nat (length pre))
  else SortKey (match last_opt pre with
                | Some (JObj kvs) =>
                    match dict_get "sortKey" kvs with
                    | Some k => k
                    | None => JNull
                    end
                | _ => JNull
                end).

(** The text of a page once the newlines are commas: each line followed by
    a comma. *)
Fixpoint commas (ts : list string) : string :=
  match ts with
  | [] => EmptyString
  | t :: ts' => t +:+ String "," (commas ts')
  end.

(** The banners that the pattern of [_get_version] matches: [gerrit version
    <major>.<minor>...]. *)
Definition is_banner (raw : string) : Prop :=
  exists d1 d2 rest,
    raw = "gerrit version " +:+ d1 +:+ "." +:+ d2 +:+ rest
    /\ d1 <> EmptyString /\ d2 <> EmptyString
    /\ all_digits d1 = true /\ all_digits d2 = true.

(** A method that leaves the attribute [use_cache] as it found it. *)
Definition keeps_use_cache {A} (m : M A) : Prop :=
  forall st, use_cache (self (snd (m st))) = use_cache (self st).

(** ** The identity of an instance *)

Definition _name : string := "gerrit".

Definition _get_name (g : Gerrit) : string := _name.

(** [get_id]: [self._get_name() + "_" + self.url] *)
Definition get_id (g : Gerrit) : string := _get_name g +:+ "_" +:+ url g.

Definition get_url (g : Gerrit) : string := url g.

(** ** What a run changes *)

(** An entry that has [keys()]. *)
Definition is_dict (v : json) : bool :=
  match v with
  | JObj _ => true
  | _ => false
  end.

(** A data row that [entry['sortKey']] accepts. *)
Definition has_sortKey_field (r : json) : bool :=
  match r with
  | JObj kvs => dict_has "sortKey" kvs
  | _ => false
  end.

(** The entries of a page that the loop can consume with the cursor [c]:
    dicts, whose data rows carry a [sortKey] when the cursor is one. *)
Definition consumable (c : cursor) (tickets : list json) : bool :=
  forallb is_dict tickets
  && match c with
     | Offset _ => true
     | SortKey _ => forallb has_sortKey_field (List.filter is_review tickets)
     end.

(** The state [st'] comes from [st] by steps of a run: reviews and remote
    commands are only added, the dump file of history mode is not written
    and the settings of the instance stay. *)
Record run_extends (st st' : state) : Prop := {
  ext_reviews : exists l, reviews (self st') = reviews (self st) ++ l;
  ext_trace : exists t, trace st' = trace st ++ t;
  ext_log : exists m, log st' = log st ++ m;
  ext_dump : files st' !! reviews_file = files st !! reviews_file;
  ext_url : url (self st') = url (self st);
  ext_cmd : gerrit_cmd (self st') = gerrit_cmd (self st);
  ext_nreviews : nreviews (self st') = nreviews (self st);
  ext_max : max_reviews (self st') = max_reviews (self st);
  ext_cache : cache (self st') = cache (self st);
  ext_issues : issues (self st') = issues (self st)
}.

Definition extends {A} (m : M A) : Prop :=
  forall st, run_extends st (snd (m st)).

(** The instance with cache-reuse switched on, as a later construction on
    the same storage directory has it. *)
Definition with_cache (st : state) : state :=
  set_self (set_use_cache true (self st)) st.

(** The state [st] with the messages [ms] logged. *)
Definition logged (st : state) (ms : list (level * message)) : state :=
  {| self := self st; files := files st; log := log st ++ ms; trace := trace st |}.

(** A remote that gives the same answer to every command. *)
Definition const_remote (answer : option string)
  : list string -> string -> option string :=
  fun _ _ => answer.

(** A page of one data row and its control record. *)
Definition one_row_page : string :=
  unlines (map dumps [JObj [("project", JStr "p")]; stats_record 1]).

(** A fresh instance for the user [u] and the host [h], on an empty
    storage directory. *)
Definition fresh_state (use_cache_arg : bool) : state :=
  {| self := new_Gerrit "u" "h" 4 use_cache_arg false;
     files := ∅; log := []; trace := [] |}.

(** A remote that answers the first command it gets with [banner] and
    every later one with [page]. *)
Definition banner_then_page (banner page : string)
  : list string -> string -> option string :=
  fun sent _ =>
    match sent with
    | [] => Some banner
    | _ :: _ => Some page
    end.

(** * Properties *)

(** ** Strings *)

Lemma append_assoc (a b c : string) : (a +:+ b) +:+ c = a +:+ (b +:+ c).
Proof. induction a as [|x a IH]; simpl; [reflexivity | now rewrite IH]. Qed.

Lemma append_nil_r (a : string) : a +:+ EmptyString = a.
Proof. induction a as [|x a IH]; simpl; [reflexivity | now rewrite IH]. Qed.

Lemma length_append (a b : string) :
  String.length (a +:+ b) = (String.length a + String.length b)%nat.
Proof. induction a as [|x a IH]; simpl; [reflexivity | now rewrite IH]. Qed.

Lemma startswith_append (p s : string) : startswith p (p +:+ s) = true.
Proof.
  induction p as [|x p IH]; simpl; [reflexivity|].
  now rewrite Ascii.eqb_refl.
Qed.

Lemma startswith_split (p s : string) :
  startswith p s = true -> s = p +:+ str_drop (String.length p) s.
Proof.
  revert s; induction p as [|x p IH]; intros s H; simpl in *; [reflexivity|].
  destruct s as [|y s]; [discriminate|].
  apply andb_prop in H as [Hxy Hp].
  apply Ascii.eqb_eq in Hxy; subst y.
  now rewrite <- IH.
Qed.

Lemma str_drop_append (p s : string) : str_drop (String.length p) (p +:+ s) = s.
Proof. induction p as [|x p IH]; simpl; [reflexivity | exact IH]. Qed.

Lemma strip_prefix_append (p s : string) : strip_prefix p (p +:+ s) = Some s.
Proof.
  induction p as [|x p IH]; simpl; [reflexivity|].
  now rewrite Ascii.eqb_refl.
Qed.

Lemma no_char_append (c : ascii) (a b : string) :
  no_char c (a +:+ b) = no_char c a && no_char c b.
Proof.
  induction a as [|x a IH]; simpl; [reflexivity|].
  now rewrite IH, andb_assoc.
Qed.

(** *** [split] on lines *)

Lemma str_split_nonempty (sep : ascii) (s : string) : str_split sep s <> [].
Proof.
  destruct s as [|c s]; simpl; [discriminate|].
  destruct (Ascii.eqb c sep); [discriminate|].
  destruct (str_split sep s); discriminate.
Qed.

Lemma str_split_no_sep (sep : ascii) (s : string) :
  no_char sep s = true -> str_split sep s = [s].
Proof.
  induction s as [|c s IH]; simpl; intros H; [reflexivity|].
  apply andb_prop in H as [Hc Hs].
  apply negb_true_iff in Hc. rewrite Hc, (IH Hs). reflexivity.
Qed.

Lemma str_split_line (sep : ascii) (l r : string) :
  no_char sep l = true ->
  str_split sep (l +:+ String sep r) = l :: str_split sep r.
Proof.
  induction l as [|c l IH]; simpl; intros H.
  - now rewrite Ascii.eqb_refl.
  - apply andb_prop in H as [Hc Hl].
    apply negb_true_iff in Hc. rewrite Hc, (IH Hl). reflexivity.
Qed.

Lemma str_split_unlines (ls : list string) (last : string) :
  Forall (fun l => no_char NL l = true) ls ->
  no_char NL last = true ->
  str_split NL (unlines ls +:+ last) = ls ++ [last].
Proof.
  intros Hls Hlast.
  induction Hls as [|l ls Hl _ IH]; simpl.
  - now apply str_split_no_sep.
  - rewrite append_assoc. simpl.
    rewrite str_split_line by exact Hl.
    now rewrite IH.
Qed.

(** *** Decimal numerals *)

Lemma is_digit_iff (c : ascii) :
  is_digit c = true <-> uint_of_char c (Some Decimal.Nil) <> None.
Proof.
  destruct c as [[] [] [] [] [] [] [] []]; vm_compute; split; congruence.
Qed.

Lemma all_digits_of_uint (d : Decimal.uint) :
  all_digits (NilEmpty.string_of_uint d) = true.
Proof. induction d; simpl; auto. Qed.

Lemma all_digits_append (a b : string) :
  all_digits (a +:+ b) = all_digits a && all_digits b.
Proof.
  induction a as [|x a IH]; simpl; [reflexivity|].
  now rewrite IH, andb_assoc.
Qed.

Lemma span_digits_app (ds rest : string) :
  all_digits ds = true -> starts_with_digit rest = false ->
  span_digits (ds +:+ rest) = (ds, rest).
Proof.
  intros Hds Hrest. induction ds as [|c ds IH]; simpl in *.
  - destruct rest as [|c rest]; simpl in *; [reflexivity|].
    now rewrite Hrest.
  - apply andb_prop in Hds as [Hc Hds].
    rewrite Hc, (IH Hds). reflexivity.
Qed.

Lemma span_digits_split (s ds rest : string) :
  span_digits s = (ds, rest) -> s = ds +:+ rest /\ all_digits ds = true.
Proof.
  revert ds rest; induction s as [|c s IH]; simpl; intros ds rest H.
  - injection H as <- <-. auto.
  - destruct (is_digit c) eqn:Hc.
    + destruct (span_digits s) as [ds' rest'].
      injection H as <- <-.
      destruct (IH _ _ eq_refl) as [-> Hds]. simpl. rewrite Hc. auto.
    + injection H as <- <-. auto.
Qed.

Lemma string_of_uint_nonnil (d : Decimal.uint) :
  d <> Decimal.Nil -> NilZero.string_of_uint d = NilEmpty.string_of_uint d.
Proof. destruct d; simpl; congruence. Qed.

Lemma str_of_int_nonneg (n : Z) :
  0 <= n ->
  exists d, d <> Decimal.Nil /\ str_of_int n = NilEmpty.string_of_uint d
            /\ Z.of_uint d = n.
Proof.
  intros Hn. destruct n as [|p|p]; [| |lia].
  - exists (Decimal.D0 Decimal.Nil). repeat split; congruence.
  - exists (Pos.to_uint p). split; [apply Unsigned.to_uint_nonnil|].
    split.
    + unfold str_of_int; simpl.
      apply string_of_uint_nonnil, Unsigned.to_uint_nonnil.
    + unfold Z.of_uint. now rewrite DecimalPos.Unsigned.of_to.
Qed.

Lemma digits_value_of_uint (d : Decimal.uint) :
  digits_value (NilEmpty.string_of_uint d) = Z.of_uint d.
Proof. unfold digits_value. now rewrite NilEmpty.usu. Qed.

Lemma digits_value_str_of_int (n : Z) :
  0 <= n -> digits_value (str_of_int n) = n.
Proof.
  intros Hn. destruct (str_of_int_nonneg n Hn) as (d & _ & -> & <-).
  apply digits_value_of_uint.
Qed.

Lemma all_digits_str_of_int (n : Z) :
  0 <= n -> all_digits (str_of_int n) = true.
Proof.
  intros Hn. destruct (str_of_int_nonneg n Hn) as (d & _ & -> & _).
  apply all_digits_of_uint.
Qed.

Lemma str_of_int_nonempty (n : Z) : str_of_int n <> EmptyString.
Proof.
  destruct n as [|p|p]; unfold str_of_int; simpl; try discriminate.
  pose proof (Unsigned.to_uint_nonnil p) as Hp.
  destruct (Pos.to_uint p); simpl; congruence.
Qed.

Lemma parse_digits_digits (ds : string) :
  ds <> EmptyString -> all_digits ds = true ->
  parse_digits ds = Ok (digits_value ds).
Proof.
  intros Hne Hds. destruct ds as [|c ds]; [congruence|].
  unfold parse_digits. now rewrite Hds.
Qed.

Lemma parse_digits_str_of_int (n : Z) :
  0 <= n -> parse_digits (str_of_int n) = Ok n.
Proof.
  intros Hn. rewrite parse_digits_digits.
  - now rewrite digits_value_str_of_int.
  - apply str_of_int_nonempty.
  - now apply all_digits_str_of_int.
Qed.

Lemma py_int_digits (ds : string) :
  ds <> EmptyString -> all_digits ds = true ->
  py_int ds
  = if Z.of_nat (String.length ds) <=? int_max_str_digits
    then Ok (digits_value ds)
    else Raise (ValueError
                  "Exceeds the limit (4300 digits) for integer string conversion").
Proof.
  intros Hne Hds. unfold py_int.
  destruct (Z.of_nat (String.length ds) <=? int_max_str_digits);
    [now apply parse_digits_digits | reflexivity].
Qed.

(** ** The JSON codec *)

Lemma json_ind' (P : json -> Prop) :
  P JNull ->
  (forall b, P (JBool b)) ->
  (forall n, P (JInt n)) ->
  (forall s, P (JStr s)) ->
  (forall l, Forall P l -> P (JArr l)) ->
  (forall kvs, Forall (fun kv => P (snd kv)) kvs -> P (JObj kvs)) ->
  forall v, P v.
Proof.
  intros Hnull Hbool Hint Hstr Harr Hobj.
  fix IH 1. intros [ | b | n | s | l | kvs ].
  - exact Hnull.
  - apply Hbool.
  - apply Hint.
  - apply Hstr.
  - apply Harr. induction l as [|x l IHl]; constructor; [apply IH | exact IHl].
  - apply Hobj. induction kvs as [|[k x] kvs IHl]; constructor;
      [apply IH | exact IHl].
Qed.

(** *** Strings *)

Lemma scanstring_esc_char (c : ascii) (tl : string) :
  scanstring (esc_char c +:+ tl)
  = let* (s, rest) := scanstring tl in Ok (String c s, rest).
Proof.
  destruct c as [[] [] [] [] [] [] [] []]; reflexivity.
Qed.

Lemma scanstring_esc_string (s rest : string) :
  scanstring (esc_string s +:+ String DQ rest) = Ok (s, rest).
Proof.
  induction s as [|c s IH].
  - reflexivity.
  - cbn [esc_string]. rewrite append_assoc, scanstring_esc_char, IH. reflexivity.
Qed.

(** *** Integers *)

Lemma unorm_head (d d' : Decimal.uint) :
  Decimal.unorm d = Decimal.D0 d' -> d' = Decimal.Nil.
Proof.
  induction d; simpl; intros H; try discriminate; auto.
  now injection H.
Qed.

Lemma to_uint_unorm (p : positive) :
  Pos.to_uint p = Decimal.unorm (Pos.to_uint p).
Proof.
  rewrite <- (DecimalPos.Unsigned.to_of (Pos.to_uint p)).
  now rewrite DecimalPos.Unsigned.of_to.
Qed.

Lemma to_uint_head (p : positive) :
  exists c s, NilEmpty.string_of_uint (Pos.to_uint p) = String c s
              /\ is_digit c = true /\ Ascii.eqb c "0" = false.
Proof.
  pose proof (to_uint_unorm p) as Hu.
  pose proof (Unsigned.to_uint_nonzero p) as Hnz.
  destruct (Pos.to_uint p) as [|d|d|d|d|d|d|d|d|d|d] eqn:Hp;
    try (simpl; eexists _, _; repeat split; reflexivity).
  - now destruct (Unsigned.to_uint_nonnil p).
  - symmetry in Hu. apply unorm_head in Hu. subst d. congruence.
Qed.

Lemma is_digit_not_minus (c : ascii) :
  is_digit c = true -> Ascii.eqb c "-" = false.
Proof.
  intros Hc. destruct (Ascii.eqb_spec c "-"); [subst c; discriminate | reflexivity].
Qed.

Lemma match_int_digits (c : ascii) (s rest : string) :
  is_digit c = true -> Ascii.eqb c "0" = false ->
  all_digits s = true -> starts_with_digit rest = false ->
  match_int (String c (s +:+ rest)) = Some (digits_value (String c s), rest)
  /\ match_int (String "-" (String c (s +:+ rest)))
     = Some (- digits_value (String c s), rest).
Proof.
  intros Hc Hz Hs Hrest. unfold match_int.
  rewrite (is_digit_not_minus c Hc). simpl.
  rewrite Hz, Hc. rewrite (span_digits_app s rest Hs Hrest). auto.
Qed.

Lemma match_int_str_of_int (n : Z) (rest : string) :
  starts_with_digit rest = false ->
  match_int (str_of_int n +:+ rest) = Some (n, rest).
Proof.
  intros Hrest. destruct n as [|p|p]; [reflexivity| |];
    unfold str_of_int; simpl;
    rewrite string_of_uint_nonnil by apply Unsigned.to_uint_nonnil;
    destruct (to_uint_head p) as (c & s & Hs & Hc & Hz);
    pose proof (all_digits_of_uint (Pos.to_uint p)) as Hall;
    pose proof (digits_value_of_uint (Pos.to_uint p)) as Hval;
    rewrite Hs in *; simpl in Hall; rewrite Hc in Hall; simpl in Hall;
    destruct (match_int_digits c s rest Hc Hz Hall Hrest) as [Hpos Hneg];
    simpl; [rewrite Hpos | rewrite Hneg]; rewrite Hval; unfold Z.of_uint;
    now rewrite DecimalPos.Unsigned.of_to.
Qed.

(** The first character of the text of an integer. *)
Lemma str_of_int_head (n : Z) :
  exists c s, str_of_int n = String c s
              /\ (is_digit c = true \/ c = "-"%char).
Proof.
  destruct n as [|p|p].
  - eexists _, _. split; [reflexivity | now left].
  - unfold str_of_int. simpl.
    rewrite string_of_uint_nonnil by apply Unsigned.to_uint_nonnil.
    destruct (to_uint_head p) as (c & s & Hs & Hc & _).
    exists c, s. auto.
  - unfold str_of_int. simpl. eexists _, _. split; [reflexivity | now right].
Qed.

Lemma scan_atom_int (n : Z) (rest : string) :
  value_end rest = true ->
  scan_atom (str_of_int n +:+ rest) = Ok (JInt n, rest).
Proof.
  intros Hend. unfold value_end in Hend.
  apply andb_prop in Hend as [Hd Hf].
  apply negb_true_iff in Hd. apply negb_true_iff in Hf.
  unfold scan_atom. rewrite match_int_str_of_int by exact Hd. rewrite Hf.
  destruct (str_of_int_head n) as (c & s & -> & Hc). simpl.
  destruct Hc as [Hc | ->]; [|reflexivity].
  destruct c as [[] [] [] [] [] [] [] []]; try discriminate Hc; reflexivity.
Qed.

Lemma scan_once_int (f : nat) (n : Z) (rest : string) :
  value_end rest = true ->
  scan_once (S f) (str_of_int n +:+ rest) = Ok (JInt n, rest).
Proof.
  intros Hend. pose proof (scan_atom_int n rest Hend) as Hatom.
  destruct (str_of_int_head n) as (c & s & Hs & Hc).
  rewrite Hs in *. simpl.
  destruct Hc as [Hc | ->]; [|exact Hatom].
  destruct c as [[] [] [] [] [] [] [] []]; try discriminate Hc; exact Hatom.
Qed.

(** *** Lists and dicts *)

Lemma dumps_arr (l : list json) :
  dumps (JArr l) = "[" +:+ String.concat ", " (map dumps l) +:+ "]".
Proof. reflexivity. Qed.

Lemma dumps_obj (kvs : list (string * json)) :
  dumps (JObj kvs) = "{" +:+ String.concat ", " (map pair_text kvs) +:+ "}".
Proof. reflexivity. Qed.

Lemma concat_cons2 (sep t u : string) (ts : list string) :
  String.concat sep (t :: u :: ts) = t +:+ sep +:+ String.concat sep (u :: ts).
Proof. reflexivity. Qed.

Lemma dumps_head (v : json) :
  exists c s, dumps v = String c s
              /\ is_ws c = false /\ Ascii.eqb c "]" = false.
Proof.
  destruct v as [ | [] | n | s | l | kvs ];
    try (eexists _, _; repeat split; reflexivity).
  destruct (str_of_int_head n) as (c & s & Hs & Hc).
  exists c, s. split; [exact Hs|].
  destruct Hc as [Hc | ->]; [|split; reflexivity].
  destruct c as [[] [] [] [] [] [] [] []]; try discriminate Hc;
    split; reflexivity.
Qed.

Lemma skip_ws_dumps (v : json) (rest : string) :
  skip_ws (dumps v +:+ rest) = dumps v +:+ rest.
Proof.
  destruct (dumps_head v) as (c & s & -> & Hc & _). simpl. now rewrite Hc.
Qed.

Lemma skip_ws_all_ws (ws s : string) :
  all_ws ws = true -> skip_ws (ws +:+ s) = skip_ws s.
Proof.
  induction ws as [|c ws IH]; simpl; intros H; [reflexivity|].
  apply andb_prop in H as [Hc Hws]. rewrite Hc. auto.
Qed.

Lemma array_items_concat (ws : string) (l : list json) :
  all_ws ws = true -> l <> [] -> Forall roundtrips l ->
  forall rest fuel,
    (list_sum (map (fun x => S (json_size x)) l) <= fuel)%nat ->
    array_items fuel
      (String.concat (String "," ws) (map dumps l) +:+ String "]" rest)
    = Ok (l, rest).
Proof.
  intros Hws Hne Hall. induction Hall as [|x l Hx Hl IH]; [congruence|].
  intros rest fuel Hfuel. simpl in Hfuel.
  destruct fuel as [|f]; [lia|].
  destruct l as [|y l].
  - cbn [map String.concat array_items].
    rewrite Hx by (reflexivity || lia). simpl. reflexivity.
  - cbn [map]. rewrite concat_cons2.
    rewrite !append_assoc. cbn [array_items].
    change (String "," ws +:+ ?t) with (String "," (ws +:+ t)).
    rewrite Hx by (reflexivity || lia).
    cbn [obind skip_ws is_ws]. simpl.
    rewrite skip_ws_all_ws by exact Hws.
    assert (Hskip : forall t,
              skip_ws (String.concat (String "," ws) (map dumps (y :: l)) +:+ t)
              = String.concat (String "," ws) (map dumps (y :: l)) +:+ t).
    { intros t. destruct l as [|z l]; cbn [map].
      - apply skip_ws_dumps.
      - rewrite concat_cons2, !append_assoc. apply skip_ws_dumps. }
    rewrite Hskip.
    rewrite IH by (discriminate || (simpl in *; lia)).
    reflexivity.
Qed.

Lemma dict_set_fresh (k : string) (v : json) (d : list (string * json)) :
  existsb (String.eqb k) (map fst d) = false -> dict_set k v d = d ++ [(k, v)].
Proof.
  induction d as [|[k' v'] d IH]; simpl; intros H; [reflexivity|].
  apply orb_false_iff in H as [Hk Hd].
  rewrite Hk, (IH Hd). reflexivity.
Qed.

Lemma existsb_app_false (k : string) (a b : list string) :
  existsb (String.eqb k) (a ++ b) = false <->
  existsb (String.eqb k) a = false /\ existsb (String.eqb k) b = false.
Proof. rewrite existsb_app. apply orb_false_iff. Qed.

Lemma dict_of_pairs_distinct (kvs : list (string * json)) :
  distinct (map fst kvs) = true -> dict_of_pairs kvs = kvs.
Proof.
  unfold dict_of_pairs.
  enough (H : forall acc,
             distinct (map fst kvs) = true ->
             (forall k, In k (map fst kvs) ->
                        existsb (String.eqb k) (map fst acc) = false) ->
             fold_left (fun d kv => dict_set (fst kv) (snd kv) d) kvs acc
             = acc ++ kvs).
  { intros Hd. apply (H [] Hd). reflexivity. }
  induction kvs as [|[k v] kvs IH]; intros acc Hd Hacc; simpl.
  - now rewrite app_nil_r.
  - simpl in Hd. apply andb_prop in Hd as [Hk Hd].
    apply negb_true_iff in Hk.
    rewrite dict_set_fresh by (apply Hacc; now left).
    rewrite IH; [now rewrite <- app_assoc | exact Hd |].
    intros k' Hin. rewrite map_app. apply existsb_app_false. split.
    + apply Hacc. now right.
    + simpl. rewrite orb_false_r.
      destruct (String.eqb_spec k' k) as [->|]; [|reflexivity].
      exfalso. apply in_map_iff in Hin as ([k2 v2] & Hk2 & Hin). simpl in Hk2.
      subst k2.
      assert (existsb (String.eqb k) (map fst kvs) = true); [|congruence].
      apply existsb_exists. exists k. split; [|apply String.eqb_refl].
      apply in_map_iff. now exists (k, v2).
Qed.

Lemma pairs_text_head (kv : string * json) (kvs : list (string * json)) :
  exists tail,
    String.concat ", " (map pair_text (kv :: kvs))
    = String DQ (esc_string (fst kv) +:+ QUOTE +:+ ": " +:+ dumps (snd kv) +:+ tail)
    /\ tail = match kvs with
              | [] => EmptyString
              | _ :: _ => ", " +:+ String.concat ", " (map pair_text kvs)
              end.
Proof.
  destruct kvs as [|kv2 kvs]; eexists; (split; [|reflexivity]).
  - cbn [map String.concat]. unfold pair_text, dumps_str.
    rewrite !append_assoc. simpl. now rewrite append_nil_r.
  - cbn [map]. rewrite concat_cons2. unfold pair_text at 1. unfold dumps_str.
    rewrite !append_assoc. reflexivity.
Qed.

Lemma object_items_concat (kvs : list (string * json)) :
  kvs <> [] -> Forall (fun kv => roundtrips (snd kv)) kvs ->
  forall t rest fuel,
    (list_sum (map (fun kv => S (json_size (snd kv))) kvs) <= fuel)%nat ->
    String.concat ", " (map pair_text kvs) = String DQ t ->
    object_items fuel (t +:+ String "}" rest) = Ok (kvs, rest).
Proof.
  intros Hne Hall. induction Hall as [|[k v] kvs Hx Hl IH]; [congruence|].
  intros t rest fuel Hfuel Ht. simpl in Hfuel, Hx.
  destruct fuel as [|f]; [lia|].
  destruct (pairs_text_head (k, v) kvs) as (tail & Hhead & Htail).
  rewrite Hhead in Ht. injection Ht as <-. simpl fst. simpl snd.
  rewrite !append_assoc. cbn [object_items String.append].
  rewrite scanstring_esc_string. cbn [obind]. simpl.
  rewrite append_assoc, skip_ws_dumps.
  destruct kvs as [|kv2 kvs]; subst tail.
  - cbn [String.append]. rewrite Hx by (reflexivity || lia). reflexivity.
  - destruct (pairs_text_head kv2 kvs) as (tail2 & Hhead2 & _).
    rewrite Hhead2. cbn [String.append].
    rewrite Hx by (reflexivity || lia). simpl.
    match goal with
    | |- context [object_items f (?t +:+ String "}" rest)] =>
        rewrite (IH ltac:(discriminate) t rest f)
    end.
    + reflexivity.
    + simpl in *. lia.
    + rewrite Hhead2. reflexivity.
Qed.

Lemma concat_dumps_head (sep : string) (l : list json) :
  l <> [] ->
  exists c s, String.concat sep (map dumps l) = String c s
              /\ is_ws c = false /\ Ascii.eqb c "]" = false.
Proof.
  destruct l as [|x l]; [congruence|]. intros _.
  destruct (dumps_head x) as (c & s & Hx & Hc).
  destruct l as [|y l]; cbn [map].
  - exists c, s. auto.
  - rewrite concat_cons2, Hx. eexists c, _. split; [reflexivity | exact Hc].
Qed.

Lemma scan_once_array_text (ws : string) (l : list json) (rest : string)
  (fuel : nat) :
  all_ws ws = true -> Forall roundtrips l ->
  (S (list_sum (map (fun x => S (json_size x)) l)) <= fuel)%nat ->
  scan_once fuel
    (String "[" (String.concat (String "," ws) (map dumps l) +:+ String "]" rest))
  = Ok (JArr l, rest).
Proof.
  intros Hws Hall Hfuel. destruct fuel as [|f]; [lia|].
  destruct l as [|x l]; [reflexivity|].
  pose proof (array_items_concat ws (x :: l) Hws ltac:(discriminate) Hall rest f
                ltac:(lia)) as Hitems.
  destruct (concat_dumps_head (String "," ws) (x :: l) ltac:(discriminate))
    as (c & s & Hhead & Hc & Hb).
  rewrite Hhead in *. cbn [String.append] in *. cbn [scan_once].
  simpl. rewrite Hc, Hb, Hitems. reflexivity.
Qed.

Lemma forallb_Forall_roundtrips (l : list json) :
  Forall (fun v => json_wf v = true -> roundtrips v) l ->
  forallb json_wf l = true -> Forall roundtrips l.
Proof.
  intros Hall Hwf. induction Hall as [|x l Hx _ IH]; [constructor|].
  simpl in Hwf. apply andb_prop in Hwf as [Hwx Hwl]. constructor; auto.
Qed.

Lemma dumps_roundtrips (v : json) : json_wf v = true -> roundtrips v.
Proof.
  induction v as [ | b | n | s | l IHl | kvs IHkvs ] using json_ind';
    intros Hwf rest fuel Hend Hfuel;
    (destruct fuel as [|f]; [simpl in Hfuel; lia|]).
  - reflexivity.
  - destruct b; reflexivity.
  - now apply scan_once_int.
  - cbn [dumps]. unfold dumps_str. rewrite !append_assoc. cbn [String.append].
    cbn [scan_once]. simpl. rewrite scanstring_esc_string. reflexivity.
  - rewrite dumps_arr, !append_assoc. cbn [String.append].
    apply (scan_once_array_text " "); [reflexivity | | exact Hfuel].
    apply forallb_Forall_roundtrips; assumption.
  - rewrite dumps_obj, !append_assoc. cbn [String.append].
    simpl in Hwf. apply andb_prop in Hwf as [Hdist Hwf].
    destruct kvs as [|kv kvs]; [reflexivity|].
    destruct (pairs_text_head kv kvs) as (tail & Hhead & _).
    assert (Hall : Forall (fun kv => roundtrips (snd kv)) (kv :: kvs)).
    { clear - IHkvs Hwf. induction IHkvs as [|y l Hy _ IH]; [constructor|].
      simpl in Hwf. apply andb_prop in Hwf as [Hwy Hwl]. constructor; auto. }
    pose proof (object_items_concat (kv :: kvs) ltac:(discriminate) Hall _ rest f
                  ltac:(simpl in *; lia) Hhead) as Hitems.
    rewrite Hhead. cbn [String.append scan_once]. simpl.
    simpl in Hitems. rewrite Hitems. simpl.
    now rewrite (dict_of_pairs_distinct (kv :: kvs)).
Qed.

Lemma sum_le_concat {A} (f : A -> string) (g : A -> nat) (sep : string)
  (l : list A) :
  (1 <= String.length sep)%nat ->
  Forall (fun x => (g x <= String.length (f x))%nat) l ->
  (list_sum (map (fun x => S (g x)) l)
   <= S (String.length (String.concat sep (map f l))))%nat.
Proof.
  intros Hsep Hall. induction Hall as [|x l Hx _ IH]; simpl; [lia|].
  destruct l as [|y l]; simpl in *; [lia|].
  rewrite !length_append. lia.
Qed.

Lemma json_size_le_length (v : json) : (json_size v <= String.length (dumps v))%nat.
Proof.
  induction v as [ | b | n | s | l IHl | kvs IHkvs ] using json_ind'.
  - simpl. lia.
  - destruct b; simpl; lia.
  - destruct (str_of_int_head n) as (c & s & Hs & _).
    cbn [dumps json_size]. rewrite Hs. simpl. lia.
  - simpl. lia.
  - rewrite dumps_arr. cbn [json_size String.append String.length].
    rewrite length_append.
    pose proof (sum_le_concat dumps json_size ", " l ltac:(simpl; lia) IHl).
    simpl. lia.
  - rewrite dumps_obj. cbn [json_size String.append String.length].
    rewrite length_append.
    assert (Hall : Forall (fun kv => (json_size (snd kv)
                                      <= String.length (pair_text kv))%nat) kvs).
    { eapply Forall_impl; [exact IHkvs|]. intros [k x] Hx. simpl in *.
      unfold pair_text. rewrite !length_append. simpl. lia. }
    pose proof (sum_le_concat pair_text (fun kv => json_size (snd kv)) ", " kvs
                  ltac:(simpl; lia) Hall).
    simpl. lia.
Qed.

(** [json.loads(json.dumps(v)) == v] *)
Lemma loads_dumps (v : json) : json_wf v = true -> loads (dumps v) = Ok v.
Proof.
  intros Hwf. unfold loads.
  rewrite <- (append_nil_r (dumps v)) at 2.
  rewrite skip_ws_dumps.
  rewrite (dumps_roundtrips v Hwf EmptyString); [reflexivity | reflexivity |].
  pose proof (json_size_le_length v). lia.
Qed.

(** *** The decoder needs no more fuel than [loads] gives it *)

Lemma length_skip_ws (s : string) :
  (String.length (skip_ws s) <= String.length s)%nat.
Proof.
  induction s as [|c s IH]; simpl; [lia|].
  destruct (is_ws c); simpl; lia.
Qed.

Lemma length_str_drop (n : nat) (s : string) :
  (n <= String.length s)%nat ->
  String.length (str_drop n s) = (String.length s - n)%nat.
Proof.
  revert s; induction n as [|n IH]; intros s H; simpl; [lia|].
  destruct s as [|c s]; simpl in *; [lia|]. apply IH. lia.
Qed.

Lemma startswith_length (p s : string) :
  startswith p s = true -> (String.length p <= String.length s)%nat.
Proof.
  intros H. apply startswith_split in H.
  assert (Hlen : String.length s
                 = String.length (p +:+ str_drop (String.length p) s))
    by now rewrite <- H.
  rewrite length_append in Hlen. lia.
Qed.

Lemma length_span_digits (s ds rest : string) :
  span_digits s = (ds, rest) -> (String.length rest <= String.length s)%nat.
Proof.
  intros H. apply span_digits_split in H as [-> _].
  rewrite length_append. lia.
Qed.

Lemma scanstring_consumes (s str rest : string) :
  scanstring s = Ok (str, rest) -> (String.length rest < String.length s)%nat.
Proof.
  remember (String.length s) as n eqn:Hn.
  revert s str rest Hn.
  induction n as [n IH] using lt_wf_ind. intros s str rest Hn H.
  destruct s as [|c r]; [discriminate|]. simpl in Hn, H.
  destruct (Ascii.eqb c DQ).
  { injection H as <- <-. lia. }
  destruct (Ascii.eqb c "\").
  - destruct r as [|e r']; [discriminate|]. simpl in Hn.
    destruct (Ascii.eqb e "u").
    + destruct r' as [|h1 [|h2 [|h3 [|h4 r'']]]]; try discriminate.
      simpl in Hn.
      destruct (hex4 h1 h2 h3 h4) as [m|]; [|discriminate].
      destruct (m <? 256); [|discriminate].
      destruct (scanstring r'') as [[tl rest']| |] eqn:Hrec; try discriminate.
      injection H as <- <-.
      pose proof (IH (String.length r'') ltac:(lia) r'' tl rest' eq_refl Hrec).
      lia.
    + destruct (unescape e); [|discriminate].
      destruct (scanstring r') as [[tl rest']| |] eqn:Hrec; try discriminate.
      injection H as <- <-.
      pose proof (IH (String.length r') ltac:(lia) r' tl rest' eq_refl Hrec).
      lia.
  - destruct (ord c <? 32); [discriminate|].
    destruct (scanstring r) as [[tl rest']| |] eqn:Hrec; try discriminate.
    injection H as <- <-.
    pose proof (IH (String.length r) ltac:(lia) r tl rest' eq_refl Hrec).
    lia.
Qed.

Lemma scanstring_no_fuel (s : string) : scanstring s <> OutOfFuel.
Proof.
  remember (String.length s) as n eqn:Hn. revert s Hn.
  induction n as [n IH] using lt_wf_ind. intros s Hn.
  destruct s as [|c r]; [discriminate|]. simpl in *.
  destruct (Ascii.eqb c DQ); [discriminate|].
  destruct (Ascii.eqb c "\").
  - destruct r as [|e r']; [discriminate|]. simpl in Hn.
    destruct (Ascii.eqb e "u").
    + destruct r' as [|h1 [|h2 [|h3 [|h4 r'']]]]; try discriminate.
      simpl in Hn.
      destruct (hex4 h1 h2 h3 h4) as [m|]; [|discriminate].
      destruct (m <? 256); [|discriminate].
      pose proof (IH (String.length r'') ltac:(lia) r'' eq_refl).
      destruct (scanstring r'') as [[tl rest']| |]; simpl; congruence.
    + destruct (unescape e); [|discriminate].
      pose proof (IH (String.length r') ltac:(lia) r' eq_refl).
      destruct (scanstring r') as [[tl rest']| |]; simpl; congruence.
  - destruct (ord c <? 32); [discriminate|].
    pose proof (IH (String.length r) ltac:(lia) r eq_refl).
    destruct (scanstring r) as [[tl rest']| |]; simpl; congruence.
Qed.

Lemma match_int_consumes (s : string) (n : Z) (rest : string) :
  match_int s = Some (n, rest) -> (String.length rest < String.length s)%nat.
Proof.
  unfold match_int. intros H.
  destruct s as [|c r]; [discriminate|].
  destruct (Ascii.eqb c "-").
  - destruct r as [|c2 r2]; [discriminate|].
    destruct (Ascii.eqb c2 "0"); [injection H as <- <-; simpl; lia|].
    destruct (is_digit c2); [|discriminate].
    destruct (span_digits (String c2 r2)) as [ds rest'] eqn:Hs.
    injection H as <- <-. apply length_span_digits in Hs. simpl in *. lia.
  - destruct (Ascii.eqb c "0"); [injection H as <- <-; simpl; lia|].
    destruct (is_digit c) eqn:Hc; [|discriminate].
    simpl in H. rewrite Hc in H.
    destruct (span_digits r) as [ds rest'] eqn:Hs.
    injection H as <- <-. apply length_span_digits in Hs. simpl in *. lia.
Qed.

Lemma scan_atom_consumes (s : string) :
  match scan_atom s with
  | Ok (_, rest) => (String.length rest < String.length s)%nat
  | Raise _ => True
  | OutOfFuel => False
  end.
Proof.
  unfold scan_atom.
  destruct (startswith "null" s) eqn:H1.
  { apply startswith_length in H1. rewrite length_str_drop; simpl in *; lia. }
  destruct (startswith "true" s) eqn:H2.
  { apply startswith_length in H2. rewrite length_str_drop; simpl in *; lia. }
  destruct (startswith "false" s) eqn:H3.
  { apply startswith_length in H3. rewrite length_str_drop; simpl in *; lia. }
  destruct (match_int s) as [[n rest]|] eqn:Hm.
  - destruct (is_float_tail rest); [exact I|].
    now apply match_int_consumes in Hm.
  - now destruct (startswith "NaN" s || startswith "Infinity" s
                  || startswith "-Infinity" s).
Qed.

Lemma decoder_ends (fuel : nat) :
  (forall s, (2 * String.length s + 1 <= fuel)%nat ->
             ends_shorter s (scan_once fuel s))
  /\ (forall s, (2 * String.length s + 2 <= fuel)%nat ->
                ends_shorter s (array_items fuel s))
  /\ (forall s, (2 * String.length s + 2 <= fuel)%nat ->
                ends_shorter s (object_items fuel s)).
Proof.
  induction fuel as [|f (IHscan & IHarr & IHobj)].
  { repeat split; intros s H; lia. }
  repeat split; intros s Hfuel.
  - (* scan_once *)
    destruct s as [|c r]; [exact I|]. cbn [scan_once]. simpl in Hfuel.
    destruct (Ascii.eqb c DQ).
    { pose proof (scanstring_no_fuel r) as Hnf.
      destruct (scanstring r) as [[str rest]| |] eqn:Hs; simpl;
        try congruence; try exact I.
      apply scanstring_consumes in Hs. lia. }
    destruct (Ascii.eqb c "{").
    { pose proof (length_skip_ws r) as Hws.
      destruct (skip_ws r) as [|c2 r2]; [exact I|]. simpl in Hws.
      destruct (Ascii.eqb c2 "}"); [simpl; lia|].
      destruct (Ascii.eqb c2 DQ); [|exact I].
      pose proof (IHobj r2 ltac:(lia)) as Hr.
      destruct (object_items f r2) as [[pairs rest]| |]; simpl in *; auto; lia. }
    destruct (Ascii.eqb c "[").
    { pose proof (length_skip_ws r) as Hws.
      destruct (skip_ws r) as [|c2 r2]; [exact I|]. simpl in Hws.
      destruct (Ascii.eqb c2 "]"); [simpl; lia|].
      pose proof (IHarr (String c2 r2) ltac:(simpl; lia)) as Hr.
      destruct (array_items f (String c2 r2)) as [[vs rest]| |];
        simpl in *; auto; lia. }
    apply scan_atom_consumes.
  - (* array_items *)
    cbn [array_items].
    pose proof (IHscan s ltac:(lia)) as Hv.
    destruct (scan_once f s) as [[v r1]| |]; simpl in *; auto.
    pose proof (length_skip_ws r1) as Hws.
    destruct (skip_ws r1) as [|c r2]; [exact I|]. simpl in Hws.
    destruct (Ascii.eqb c "]"); [simpl; lia|].
    destruct (Ascii.eqb c ","); [|exact I].
    pose proof (length_skip_ws r2) as Hws2.
    pose proof (IHarr (skip_ws r2) ltac:(lia)) as Hr.
    destruct (array_items f (skip_ws r2)) as [[vs rest]| |]; simpl in *; auto; lia.
  - (* object_items *)
    cbn [object_items].
    pose proof (scanstring_no_fuel s) as Hnf.
    destruct (scanstring s) as [[k r1]| |] eqn:Hs; simpl;
      try congruence; try exact I.
    apply scanstring_consumes in Hs.
    pose proof (length_skip_ws r1) as Hws.
    destruct (skip_ws r1) as [|c r2]; [exact I|]. simpl in Hws.
    destruct (Ascii.eqb c ":"); [|exact I].
    pose proof (length_skip_ws r2) as Hws2.
    pose proof (IHscan (skip_ws r2) ltac:(lia)) as Hv.
    destruct (scan_once f (skip_ws r2)) as [[v r3]| |]; simpl in *; auto.
    pose proof (length_skip_ws r3) as Hws3.
    destruct (skip_ws r3) as [|c2 r4]; [exact I|]. simpl in Hws3.
    destruct (Ascii.eqb c2 "}"); [simpl; lia|].
    destruct (Ascii.eqb c2 ","); [|exact I].
    pose proof (length_skip_ws r4) as Hws4.
    destruct (skip_ws r4) as [|c3 r5]; [exact I|]. simpl in Hws4.
    destruct (Ascii.eqb c3 DQ); [|exact I].
    pose proof (IHobj r5 ltac:(lia)) as Hr.
    destruct (object_items f r5) as [[kvs rest]| |]; simpl in *; auto; lia.
Qed.

(** [json.loads] returns or raises. *)
Lemma loads_ends (s : string) : loads s <> OutOfFuel.
Proof.
  unfold loads.
  pose proof (length_skip_ws s) as Hws.
  destruct (decoder_ends (2 * String.length s + 2)) as (Hscan & _ & _).
  specialize (Hscan (skip_ws s) ltac:(lia)).
  destruct (scan_once (2 * String.length s + 2) (skip_ws s)) as [[v rest]| |];
    simpl in *; try congruence; try contradiction.
  destruct (skip_ws rest); congruence.
Qed.

(** *** What the decoder returns is well formed *)

Lemma existsb_dict_set (x k : string) (v : json) (d : list (string * json)) :
  existsb (String.eqb x) (map fst (dict_set k v d))
  = existsb (String.eqb x) (map fst d) || String.eqb x k.
Proof.
  induction d as [|[k' v'] d IH]; simpl.
  - now rewrite orb_false_r.
  - destruct (String.eqb_spec k k') as [->|Hne]; simpl.
    + destruct (String.eqb x k'); simpl; [reflexivity | now rewrite orb_false_r].
    + rewrite IH. now rewrite orb_assoc.
Qed.

Lemma distinct_dict_set (k : string) (v : json) (d : list (string * json)) :
  distinct (map fst d) = true -> distinct (map fst (dict_set k v d)) = true.
Proof.
  induction d as [|[k' v'] d IH]; simpl; intros H; [reflexivity|].
  apply andb_prop in H as [Hk Hd].
  destruct (String.eqb_spec k k') as [->|Hne]; simpl.
  - now rewrite Hk, Hd.
  - rewrite existsb_dict_set, (IH Hd).
    apply negb_true_iff in Hk. rewrite Hk. simpl.
    destruct (String.eqb_spec k' k); [congruence | reflexivity].
Qed.

Lemma wf_dict_set (k : string) (v : json) (d : list (string * json)) :
  json_wf v = true ->
  forallb (fun kv => json_wf (snd kv)) d = true ->
  forallb (fun kv => json_wf (snd kv)) (dict_set k v d) = true.
Proof.
  intros Hv. induction d as [|[k' v'] d IH]; simpl; intros H.
  - now rewrite Hv.
  - apply andb_prop in H as [Hv' Hd].
    destruct (String.eqb k k'); simpl; [now rewrite Hv, Hd|].
    now rewrite Hv', (IH Hd).
Qed.

Lemma wf_dict_of_pairs (pairs : list (string * json)) :
  forallb (fun kv => json_wf (snd kv)) pairs = true ->
  json_wf (JObj (dict_of_pairs pairs)) = true.
Proof.
  unfold dict_of_pairs. intros H.
  enough (Hacc : forall acc,
             json_wf (JObj acc) = true ->
             json_wf (JObj (fold_left
                              (fun d kv => dict_set (fst kv) (snd kv) d)
                              pairs acc)) = true)
    by (apply Hacc; reflexivity).
  induction pairs as [|[k v] pairs IH]; intros acc Hwf; simpl; [exact Hwf|].
  simpl in H. apply andb_prop in H as [Hv Hp].
  apply IH; [exact Hp|]. simpl in *.
  apply andb_prop in Hwf as [Hd Hf].
  now rewrite distinct_dict_set, wf_dict_set.
Qed.

Lemma scan_atom_wf (s : string) (v : json) (rest : string) :
  scan_atom s = Ok (v, rest) -> json_wf v = true.
Proof.
  unfold scan_atom. intros H.
  destruct (startswith "null" s); [now injection H as <- _|].
  destruct (startswith "true" s); [now injection H as <- _|].
  destruct (startswith "false" s); [now injection H as <- _|].
  destruct (match_int s) as [[n r]|].
  - destruct (is_float_tail r); [discriminate|]. now injection H as <- _.
  - now destruct (startswith "NaN" s || startswith "Infinity" s
                  || startswith "-Infinity" s).
Qed.

Lemma decoder_wf (fuel : nat) :
  (forall s v rest, scan_once fuel s = Ok (v, rest) -> json_wf v = true)
  /\ (forall s vs rest, array_items fuel s = Ok (vs, rest) ->
                        forallb json_wf vs = true)
  /\ (forall s kvs rest, object_items fuel s = Ok (kvs, rest) ->
                         forallb (fun kv => json_wf (snd kv)) kvs = true).
Proof.
  induction fuel as [|f (IHscan & IHarr & IHobj)].
  { repeat split; intros; discriminate. }
  repeat split.
  - intros s v rest H. destruct s as [|c r]; [discriminate|].
    cbn [scan_once] in H.
    destruct (Ascii.eqb c DQ).
    { destruct (scanstring r) as [[str r']| |]; [|discriminate..].
      now injection H as <- _. }
    destruct (Ascii.eqb c "{").
    { destruct (skip_ws r) as [|c2 r2]; [discriminate|].
      destruct (Ascii.eqb c2 "}"); [now injection H as <- _|].
      destruct (Ascii.eqb c2 DQ); [|discriminate].
      destruct (object_items f r2) as [[pairs r']| |] eqn:Ho; [|discriminate..].
      injection H as <- _. apply wf_dict_of_pairs. eapply IHobj, Ho. }
    destruct (Ascii.eqb c "[").
    { destruct (skip_ws r) as [|c2 r2]; [discriminate|].
      destruct (Ascii.eqb c2 "]"); [now injection H as <- _|].
      destruct (array_items f (String c2 r2)) as [[vs r']| |] eqn:Ha;
        [|discriminate..].
      injection H as <- _. simpl. eapply IHarr, Ha. }
    eapply scan_atom_wf, H.
  - intros s vs rest H. cbn [array_items] in H.
    destruct (scan_once f s) as [[v r1]| |] eqn:Hv; [|discriminate..].
    simpl in H. apply IHscan in Hv.
    destruct (skip_ws r1) as [|c r2]; [discriminate|].
    destruct (Ascii.eqb c "]").
    { injection H as <- _. simpl. now rewrite Hv. }
    destruct (Ascii.eqb c ","); [|discriminate].
    destruct (array_items f (skip_ws r2)) as [[vs' r']| |] eqn:Ha;
      [|discriminate..].
    injection H as <- _. simpl. rewrite Hv. eapply IHarr, Ha.
  - intros s kvs rest H. cbn [object_items] in H.
    destruct (scanstring s) as [[k r1]| |]; [|discriminate..]. simpl in H.
    destruct (skip_ws r1) as [|c r2]; [discriminate|].
    destruct (Ascii.eqb c ":"); [|discriminate].
    destruct (scan_once f (skip_ws r2)) as [[v r3]| |] eqn:Hv; [|discriminate..].
    simpl in H. apply IHscan in Hv.
    destruct (skip_ws r3) as [|c2 r4]; [discriminate|].
    destruct (Ascii.eqb c2 "}").
    { injection H as <- _. simpl. now rewrite Hv. }
    destruct (Ascii.eqb c2 ","); [|discriminate].
    destruct (skip_ws r4) as [|c3 r5]; [discriminate|].
    destruct (Ascii.eqb c3 DQ); [|discriminate].
    destruct (object_items f r5) as [[kvs' r']| |] eqn:Ho; [|discriminate..].
    injection H as <- _. simpl. rewrite Hv. eapply IHobj, Ho.
Qed.

Lemma loads_wf (s : string) (v : json) : loads s = Ok v -> json_wf v = true.
Proof.
  unfold loads. intros H.
  destruct (scan_once (2 * String.length s + 2) (skip_ws s))
    as [[v' rest]| |] eqn:Hs; [|discriminate..].
  simpl in H. destruct (skip_ws rest); [|discriminate].
  injection H as <-.
  destruct (decoder_wf (2 * String.length s + 2)) as (Hscan & _ & _).
  eapply Hscan, Hs.
Qed.

(** ** [str.replace] *)

Lemma length_str_drop_le (n : nat) (s : string) :
  (String.length (str_drop n s) <= String.length s)%nat.
Proof.
  revert s; induction n as [|n IH]; intros s; simpl; [lia|].
  destruct s as [|c s]; simpl; [lia|]. specialize (IH s). lia.
Qed.

Lemma replace_aux_fuel (old new : string) :
  old <> EmptyString ->
  forall f1 f2 s,
    (String.length s <= f1)%nat -> (String.length s <= f2)%nat ->
    replace_aux f1 old new s = replace_aux f2 old new s.
Proof.
  intros Hold. induction f1 as [|f1 IH]; intros f2 s H1 H2.
  - destruct s; [|simpl in H1; lia]. now destruct f2.
  - destruct f2 as [|f2].
    + destruct s; [reflexivity | simpl in H2; lia].
    + simpl. destruct s as [|c s]; [reflexivity|].
      destruct (startswith old (String c s)).
      * f_equal. destruct old as [|a old]; [congruence|].
        simpl in *. pose proof (length_str_drop_le (String.length old) s).
        apply IH; lia.
      * f_equal. simpl in *. apply IH; lia.
Qed.

Lemma str_replace_nil (old new : string) :
  str_replace old new EmptyString = EmptyString.
Proof. reflexivity. Qed.

Lemma str_replace_skip (old new : string) (c : ascii) (s : string) :
  old <> EmptyString ->
  startswith old (String c s) = false ->
  str_replace old new (String c s) = String c (str_replace old new s).
Proof.
  intros Hold H. unfold str_replace. simpl. rewrite H.
  reflexivity.
Qed.

Lemma str_replace_hit (old new : string) (c : ascii) (s : string) :
  old <> EmptyString ->
  startswith old (String c s) = true ->
  str_replace old new (String c s)
  = new +:+ str_replace old new (str_drop (String.length old) (String c s)).
Proof.
  intros Hold H. unfold str_replace at 1.
  cbn [String.length replace_aux]. rewrite H. f_equal.
  apply replace_aux_fuel; [exact Hold| |lia].
  destruct old as [|a old]; [congruence|]. simpl.
  apply length_str_drop_le.
Qed.

Lemma replace_newlines_line (t rest : string) :
  no_char NL t = true ->
  str_replace (String NL EmptyString) "," (t +:+ String NL rest)
  = t +:+ String "," (str_replace (String NL EmptyString) "," rest).
Proof.
  intros Ht. induction t as [|c t IH]; cbn [String.append].
  - rewrite str_replace_hit by (discriminate || reflexivity). reflexivity.
  - simpl in Ht. apply andb_prop in Ht as [Hc Ht].
    apply negb_true_iff in Hc.
    rewrite str_replace_skip; [now rewrite IH | discriminate |].
    cbn [startswith]. rewrite Ascii.eqb_sym, Hc. reflexivity.
Qed.

Lemma replace_newlines_unlines (ts : list string) :
  Forall (fun t => no_char NL t = true) ts ->
  str_replace (String NL EmptyString) "," (unlines ts) = commas ts.
Proof.
  induction 1 as [|t ts Ht _ IH]; [reflexivity|]. cbn [unlines commas].
  now rewrite replace_newlines_line, IH.
Qed.

Lemma replace_brackets_text (t rest : string) :
  no_comma_bracket t = true ->
  str_replace ",]" "]" (t +:+ String "," rest)
  = t +:+ str_replace ",]" "]" (String "," rest).
Proof.
  intros Ht. induction t as [|c t IH]; cbn [String.append]; [reflexivity|].
  rewrite str_replace_skip.
  - rewrite IH; [reflexivity|].
    cbn [no_comma_bracket] in Ht. destruct t; [reflexivity|].
    now apply andb_prop in Ht as [_ Ht].
  - discriminate.
  - destruct t as [|d t]; cbn [startswith String.append].
    + destruct (Ascii.eqb "," c); reflexivity.
    + cbn [no_comma_bracket] in Ht. apply andb_prop in Ht as [Hcd _].
      apply negb_true_iff in Hcd.
      rewrite (Ascii.eqb_sym "," c), (Ascii.eqb_sym "]" d).
      destruct (Ascii.eqb c ","); cbn [andb] in *; [now rewrite Hcd | reflexivity].
Qed.

(** The lines of a page that the framing joins with commas: none holds a
    comma before a closing bracket or starts with a closing bracket. *)
Lemma replace_brackets_commas (ts : list string) :
  ts <> [] ->
  Forall (fun t => no_comma_bracket t = true
                   /\ exists c s, t = String c s /\ Ascii.eqb c "]" = false) ts ->
  str_replace ",]" "]" (commas ts +:+ "]") = String.concat "," ts +:+ "]".
Proof.
  intros Hne Hall. induction Hall as [|t ts [Ht Hhead] Hts IH]; [congruence|].
  cbn [commas]. rewrite append_assoc. cbn [String.append].
  rewrite replace_brackets_text by exact Ht.
  destruct ts as [|u ts].
  - cbn [commas String.append String.concat].
    rewrite str_replace_hit by (discriminate || reflexivity). reflexivity.
  - inversion Hts as [|? ? [_ (c & s & -> & Hc)] _]; subst.
    rewrite concat_cons2, append_assoc. cbn [String.append].
    rewrite <- IH by discriminate.
    cbn [commas]. rewrite !append_assoc. cbn [String.append].
    rewrite str_replace_skip; [reflexivity | discriminate |].
    cbn [startswith]. rewrite Ascii.eqb_refl, (Ascii.eqb_sym "]" c), Hc.
    reflexivity.
Qed.

(** The framing of a page of well-behaved lines is the JSON array of the
    lines. *)
Lemma frame_page_unlines (ts : list string) :
  ts <> [] ->
  Forall (fun t => no_char NL t = true) ts ->
  Forall (fun t => no_comma_bracket t = true
                   /\ exists c s, t = String c s /\ Ascii.eqb c "]" = false) ts ->
  frame_page (unlines ts) = "[" +:+ String.concat "," ts +:+ "]".
Proof.
  intros Hne Hnl Hcb. unfold frame_page.
  rewrite replace_newlines_unlines by exact Hnl.
  cbn [String.append].
  rewrite str_replace_skip by (discriminate || reflexivity).
  now rewrite replace_brackets_commas.
Qed.

(** ** The text of [json.dumps] *)

Lemma no_char_esc_char (c : ascii) : no_char NL (esc_char c) = true.
Proof. destruct c as [[] [] [] [] [] [] [] []]; reflexivity. Qed.

Lemma no_char_esc_string (s : string) : no_char NL (esc_string s) = true.
Proof.
  induction s as [|c s IH]; [reflexivity|]. cbn [esc_string].
  now rewrite no_char_append, no_char_esc_char, IH.
Qed.

Lemma no_char_digits (x : ascii) (s : string) :
  is_digit x = false -> all_digits s = true -> no_char x s = true.
Proof.
  intros Hx. induction s as [|c s IH]; simpl; intros H; [reflexivity|].
  apply andb_prop in H as [Hc Hs]. rewrite (IH Hs), andb_true_r.
  destruct (Ascii.eqb_spec c x) as [->|]; [congruence | reflexivity].
Qed.

Lemma no_char_str_of_int (x : ascii) (n : Z) :
  is_digit x = false -> Ascii.eqb "-" x = false ->
  no_char x (str_of_int n) = true.
Proof.
  intros Hx Hm. destruct n as [|p|p].
  - apply no_char_digits; [exact Hx | reflexivity].
  - apply no_char_digits; [exact Hx | now apply all_digits_str_of_int].
  - unfold str_of_int. cbn [Z.to_int NilZero.string_of_int].
    rewrite string_of_uint_nonnil by apply Unsigned.to_uint_nonnil.
    cbn [no_char]. rewrite Hm. cbn [negb andb].
    apply no_char_digits; [exact Hx|]. apply all_digits_of_uint.
Qed.

Lemma no_char_concat (x : ascii) (sep : string) (ts : list string) :
  no_char x sep = true -> Forall (fun t => no_char x t = true) ts ->
  no_char x (String.concat sep ts) = true.
Proof.
  intros Hsep Hall. induction Hall as [|t ts Ht _ IH]; [reflexivity|].
  destruct ts as [|u ts]; [exact Ht|].
  rewrite concat_cons2, !no_char_append, Ht, Hsep, IH. reflexivity.
Qed.

Lemma no_char_dumps_str (s : string) : no_char NL (dumps_str s) = true.
Proof.
  unfold dumps_str. now rewrite !no_char_append, no_char_esc_string.
Qed.

(** [json.dumps] writes no newline. *)
Lemma dumps_no_newline (v : json) : no_char NL (dumps v) = true.
Proof.
  induction v as [ | b | n | s | l IHl | kvs IHkvs ] using json_ind'.
  - reflexivity.
  - destruct b; reflexivity.
  - apply no_char_str_of_int; reflexivity.
  - apply no_char_dumps_str.
  - rewrite dumps_arr, !no_char_append.
    rewrite no_char_concat; [reflexivity | reflexivity |].
    apply Forall_map. exact IHl.
  - rewrite dumps_obj, !no_char_append.
    rewrite no_char_concat; [reflexivity | reflexivity |].
    apply Forall_map. eapply Forall_impl; [exact IHkvs|].
    intros [k x] Hx. unfold pair_text.
    now rewrite !no_char_append, no_char_dumps_str, Hx.
Qed.

Lemma no_comma_bracket_append (a b : string) :
  no_comma_bracket a = true -> no_comma_bracket b = true ->
  startswith "]" b = false ->
  no_comma_bracket (a +:+ b) = true.
Proof.
  intros Ha Hb Hhead. induction a as [|c a IH]; [exact Hb|].
  cbn [String.append no_comma_bracket].
  destruct a as [|d a]; cbn [String.append].
  - destruct b as [|e b]; [reflexivity|].
    cbn [startswith] in Hhead. rewrite Hb, andb_true_r.
    rewrite (Ascii.eqb_sym e "]").
    destruct (Ascii.eqb "]" e); [discriminate|]. now rewrite andb_false_r.
  - cbn [no_comma_bracket] in Ha. apply andb_prop in Ha as [Hcd Ha].
    rewrite Hcd. now apply IH.
Qed.

Lemma no_comma_no_comma_bracket (s : string) :
  no_char "," s = true -> no_comma_bracket s = true.
Proof.
  induction s as [|c s IH]; [reflexivity|]. cbn [no_char]. intros H.
  apply andb_prop in H as [Hc Hs]. apply negb_true_iff in Hc.
  cbn [no_comma_bracket]. destruct s as [|d s]; [reflexivity|].
  rewrite Hc. now rewrite IH.
Qed.

Lemma stats_record_text (n : nat) :
  dumps (stats_record n)
  = ("{" +:+ dumps_str "type" +:+ ": " +:+ dumps_str "stats" +:+ ", "
       +:+ dumps_str "rowCount" +:+ ": ")
    +:+ str_of_int (Z.of_nat n)
    +:+ (", " +:+ dumps_str "runTimeMilliseconds" +:+ ": 0}").
Proof.
  unfold stats_record. rewrite dumps_obj.
  cbn [map String.concat pair_text fst snd dumps].
  rewrite !append_assoc. reflexivity.
Qed.

Lemma stats_record_no_comma_bracket (n : nat) :
  no_comma_bracket (dumps (stats_record n)) = true.
Proof.
  rewrite stats_record_text.
  apply no_comma_bracket_append; [reflexivity | |].
  - apply no_comma_bracket_append; [|reflexivity..].
    apply no_comma_no_comma_bracket, no_char_str_of_int; reflexivity.
  - destruct (str_of_int_head (Z.of_nat n)) as (c & s & -> & Hc).
    cbn [String.append startswith].
    destruct Hc as [Hc | ->]; [|reflexivity].
    destruct (Ascii.eqb_spec "]" c) as [<-|]; [discriminate | reflexivity].
Qed.

Lemma loads_array_lines (l : list json) :
  forallb json_wf l = true ->
  loads ("[" +:+ String.concat "," (map dumps l) +:+ "]") = Ok (JArr l).
Proof.
  intros Hwf. unfold loads. cbn [String.append skip_ws].
  change (is_ws "[") with false. cbv iota.
  assert (Hall : Forall roundtrips l).
  { apply forallb_Forall_roundtrips; [|exact Hwf].
    apply Forall_forall. intros v _. apply dumps_roundtrips. }
  rewrite (scan_once_array_text EmptyString l EmptyString);
    [reflexivity | reflexivity | exact Hall |].
  pose proof (sum_le_concat dumps json_size "," l ltac:(simpl; lia)
                ltac:(apply Forall_forall; intros; apply json_size_le_length)).
  cbn [String.length]. rewrite length_append. simpl. lia.
Qed.

Lemma forallb_to_Forall {A} (f : A -> bool) (l : list A) :
  forallb f l = true -> Forall (fun x => f x = true) l.
Proof.
  induction l as [|x l IH]; simpl; intros H; constructor;
    apply andb_prop in H as [Hx Hl]; auto.
Qed.

Lemma Forall_to_forallb {A} (f : A -> bool) (l : list A) :
  Forall (fun x => f x = true) l -> forallb f l = true.
Proof. induction 1 as [|x l Hx _ IH]; simpl; [reflexivity | now rewrite Hx]. Qed.

(** A page of the simulated source, once framed, parses to its rows and
    its control record. *)
Lemma loads_frame_page_text (rows : list json) :
  forallb row_ok rows = true ->
  loads (frame_page (page_text rows))
  = Ok (JArr (rows ++ [stats_record (length rows)])).
Proof.
  intros Hrows. unfold page_text.
  assert (Hok : Forall (fun r => row_ok r = true) rows)
    by now apply forallb_to_Forall.
  rewrite frame_page_unlines.
  - apply loads_array_lines. rewrite forallb_app. simpl.
    rewrite andb_true_r. apply Forall_to_forallb.
    eapply Forall_impl; [exact Hok|]. intros r Hr.
    unfold row_ok in Hr. apply andb_prop in Hr as [Hr _].
    now apply andb_prop in Hr as [_ Hr].
  - destruct rows; discriminate.
  - apply Forall_map, Forall_forall. intros v _. apply dumps_no_newline.
  - apply Forall_map, Forall_app. split.
    + eapply Forall_impl; [exact Hok|]. intros r Hr. split.
      * unfold row_ok in Hr. now apply andb_prop in Hr as [_ Hr].
      * destruct (dumps_head r) as (c & s & Hs & _ & Hc). eauto.
    + constructor; [|constructor]. split.
      * apply stats_record_no_comma_bracket.
      * destruct (dumps_head (stats_record (length rows))) as (c & s & Hs & _ & Hc).
        eauto.
Qed.

(** ** The monad *)

Lemma bind_Ok {A B} (m : M A) (k : A -> M B) (st st' : state) (a : A) :
  m st = (Ok a, st') -> bind m k st = k a st'.
Proof. intros H. unfold bind. now rewrite H. Qed.

Lemma bind_Raise {A B} (m : M A) (k : A -> M B) (st st' : state) (e : error) :
  m st = (Raise e, st') -> bind m k st = (Raise e, st').
Proof. intros H. unfold bind. now rewrite H. Qed.

Lemma bind_inv_Ok {A B} (m : M A) (k : A -> M B) (st st2 : state) (b : B) :
  bind m k st = (Ok b, st2) ->
  exists a st1, m st = (Ok a, st1) /\ k a st1 = (Ok b, st2).
Proof.
  unfold bind. destruct (m st) as [[a|e|] st1]; intros H; try discriminate.
  eauto.
Qed.

Ltac unfold_M :=
  unfold bind, ret, raise, lift, get_self, modify_self, logging, path_exists,
    read_file, write_file, try_except, try_except_ValueError, set_self in *.

(** ** The version detector *)

Lemma match_version_banner (d1 d2 rest : string) :
  d1 <> EmptyString -> d2 <> EmptyString ->
  all_digits d1 = true -> all_digits d2 = true ->
  starts_with_digit rest = false ->
  match_version ("gerrit version " +:+ d1 +:+ "." +:+ d2 +:+ rest)
  = Some (d1, d2).
Proof.
  intros Hn1 Hn2 Hd1 Hd2 Hrest. unfold match_version.
  rewrite startswith_append.
  change 15%nat with (String.length "gerrit version ").
  rewrite str_drop_append.
  rewrite span_digits_app by (assumption || reflexivity).
  destruct d1 as [|c1 d1]; [congruence|]. simpl.
  rewrite span_digits_app by assumption.
  destruct d2 as [|c2 d2]; [congruence|]. reflexivity.
Qed.

Lemma match_version_is_banner (raw g1 g2 : string) :
  match_version raw = Some (g1, g2) -> is_banner raw.
Proof.
  unfold match_version. intros H.
  destruct (startswith "gerrit version " raw) eqn:Hpre; [|discriminate].
  apply startswith_split in Hpre.
  change (String.length "gerrit version ") with 15%nat in Hpre.
  destruct (span_digits (str_drop 15 raw)) as [d1 r1] eqn:Hs1.
  apply span_digits_split in Hs1 as [Hr1 Hd1].
  destruct d1 as [|c1 d1]; [discriminate|].
  destruct r1 as [|c r2]; [discriminate|].
  destruct (Ascii.eqb c ".") eqn:Hc; [|discriminate].
  apply Ascii.eqb_eq in Hc; subst c.
  destruct (span_digits r2) as [d2 r3] eqn:Hs2.
  apply span_digits_split in Hs2 as [Hr2 Hd2].
  destruct d2 as [|c2 d2]; [discriminate|].
  exists (String c1 d1), (String c2 d2), r3.
  repeat split; try discriminate; try assumption.
  rewrite Hpre, Hr1, Hr2. reflexivity.
Qed.

(** C7.  Whatever the banner, [_get_version] only sends the "version"
    command.  On a banner [gerrit version <major>.<minor>...] whose two
    runs of digits [int()] converts (no run has more than 4300 digits)
    it returns the two numbers: the values of the runs, which are X and
    Y when the runs are the decimal numerals of X and Y.  When [int()]
    refuses a run, and on any string that is not such a banner, it
    raises the exception "Invalid gerrit version" (the ProtocolError of
    the specification). *)
Theorem get_version_spec
  (remote : list string -> string -> option string) (st : state)
  (banner : string) :
  remote (trace st) (gerrit_cmd (self st) +:+ " version ") = Some banner ->
  snd (_get_version remote st)
  = {| self := self st; files := files st; log := log st;
       trace := trace st ++ [gerrit_cmd (self st) +:+ " version "] |}
  /\ (forall d1 d2 rest,
        banner = "gerrit version " +:+ d1 +:+ "." +:+ d2 +:+ rest ->
        d1 <> EmptyString -> d2 <> EmptyString ->
        all_digits d1 = true -> all_digits d2 = true ->
        starts_with_digit rest = false ->
        fst (_get_version remote st)
        = if (Z.of_nat (String.length d1) <=? int_max_str_digits)
             && (Z.of_nat (String.length d2) <=? int_max_str_digits)
          then Ok (digits_value d1, digits_value d2)
          else Raise (Exception_ ("Invalid gerrit version " +:+ banner +:+ " ")))
  /\ (forall X Y rest,
        0 <= X -> 0 <= Y -> starts_with_digit rest = false ->
        Z.of_nat (String.length (str_of_int X)) <= int_max_str_digits ->
        Z.of_nat (String.length (str_of_int Y)) <= int_max_str_digits ->
        banner = "gerrit version " +:+ str_of_int X +:+ "."
                 +:+ str_of_int Y +:+ rest ->
        fst (_get_version remote st) = Ok (X, Y))
  /\ (~ is_banner banner ->
        fst (_get_version remote st)
        = Raise (Exception_ ("Invalid gerrit version " +:+ banner))).
Proof.
  intros Hremote.
  assert (Hrun : _get_version remote st
                 = (parse_version banner,
                    {| self := self st; files := files st; log := log st;
                       trace := trace st ++ [gerrit_cmd (self st) +:+ " version "] |})).
  { unfold _get_version, check_output. unfold_M. simpl. rewrite Hremote.
    simpl. now destruct (parse_version banner). }
  rewrite Hrun. simpl.
  assert (Hdigits : forall d1 d2 rest,
            banner = "gerrit version " +:+ d1 +:+ "." +:+ d2 +:+ rest ->
            d1 <> EmptyString -> d2 <> EmptyString ->
            all_digits d1 = true -> all_digits d2 = true ->
            starts_with_digit rest = false ->
            parse_version banner
            = if (Z.of_nat (String.length d1) <=? int_max_str_digits)
                 && (Z.of_nat (String.length d2) <=? int_max_str_digits)
              then Ok (digits_value d1, digits_value d2)
              else Raise (Exception_
                            ("Invalid gerrit version " +:+ banner +:+ " "))).
  { intros d1 d2 rest Hb Hn1 Hn2 Hd1 Hd2 Hrest. unfold parse_version.
    rewrite Hb at 1. rewrite match_version_banner by assumption.
    rewrite !py_int_digits by assumption.
    destruct (Z.of_nat (String.length d1) <=? int_max_str_digits);
      destruct (Z.of_nat (String.length d2) <=? int_max_str_digits);
      reflexivity. }
  split; [reflexivity|]. split; [exact Hdigits|]. split.
  - intros X Y rest HX HY Hrest HlX HlY Hb.
    rewrite (Hdigits _ _ _ Hb); auto using str_of_int_nonempty, all_digits_str_of_int.
    apply Z.leb_le in HlX, HlY. rewrite HlX, HlY.
    now rewrite !digits_value_str_of_int.
  - intros Hnot. unfold parse_version.
    destruct (match_version banner) as [[g1 g2]|] eqn:Hm; [|reflexivity].
    exfalso. apply Hnot. eapply match_version_is_banner, Hm.
Qed.

Lemma get_version_spec_witness :
  let st := {| self := new_Gerrit "u" "h" 10 false false;
               files := ∅; log := []; trace := [] |} in
  fst (_get_version (const_remote (Some "gerrit version 2.10-rc1-988-g333a9dd")) st)
  = Ok (2, 10)
  /\ fst (_get_version
            (const_remote (Some ("gerrit version " +:+ ones 4301 +:+ ".0"))) st)
     = Raise (Exception_ ("Invalid gerrit version "
                          +:+ ("gerrit version " +:+ ones 4301 +:+ ".0") +:+ " ")).
Proof.
  intros st. split.
  - destruct (get_version_spec
                (const_remote (Some "gerrit version 2.10-rc1-988-g333a9dd")) st
                "gerrit version 2.10-rc1-988-g333a9dd" eq_refl)
      as (_ & _ & H & _).
    apply (H 2 10 "-rc1-988-g333a9dd");
      [lia | lia | reflexivity | apply Z.leb_le; reflexivity
      | apply Z.leb_le; reflexivity | reflexivity].
  - destruct (get_version_spec
                (const_remote (Some ("gerrit version " +:+ ones 4301 +:+ ".0"))) st
                ("gerrit version " +:+ ones 4301 +:+ ".0") eq_refl)
      as (_ & H & _).
    rewrite (H (ones 4301) "0" EmptyString);
      [reflexivity | reflexivity | discriminate | discriminate
      | vm_compute; reflexivity | reflexivity | reflexivity].
Defined.

(** ** The framing of a page *)

(** C8.  The framing replaces every [,]] of the page, also inside a JSON
    string: a page whose review has the subject [see [1,]] is framed into
    an array that still parses, but whose first element is not the object
    of the first line. *)
Theorem frame_page_alters_text_in_strings :
  let row := JObj [("project", JStr "p"); ("subject", JStr "see [1,]")] in
  let raw := page_text [row] in
  loads (dumps row) = Ok row
  /\ loads (dumps (stats_record 1)) = Ok (stats_record 1)
  /\ loads (frame_page raw)
     = Ok (JArr [JObj [("project", JStr "p"); ("subject", JStr "see [1]")];
                 stats_record 1])
  /\ loads (frame_page raw) <> Ok (JArr [row; stats_record 1]).
Proof.
  intros row raw.
  assert (H : loads (frame_page raw)
              = Ok (JArr [JObj [("project", JStr "p"); ("subject", JStr "see [1]")];
                          stats_record 1])) by (vm_compute; reflexivity).
  repeat split; try (vm_compute; reflexivity); try exact H.
  rewrite H. discriminate.
Qed.

(** ** The cache store *)

Lemma loads_empty : loads EmptyString = Raise EXPECTING_VALUE.
Proof. reflexivity. Qed.

(** C10.  [_clean_cache] writes the empty string to the project-list
    artifact and resets the in-memory project list to the empty list.  The
    empty string is not JSON: every later [_load_cache] (with no write in
    between) raises the [ValueError] of the decoder and leaves the state as
    it was, as it does on a corrupt artifact such as ["]"]. *)
Theorem clean_cache_then_load_fails (st : state) :
  let st1 := snd (_clean_cache st) in
  fst (_clean_cache st) = Ok tt
  /\ files st1 !! cache_projects_file = Some EmptyString
  /\ cache (self st1) !! "projects" = Some (JArr [])
  /\ (forall n : nat,
        _load_cache (Nat.iter n (fun s => snd (_load_cache s)) st1)
        = (Raise EXPECTING_VALUE, st1))
  /\ fst (_load_cache
            {| self := self st; files := <[cache_projects_file := "]"]> (files st);
               log := log st; trace := trace st |})
     = Raise EXPECTING_VALUE.
Proof.
  assert (Hload : _load_cache (snd (_clean_cache st))
                  = (Raise EXPECTING_VALUE, snd (_clean_cache st))).
  { unfold _load_cache, _clean_cache. unfold_M. simpl.
    rewrite lookup_insert_eq. reflexivity. }
  repeat split.
  - unfold _clean_cache. unfold_M. simpl. apply lookup_insert_eq.
  - unfold _clean_cache. unfold_M. simpl. apply lookup_insert_eq.
  - intros n.
    assert (Hiter : Nat.iter n (fun s => snd (_load_cache s))
                      (snd (_clean_cache st)) = snd (_clean_cache st)).
    { induction n as [|n IH]; [reflexivity|].
      rewrite Nat.iter_succ, IH, Hload. reflexivity. }
    rewrite Hiter. exact Hload.
  - unfold _load_cache. unfold_M. simpl.
    rewrite lookup_insert_eq. reflexivity.
Qed.

(** *** The methods of a run never turn cache-reuse back on *)

Section KeepsUseCache.

Variable remote : list string -> string -> option string.

Lemma keeps_bind {A B} (m : M A) (k : A -> M B) :
  keeps_use_cache m -> (forall a, keeps_use_cache (k a)) ->
  keeps_use_cache (bind m k).
Proof.
  intros Hm Hk st. unfold bind.
  specialize (Hm st). destruct (m st) as [[a|e|] st1]; simpl in *; try exact Hm.
  now rewrite Hk.
Qed.

Lemma keeps_pure {A} (o : outcome A) : keeps_use_cache (fun st => (o, st)).
Proof. intros st. reflexivity. Qed.

Lemma keeps_ret {A} (a : A) : keeps_use_cache (ret a).
Proof. apply keeps_pure. Qed.

Lemma keeps_raise {A} (e : error) : keeps_use_cache (@raise A e).
Proof. apply keeps_pure. Qed.

Lemma keeps_lift {A} (o : outcome A) : keeps_use_cache (lift o).
Proof. apply keeps_pure. Qed.

Lemma keeps_get_self : keeps_use_cache get_self.
Proof. intros st. reflexivity. Qed.

Lemma keeps_logging (l : level) (m : message) : keeps_use_cache (logging l m).
Proof. intros st. reflexivity. Qed.

Lemma keeps_path_exists (f : string) : keeps_use_cache (path_exists f).
Proof. intros st. reflexivity. Qed.

Lemma keeps_read_file (f : string) : keeps_use_cache (read_file f).
Proof. intros st. unfold read_file. now destruct (files st !! f). Qed.

Lemma keeps_write_file (f t : string) : keeps_use_cache (write_file f t).
Proof. intros st. reflexivity. Qed.

Lemma keeps_check_output (cmd : string) : keeps_use_cache (check_output remote cmd).
Proof. intros st. unfold check_output. now destruct (remote (trace st) cmd). Qed.

Lemma keeps_set_reviews (f : Gerrit -> list json) :
  keeps_use_cache (modify_self (fun g => set_reviews (f g) g)).
Proof. intros st. reflexivity. Qed.

Create HintDb keeps.

#[local] Hint Resolve keeps_ret keeps_raise keeps_lift keeps_get_self keeps_logging
  keeps_path_exists keeps_read_file keeps_write_file keeps_check_output
  keeps_set_reviews : keeps.

Ltac keeps :=
  repeat first
    [ apply keeps_bind; [|intros ?]
    | solve [auto with keeps]
    | match goal with
      | |- keeps_use_cache (if ?b then _ else _) => destruct b
      | |- keeps_use_cache (match ?x with _ => _ end) => destruct x
      end ].

Lemma keeps_get_version : keeps_use_cache (_get_version remote).
Proof. unfold _get_version. keeps. Qed.

Lemma keeps_get_projects : keeps_use_cache (_get_projects remote).
Proof. unfold _get_projects, _projects_to_cache. keeps. Qed.

Lemma keeps_load_cache_project (p : string) :
  keeps_use_cache (_load_cache_project p).
Proof. unfold _load_cache_project. keeps. Qed.

Lemma keeps_fetch_page (p cmd : string) (ls : loop_state) :
  keeps_use_cache (fetch_page remote p cmd ls).
Proof. unfold fetch_page, _project_reviews_to_cache. keeps. Qed.

Lemma keeps_while_pages (fuel : nat) (nrev : Z) (p cmd : string) (ls : loop_state) :
  keeps_use_cache (while_pages remote fuel nrev p cmd ls).
Proof.
  revert ls. induction fuel as [|fuel IH]; intros ls; simpl.
  - destruct (loop_cond nrev (number_results ls)); [apply keeps_pure | apply keeps_ret].
  - destruct (loop_cond nrev (number_results ls)); [|apply keeps_ret].
    apply keeps_bind; [apply keeps_fetch_page | intros ls'; apply IH].
Qed.

Lemma keeps_fetch_remote (fuel : nat) (project : json) :
  keeps_use_cache (fetch_remote remote fuel project).
Proof.
  unfold fetch_remote.
  apply keeps_bind; [apply keeps_get_version | intros v].
  apply keeps_bind; [apply keeps_get_self | intros g].
  destruct project; try apply keeps_raise.
  apply keeps_bind; [apply keeps_while_pages | intros rs].
  keeps.
Qed.

Lemma keeps_get_project_reviews (fuel : nat) (project : json) :
  keeps_use_cache (_get_project_reviews remote fuel project).
Proof.
  unfold _get_project_reviews.
  apply keeps_bind; [apply keeps_get_self | intros g].
  apply keeps_bind.
  - destruct (use_cache g); [|apply keeps_ret].
    destruct project; try apply keeps_raise. apply keeps_load_cache_project.
  - intros [v|]; [destruct (truthy v)|]; try apply keeps_ret;
      apply keeps_fetch_remote.
Qed.

Lemma keeps_for_projects (fuel total : nat) (ps : list json) :
  forall current, keeps_use_cache (for_projects remote fuel total current ps).
Proof.
  induction ps as [|p ps IH]; intros current; simpl; [apply keeps_ret|].
  apply keeps_bind; [apply keeps_get_project_reviews | intros fetched].
  apply keeps_bind; [apply keeps_lift | intros items].
  apply keeps_bind; [apply keeps_set_reviews | intros _].
  apply keeps_bind; [apply keeps_logging | intros _].
  apply keeps_bind; [apply keeps_get_self | intros g].
  destruct (max_reviews g <=? Z.of_nat (length (reviews g))).
  - apply keeps_logging.
  - apply keeps_bind; [apply keeps_logging | intros _].
    apply keeps_bind; [apply keeps_logging | intros _].
    apply IH.
Qed.

Lemma keeps_get_reviews (fuel : nat) : keeps_use_cache (get_reviews remote fuel).
Proof.
  unfold get_reviews.
  apply keeps_bind; [apply keeps_get_projects | intros ps].
  apply keeps_bind; [apply keeps_lift | intros plist].
  apply keeps_bind; [apply keeps_for_projects | intros _].
  keeps.
Qed.

End KeepsUseCache.

(** *** The constructor when loading the cache fails *)

(** On a storage directory without obstacles, and on artifacts that the
    codec of this development reads, the constructor of [Obstructed] is
    the constructor of the regular storage directory. *)
Lemma obstructed_regular (user repository : string) (nrev : Z)
  (use_cache_arg history : bool) (fs : gmap string string) :
  (forall text, fs !! cache_projects_file = Some text ->
     loads text <> Raise Unsupported) ->
  Obstructed.Gerrit_new (fun _ => None) user repository nrev use_cache_arg
    history fs
  = Gerrit_new user repository nrev use_cache_arg history fs.
Proof.
  intros Hscope.
  unfold Obstructed.Gerrit_new, Gerrit_new, Obstructed.__init__, __init__.
  destruct use_cache_arg; [|reflexivity].
  unfold Obstructed._load_cache, _load_cache, Obstructed._clean_cache,
    _clean_cache, Obstructed.try_except, Obstructed.read_file,
    Obstructed.write_file.
  unfold_M. simpl.
  destruct (fs !! cache_projects_file) as [text|] eqn:Hfile; simpl;
    [|reflexivity].
  specialize (Hscope text eq_refl).
  destruct (loads text) as [v|[]|]; simpl; try reflexivity. congruence.
Qed.

(** C5, as stated, fails when the project-list artifact is a directory:
    loading the cache fails, the handler logs the failure and turns
    cache-reuse off, and then [_clean_cache] fails in its turn on the
    same name: its [IsADirectoryError] leaves the constructor. *)
Lemma init_raises_when_cache_cannot_be_cleared :
  Obstructed.cache_load_error artifact_is_directory ∅
    (IsADirectoryError cache_projects_file)
  /\ Obstructed.Gerrit_new artifact_is_directory "u" "h" 10 true false ∅
     = (Raise (IsADirectoryError cache_projects_file),
        {| self := set_use_cache false (new_Gerrit "u" "h" 10 true false);
           files := ∅;
           log := [(INFO, MsgGettingFromCache);
                   (STDOUT, MsgTraceback (IsADirectoryError cache_projects_file));
                   (DEBUG, MsgCacheCorrupted)];
           trace := [] |}).
Proof. split; reflexivity. Qed.

(** C5.  With cache-reuse requested, when loading the cache fails with
    an exception [e], whatever it is, the failure is in the log (the
    traceback and "Cache corrupted") and cache-reuse is turned off; then
    the cache is cleared.  If the project-list artifact can be opened
    for writing, the constructor returns normally: the artifact and the
    in-memory project list are the ones [_clean_cache] leaves, and the
    run that follows ([get_reviews]) never turns cache-reuse back on.
    If it cannot, because a directory or a file of somebody else stands
    at its name, the error of [open] leaves the constructor, with
    cache-reuse off and the files as they were.  Where no obstacle
    stands at the name of the artifact the constructor returns normally
    whether the load fails or not. *)
Theorem init_cache_failure_is_swallowed
  (obstacles : string -> option obstacle)
  (user repository : string) (nrev : Z) (history : bool)
  (fs : gmap string string) :
  (obstacles cache_projects_file = None ->
   (forall text, fs !! cache_projects_file = Some text ->
      loads text <> Raise Unsupported) ->
   fst (Obstructed.Gerrit_new obstacles user repository nrev true history fs)
   = Ok tt)
  /\ forall e : error,
       Obstructed.cache_load_error obstacles fs e ->
       let handled :=
         {| self := set_use_cache false
                      (set_use_history false
                         (new_Gerrit user repository nrev true history));
            files := fs;
            log := [(INFO, MsgGettingFromCache); (STDOUT, MsgTraceback e);
                    (DEBUG, MsgCacheCorrupted)];
            trace := [] |} in
       (obstacles cache_projects_file = None ->
        let st := snd (Obstructed._clean_cache obstacles handled) in
        Obstructed.Gerrit_new obstacles user repository nrev true history fs
        = (Ok tt, st)
        /\ use_cache (self st) = false
        /\ files st = <[cache_projects_file := EmptyString]> fs
        /\ cache (self st) !! "projects" = Some (JArr [])
        /\ log st = log handled
        /\ forall remote fuel,
             use_cache (self (snd (get_reviews remote fuel st))) = false)
       /\ (forall o, obstacles cache_projects_file = Some o ->
             e = open_error o cache_projects_file
             /\ Obstructed.Gerrit_new obstacles user repository nrev true
                  history fs
                = (Raise (open_error o cache_projects_file), handled)).
Proof.
  split.
  - intros Hnone Hscope.
    unfold Obstructed.Gerrit_new, Obstructed.__init__, Obstructed._load_cache,
      Obstructed._clean_cache, Obstructed.try_except, Obstructed.read_file,
      Obstructed.write_file.
    unfold_M. simpl. rewrite Hnone.
    destruct (fs !! cache_projects_file) as [text|] eqn:Hfile; simpl;
      [|reflexivity].
    specialize (Hscope text eq_refl).
    pose proof (loads_ends text) as Hends.
    destruct (loads text) as [v|[]|]; simpl; rewrite ?Hnone; simpl; congruence.
  - intros e Herr handled. unfold Obstructed.cache_load_error in Herr. split.
    + intros Hnone st. rewrite Hnone in Herr.
      assert (Hst : st = snd (_clean_cache handled)).
      { unfold st, Obstructed._clean_cache, Obstructed.write_file, _clean_cache.
        unfold_M. now rewrite Hnone. }
      assert (Hnew : Obstructed.Gerrit_new obstacles user repository nrev true
                       history fs = (Ok tt, st)).
      { rewrite Hst.
        unfold Obstructed.Gerrit_new, Obstructed.__init__,
          Obstructed._load_cache, Obstructed._clean_cache,
          Obstructed.try_except, Obstructed.read_file, Obstructed.write_file,
          _clean_cache.
        unfold_M. simpl. rewrite Hnone.
        destruct (fs !! cache_projects_file) as [text|] eqn:Hfile; simpl.
        - destruct Herr as [Hloads Hreal]. rewrite Hloads.
          destruct e; simpl; rewrite ?Hnone; try reflexivity. congruence.
        - subst e. reflexivity. }
      split; [exact Hnew|]. rewrite Hst.
      repeat split; try apply lookup_insert_eq.
      intros remote fuel. now rewrite keeps_get_reviews.
    + intros o Hsome. rewrite Hsome in Herr. split; [exact Herr|].
      subst e.
      unfold Obstructed.Gerrit_new, Obstructed.__init__,
        Obstructed._load_cache, Obstructed._clean_cache,
        Obstructed.try_except, Obstructed.read_file, Obstructed.write_file.
      unfold_M. simpl. rewrite Hsome. simpl.
      destruct o; simpl; rewrite ?Hsome; reflexivity.
Qed.

Lemma init_cache_failure_is_swallowed_witness :
  let fs : gmap string string := {[ cache_projects_file := "[,]" ]} in
  Obstructed.cache_load_error (fun _ => None) fs EXPECTING_VALUE
  /\ (exists st,
        Obstructed.Gerrit_new (fun _ => None) "u" "h" 10 true false fs
        = (Ok tt, st)
        /\ use_cache (self st) = false
        /\ files st !! cache_projects_file = Some EmptyString)
  /\ fst (Obstructed.Gerrit_new artifact_is_directory "u" "h" 10 true false fs)
     = Raise (IsADirectoryError cache_projects_file).
Proof.
  intros fs.
  assert (H : Obstructed.cache_load_error (fun _ => None) fs EXPECTING_VALUE).
  { unfold Obstructed.cache_load_error, fs. rewrite lookup_singleton_eq.
    split; [reflexivity | discriminate]. }
  split; [exact H|]. split.
  - destruct (proj1 (proj2 (init_cache_failure_is_swallowed (fun _ => None)
                              "u" "h" 10 false fs) EXPECTING_VALUE H) eq_refl)
      as (Hnew & Huse & Hfiles & _).
    eexists. split; [exact Hnew|]. split; [exact Huse|].
    rewrite Hfiles. apply lookup_insert_eq.
  - destruct (proj2 (proj2 (init_cache_failure_is_swallowed artifact_is_directory
                              "u" "h" 10 false fs)
                       (IsADirectoryError cache_projects_file) eq_refl)
                Directory eq_refl) as [_ Hnew].
    now rewrite Hnew.
Defined.

(** ** History mode *)

(** C6.  [_restore] stores the content of the dump in the attribute
    [issues], not in [reviews]: with a dump that holds one review, the
    constructor in history mode returns normally and logs the restore, but
    the review result set is still empty, and a later [get_reviews] returns
    what the remote source has (here nothing), not the restored content. *)
Theorem restore_leaves_reviews_empty :
  let dumped := JArr [JObj [("project", JStr "p"); ("number", JInt 1)]] in
  let fs : gmap string string := {[ reviews_file := dumps dumped ]} in
  let src := {| sim_cmd := "ssh -p 29418 u@h gerrit ";
                sim_banner := "gerrit version 2.9";
                sim_limit := 10; sim_projects := [] |} in
  exists st,
    Gerrit_new "u" "h" 10 false true fs = (Ok tt, st)
    /\ log st = [(DEBUG, MsgRestoring); (DEBUG, MsgRestoreCompleted)]
    /\ issues (self st) = Some dumped
    /\ reviews (self st) = []
    /\ fst (get_reviews (sim_remote src) 1 st) = Ok [].
Proof.
  intros dumped fs src. eexists. split.
  { vm_compute. reflexivity. }
  repeat split; vm_compute; reflexivity.
Qed.

(** A dump that is not JSON: the restore logs a warning and returns
    normally, with nothing restored. *)
Lemma restore_malformed_dump (user repository : string) (nrev : Z)
  (fs : gmap string string) (text msg : string) :
  fs !! reviews_file = Some text ->
  loads text = Raise (ValueError msg) ->
  exists st,
    Gerrit_new user repository nrev false true fs = (Ok tt, st)
    /\ log st = [(DEBUG, MsgRestoring); (WARNING, MsgRestoreFailed reviews_file)]
    /\ issues (self st) = None
    /\ reviews (self st) = [].
Proof.
  intros Hfile Hloads. eexists. split.
  { unfold Gerrit_new, __init__, _restore. unfold_M. simpl.
    rewrite Hfile. simpl. rewrite Hfile, Hloads. reflexivity. }
  repeat split.
Qed.

(** ** Project discovery *)

(** Every response is a sequence of lines, each ended by a newline,
    followed by a last segment without newline. *)
Lemma response_lines (response : string) :
  exists ls last,
    response = unlines ls +:+ last
    /\ Forall (fun l => no_char NL l = true) ls
    /\ no_char NL last = true.
Proof.
  induction response as [|c s (ls & last & Hs & Hls & Hlast)].
  - exists [], EmptyString. split; [reflexivity|]. split; [constructor|reflexivity].
  - destruct (Ascii.eqb c NL) eqn:Hc.
    + apply Ascii.eqb_eq in Hc. subst c.
      exists (EmptyString :: ls), last. rewrite Hs.
      split; [reflexivity|]. split; [|exact Hlast].
      constructor; [reflexivity | exact Hls].
    + destruct ls as [|l ls].
      * exists [], (String c last). rewrite Hs.
        split; [reflexivity|]. split; [constructor|].
        cbn [no_char]. now rewrite Hc, Hlast.
      * exists (String c l :: ls), last. rewrite Hs.
        split; [reflexivity|]. split; [|exact Hlast].
        inversion Hls as [|? ? Hl Hls']; subst.
        constructor; [|exact Hls']. cbn [no_char]. now rewrite Hc, Hl.
Qed.

(** C9.  On the remote path, [_get_projects] drops the last segment of the
    response whatever it holds: a response made of the lines [ls], each
    ended by a newline, and then of [last] gives [ls].  When [last] is
    empty the response ends in a newline (or is empty, when [ls] is too)
    and nothing is lost; otherwise [last], a project identifier that no
    newline ends, is dropped.  The list is also what the project-list
    artifact then holds. *)
Theorem get_projects_drops_last_segment
  (remote : list string -> string -> option string) (st : state)
  (ls : list string) (last : string) :
  use_cache (self st) = false ->
  Forall (fun l => no_char NL l = true) ls ->
  no_char NL last = true ->
  remote (trace st) (gerrit_cmd (self st) +:+ "ls-projects ")
    = Some (unlines ls +:+ last) ->
  fst (_get_projects remote st) = Ok (JArr (map JStr ls))
  /\ files (snd (_get_projects remote st)) !! cache_projects_file
     = Some (dumps (JArr (map JStr ls))).
Proof.
  intros Hcache Hls Hlast Hremote.
  unfold _get_projects, _projects_to_cache, check_output. unfold_M. simpl.
  rewrite Hcache. simpl. rewrite Hremote. simpl.
  rewrite str_split_unlines by assumption.
  unfold list_pop. rewrite removelast_last.
  split; [reflexivity|]. apply lookup_insert_eq.
Qed.

Lemma get_projects_drops_last_segment_witness :
  let remote := fun (_ : list string) (_ : string) =>
                  Some (unlines ["a"; "b"] +:+ "c") in
  let st := {| self := new_Gerrit "u" "h" 10 false false;
               files := ∅; log := []; trace := [] |} in
  fst (_get_projects remote st) = Ok (JArr [JStr "a"; JStr "b"])
  /\ files (snd (_get_projects remote st)) !! cache_projects_file
     = Some (dumps (JArr [JStr "a"; JStr "b"])).
Proof.
  intros remote st.
  apply (get_projects_drops_last_segment remote st ["a"; "b"] "c").
  - reflexivity.
  - repeat constructor.
  - reflexivity.
  - reflexivity.
Defined.

(** ** The pagination loop *)

Lemma lift_inv_Ok {A} (o : outcome A) (st st' : state) (a : A) :
  lift o st = (Ok a, st') -> o = Ok a /\ st' = st.
Proof. unfold lift. intros H. injection H as -> ->. auto. Qed.

Lemma py_iter_wf (v : json) (l : list json) :
  json_wf v = true -> py_iter v = Ok l -> forallb json_wf l = true.
Proof.
  destruct v as [ | b | n | s | l' | kvs ]; simpl; intros Hwf H;
    try discriminate; injection H as <-.
  - clear Hwf. induction (list_ascii_of_string s); simpl; auto.
  - exact Hwf.
  - clear Hwf. induction kvs; simpl; auto.
Qed.

Lemma consume_entry_wf (ls ls' : loop_state) (entry : json) :
  forallb json_wf (acc ls) = true -> json_wf entry = true ->
  consume_entry ls entry = Ok ls' -> forallb json_wf (acc ls') = true.
Proof.
  intros Hacc Hentry H. unfold consume_entry in H.
  destruct entry as [ | | | | | kvs]; try discriminate.
  destruct (dict_has "project" kvs).
  - destruct (last_item ls).
    + injection H as <-. simpl. rewrite forallb_app, Hacc. simpl.
      simpl in Hentry. now rewrite Hentry.
    + destruct (dict_get "sortKey" kvs); [|discriminate].
      injection H as <-. simpl. rewrite forallb_app, Hacc. simpl.
      simpl in Hentry. now rewrite Hentry.
  - destruct (dict_has "rowCount" kvs).
    + destruct (dict_get "rowCount" kvs); [|discriminate].
      now injection H as <-.
    + now injection H as <-.
Qed.

Lemma consume_entries_wf (tickets : list json) :
  forall ls ls',
    forallb json_wf (acc ls) = true -> forallb json_wf tickets = true ->
    consume_entries ls tickets = Ok ls' -> forallb json_wf (acc ls') = true.
Proof.
  induction tickets as [|entry tickets IH]; simpl; intros ls ls' Hacc Ht H.
  - now injection H as <-.
  - apply andb_prop in Ht as [He Ht].
    destruct (consume_entry ls entry) as [ls1| |] eqn:H1; [|discriminate..].
    simpl in H. eapply IH; [|exact Ht|exact H].
    eapply consume_entry_wf; eassumption.
Qed.

Lemma load_cache_project_written (p : string) (st : state) (rs : list json) :
  files st !! cache_reviews_file p = Some (dumps (JArr rs)) ->
  forallb json_wf rs = true ->
  fst (_load_cache_project p st) = Ok (Some (JArr rs)).
Proof.
  intros Hfile Hwf. unfold _load_cache_project. unfold_M. simpl.
  rewrite Hfile. simpl. rewrite Hfile.
  rewrite (loads_dumps (JArr rs)) by exact Hwf. reflexivity.
Qed.

(** A page that [fetch_page] consumed: what it wrote and accumulated. *)
Lemma fetch_page_inv
  (remote : list string -> string -> option string)
  (p cmd : string) (ls ls' : loop_state) (st st' : state) :
  fetch_page remote p cmd ls st = (Ok ls', st') ->
  exists arg raw_data tickets entries,
    cursor_arg (last_item ls) = Ok arg
    /\ remote (trace st) (cmd +:+ arg) = Some raw_data
    /\ loads (frame_page raw_data) = Ok tickets
    /\ py_iter tickets = Ok entries
    /\ consume_entries ls entries = Ok ls'
    /\ st' = {| self := self st;
                files := <[cache_reviews_file p := dumps (JArr (acc ls'))]> (files st);
                log := log st;
                trace := trace st ++ [cmd +:+ arg] |}.
Proof.
  unfold fetch_page. intros H.
  apply bind_inv_Ok in H as (arg & st1 & H1 & H).
  apply lift_inv_Ok in H1 as [Harg ->].
  apply bind_inv_Ok in H as (raw & st2 & H2 & H).
  unfold check_output in H2.
  destruct (remote (trace st) (cmd +:+ arg)) as [out|] eqn:Hrem; [|discriminate].
  injection H2 as -> <-.
  apply bind_inv_Ok in H as (tickets & st3 & H3 & H).
  apply lift_inv_Ok in H3 as [Hloads ->].
  apply bind_inv_Ok in H as (entries & st4 & H4 & H).
  apply lift_inv_Ok in H4 as [Hiter ->].
  apply bind_inv_Ok in H as (ls1 & st5 & H5 & H).
  apply lift_inv_Ok in H5 as [Hcons ->].
  unfold _project_reviews_to_cache in H. unfold_M. simpl in H.
  injection H as <- <-.
  exists arg, raw, tickets, entries. repeat split; assumption.
Qed.

(** A page that [fetch_page] consumes overwrites the artifact with the
    whole accumulated sequence, which reloads to itself as long as the
    records are values that [json.loads] returned. *)
Lemma fetch_page_checkpoint
  (remote : list string -> string -> option string)
  (p cmd : string) (ls ls' : loop_state) (st st' : state) :
  forallb json_wf (acc ls) = true ->
  fetch_page remote p cmd ls st = (Ok ls', st') ->
  files st' !! cache_reviews_file p = Some (dumps (JArr (acc ls')))
  /\ fst (_load_cache_project p st') = Ok (Some (JArr (acc ls')))
  /\ forallb json_wf (acc ls') = true.
Proof.
  intros Hwf H.
  apply fetch_page_inv in H
    as (arg & raw & tickets & entries & _ & _ & Hloads & Hiter & Hcons & ->).
  assert (Hwf' : forallb json_wf (acc ls') = true).
  { eapply consume_entries_wf; [exact Hwf| |exact Hcons].
    eapply py_iter_wf; [|exact Hiter]. eapply loads_wf, Hloads. }
  assert (Hfile : files
                    {| self := self st;
                       files := <[cache_reviews_file p := dumps (JArr (acc ls'))]>
                                  (files st);
                       log := log st; trace := trace st ++ [cmd +:+ arg] |}
                  !! cache_reviews_file p = Some (dumps (JArr (acc ls'))))
    by apply lookup_insert_eq.
  split; [exact Hfile|]. split; [|exact Hwf'].
  now apply load_cache_project_written.
Qed.

Lemma pages_run_wf
  (remote : list string -> string -> option string)
  (nrev : Z) (p cmd : string) (ls0 ls : loop_state) (st0 st : state) :
  forallb json_wf (acc ls0) = true ->
  pages_run remote nrev p cmd ls0 st0 ls st ->
  forallb json_wf (acc ls) = true.
Proof.
  intros Hwf Hrun.
  induction Hrun as [ls' st' _ Hpage | ls1 ls2 st1 st2 _ IH _ Hpage].
  - now destruct (fetch_page_checkpoint _ _ _ _ _ _ _ Hwf Hpage) as (_ & _ & H).
  - now destruct (fetch_page_checkpoint _ _ _ _ _ _ _ IH Hpage) as (_ & _ & H).
Qed.

(** [pages_run] is the run of [while_pages]: a loop that returns either
    consumed no page or went through states of [pages_run], the last of
    which fails the test. *)
Lemma while_pages_run
  (remote : list string -> string -> option string)
  (fuel : nat) (nrev : Z) (p cmd : string) :
  forall ls st rs st',
    while_pages remote fuel nrev p cmd ls st = (Ok rs, st') ->
    (rs = acc ls /\ st' = st)
    \/ exists ls', pages_run remote nrev p cmd ls st ls' st' /\ acc ls' = rs.
Proof.
  induction fuel as [|fuel IH]; intros ls st rs st' H; simpl in H.
  - destruct (loop_cond nrev (number_results ls)); [discriminate|].
    injection H as <- <-. now left.
  - destruct (loop_cond nrev (number_results ls)) eqn:Hcond.
    + apply bind_inv_Ok in H as (ls1 & st1 & Hpage & H). right.
      pose proof (run_first remote nrev p cmd ls st ls1 st1 Hcond Hpage) as Hrun.
      destruct (IH _ _ _ _ H) as [[-> ->] | (ls2 & Hrun2 & Hacc)].
      * exists ls1. auto.
      * exists ls2. split; [|exact Hacc].
        clear - Hrun Hrun2.
        induction Hrun2 as [ls' st' Hc Hp | la lb sa sb _ IHr Hc Hp].
        -- eapply run_next; eassumption.
        -- eapply run_next; eassumption.
    + injection H as <- <-. now left.
Qed.

(** C4.  The loop of [_get_project_reviews] starts with nothing
    accumulated.  After each page it consumes, the review artifact of the
    project holds the text of the whole accumulated sequence (a full
    overwrite), and reloading it with [_load_cache_project] gives back
    exactly the sequence accumulated in memory at that point. *)
Theorem checkpoint_after_each_page
  (remote : list string -> string -> option string)
  (nrev : Z) (p cmd : string) (ls0 ls : loop_state) (st0 st : state) :
  acc ls0 = [] ->
  pages_run remote nrev p cmd ls0 st0 ls st ->
  files st !! cache_reviews_file p = Some (dumps (JArr (acc ls)))
  /\ fst (_load_cache_project p st) = Ok (Some (JArr (acc ls))).
Proof.
  intros Hacc Hrun.
  assert (Hwf0 : forallb json_wf (acc ls0) = true) by now rewrite Hacc.
  destruct Hrun as [ls' st' _ Hpage | ls1 ls2 st1 st2 Hrun _ Hpage].
  - destruct (fetch_page_checkpoint _ _ _ _ _ _ _ Hwf0 Hpage) as (H1 & H2 & _).
    auto.
  - pose proof (pages_run_wf _ _ _ _ _ _ _ _ Hwf0 Hrun) as Hwf1.
    destruct (fetch_page_checkpoint _ _ _ _ _ _ _ Hwf1 Hpage) as (H1 & H2 & _).
    auto.
Qed.

Lemma checkpoint_after_each_page_witness :
  let remote := sim_remote (demo_source "gerrit version 2.9") in
  let cmd := query_command "ssh -p 29418 u@h gerrit " "a/x" 4 in
  let ls := {| last_item := Offset 0; number_results := JInt 4; acc := [] |} in
  exists ls' st',
    fetch_page remote "a/x" cmd ls (demo_state 10) = (Ok ls', st')
    /\ length (acc ls') = 4%nat
    /\ fst (_load_cache_project "a/x" st') = Ok (Some (JArr (acc ls'))).
Proof.
  intros remote cmd ls. eexists _, _.
  split; [vm_compute; reflexivity|]. split; [reflexivity|].
  eapply (checkpoint_after_each_page remote 4 "a/x" cmd ls _ (demo_state 10)).
  - reflexivity.
  - apply run_first; [reflexivity|]. vm_compute. reflexivity.
Defined.

(** The checkpoint at the end of the loop: unless no page was fetched, the
    artifact reloads to the sequence that the loop returns. *)
Lemma while_pages_checkpoint
  (remote : list string -> string -> option string)
  (fuel : nat) (nrev : Z) (p cmd : string) :
  forall ls st rs st',
    forallb json_wf (acc ls) = true ->
    while_pages remote fuel nrev p cmd ls st = (Ok rs, st') ->
    (rs = acc ls /\ st' = st)
    \/ fst (_load_cache_project p st') = Ok (Some (JArr rs)).
Proof.
  induction fuel as [|fuel IH]; intros ls st rs st' Hwf H; simpl in H.
  - destruct (loop_cond nrev (number_results ls)); [discriminate|].
    injection H as <- <-. now left.
  - destruct (loop_cond nrev (number_results ls)).
    + apply bind_inv_Ok in H as (ls1 & st1 & Hpage & H).
      destruct (fetch_page_checkpoint _ _ _ _ _ _ _ Hwf Hpage)
        as (_ & Hload & Hwf1).
      destruct (IH _ _ _ _ Hwf1 H) as [[-> ->] | Hfinal]; right; assumption.
    + injection H as <- <-. now left.
Qed.

Lemma consume_entries_number_results (tickets : list json) :
  forall ls ls',
    consume_entries ls tickets = Ok ls' ->
    number_results ls'
    = match last_rowCount tickets with
      | Some n => n
      | None => number_results ls
      end.
Proof.
  induction tickets as [|entry tickets IH]; simpl; intros ls ls' H.
  - now injection H as <-.
  - destruct (consume_entry ls entry) as [ls1| |] eqn:H1; [|discriminate..].
    simpl in H. rewrite (IH _ _ H).
    destruct (last_rowCount tickets); [reflexivity|].
    unfold consume_entry in H1.
    destruct entry as [ | | | | | kvs]; try discriminate.
    destruct (dict_has "project" kvs).
    + destruct (last_item ls); [now injection H1 as <-|].
      destruct (dict_get "sortKey" kvs); [|discriminate].
      now injection H1 as <-.
    + unfold dict_has in *.
      destruct (dict_get "rowCount" kvs); now injection H1 as <-.
Qed.

(** C2.  The loop turns again exactly when [number_results] equals
    [nreviews] or [nreviews + 1], and returns the accumulated sequence with
    no further query otherwise; [number_results] is the [rowCount] of the
    most recent control record (the one of an earlier page, or the initial
    [nreviews], when a page has none).  So after a page whose control
    record reports the integer [c], another page is queried if and only if
    [c] is [nreviews] or [nreviews + 1]: it is for [nreviews + 1], and the
    loop returns when [c] is below [nreviews]. *)
Theorem pagination_loop_predicate
  (remote : list string -> string -> option string)
  (nrev : Z) (p cmd : string) (ls : loop_state) (st : state) :
  (loop_cond nrev (number_results ls) = true ->
     forall fuel,
       while_pages remote (S fuel) nrev p cmd ls st
       = bind (fetch_page remote p cmd ls) (while_pages remote fuel nrev p cmd) st)
  /\ (loop_cond nrev (number_results ls) = false ->
        forall fuel,
          while_pages remote fuel nrev p cmd ls st = (Ok (acc ls), st))
  /\ (forall prev tickets,
        consume_entries prev tickets = Ok ls ->
        number_results ls
        = match last_rowCount tickets with
          | Some n => n
          | None => number_results prev
          end)
  /\ (forall c, number_results ls = JInt c ->
        (loop_cond nrev (number_results ls) = true <-> c = nrev \/ c = nrev + 1))
  /\ (number_results ls = JInt (nrev + 1) ->
        loop_cond nrev (number_results ls) = true)
  /\ (forall c, number_results ls = JInt c -> c < nrev ->
        loop_cond nrev (number_results ls) = false).
Proof.
  assert (Hint : forall c, number_results ls = JInt c ->
            (loop_cond nrev (number_results ls) = true <-> c = nrev \/ c = nrev + 1)).
  { intros c ->. unfold loop_cond. simpl. rewrite orb_true_iff, !Z.eqb_eq.
    reflexivity. }
  repeat split.
  - intros Hc fuel. simpl. now rewrite Hc.
  - intros Hc fuel. destruct fuel; simpl; now rewrite Hc.
  - intros prev tickets. apply consume_entries_number_results.
  - apply Hint; assumption.
  - apply Hint; assumption.
  - intros H. apply (Hint _ H). now right.
  - intros c H Hlt. apply not_true_is_false. intros Hc.
    apply (Hint _ H) in Hc. lia.
Qed.

Lemma pagination_loop_predicate_witness :
  let remote := sim_remote (demo_source "gerrit version 2.9") in
  let cmd := query_command "ssh -p 29418 u@h gerrit " "a/x" 4 in
  let more := {| last_item := Offset 4; number_results := JInt 5; acc := [] |} in
  let done := {| last_item := Offset 6; number_results := JInt 2;
                 acc := demo_reviews "a/x" |} in
  (forall fuel,
     while_pages remote (S fuel) 4 "a/x" cmd more (demo_state 10)
     = bind (fetch_page remote "a/x" cmd more)
         (while_pages remote fuel 4 "a/x" cmd) (demo_state 10))
  /\ (forall fuel,
        while_pages remote fuel 4 "a/x" cmd done (demo_state 10)
        = (Ok (demo_reviews "a/x"), demo_state 10)).
Proof.
  intros remote cmd more done. split.
  - apply (pagination_loop_predicate remote 4 "a/x" cmd more (demo_state 10)).
    reflexivity.
  - apply (pagination_loop_predicate remote 4 "a/x" cmd done (demo_state 10)).
    reflexivity.
Defined.

(** ** The simulated source *)

Lemma eqb_append_cancel (g a b : string) :
  String.eqb (g +:+ a) (g +:+ b) = String.eqb a b.
Proof.
  induction g as [|c g IH]; cbn [String.append]; [reflexivity|].
  cbn [String.eqb]. now rewrite Ascii.eqb_refl.
Qed.

Lemma skipn_length_app {A} (pre post : list A) :
  skipn (length pre) (pre ++ post) = post.
Proof. induction pre as [|x pre IH]; simpl; auto. Qed.

Lemma last_opt_snoc {A} (l : list A) (x : A) : last_opt (l ++ [x]) = Some x.
Proof.
  induction l as [|y l IH]; [reflexivity|].
  cbn [app last_opt]. destruct (l ++ [x]) eqn:E; [|exact IH].
  destruct l; discriminate.
Qed.

Lemma has_sortKey_sortKey_of (k : string) (r : json) :
  has_sortKey k r
  = match sortKey_of r with
    | Some k' => String.eqb k k'
    | None => false
    end.
Proof.
  destruct r as [ | | | | | kvs]; try reflexivity. simpl.
  destruct (dict_get "sortKey" kvs) as [[ | | | | | ]|]; reflexivity.
Qed.

Lemma after_key_distinct (key : string) (r : json) (post : list json) :
  sortKey_of r = Some key ->
  forall pre,
    distinct (map key_or_empty (pre ++ r :: post)) = true ->
    after_key key (pre ++ r :: post) = post.
Proof.
  intros Hr. induction pre as [|x pre IH]; cbn [app after_key map distinct];
    intros Hd.
  - rewrite has_sortKey_sortKey_of, Hr, String.eqb_refl. reflexivity.
  - apply andb_prop in Hd as [Hx Hd]. apply negb_true_iff in Hx.
    rewrite (IH Hd).
    assert (Hne : String.eqb key (key_or_empty x) = false).
    { destruct (String.eqb_spec key (key_or_empty x)) as [->|]; [|reflexivity].
      assert (existsb (String.eqb (key_or_empty x))
                (map key_or_empty (pre ++ r :: post)) = true); [|congruence].
      apply existsb_exists. exists (key_or_empty r). split.
      - apply in_map, in_or_app. right. now left.
      - unfold key_or_empty at 2. rewrite Hr.
        unfold key_or_empty. apply String.eqb_refl. }
    rewrite has_sortKey_sortKey_of. unfold key_or_empty in Hne.
    destruct (sortKey_of x); [now rewrite Hne | reflexivity].
Qed.

Lemma query_not_version (g p : string) (n : Z) (arg : string) :
  String.eqb (query_command g p n +:+ arg) (g +:+ " version ") = false.
Proof.
  unfold query_command. rewrite !append_assoc, eqb_append_cancel. reflexivity.
Qed.

Lemma query_not_ls_projects (g p : string) (n : Z) (arg : string) :
  String.eqb (query_command g p n +:+ arg) (g +:+ "ls-projects ") = false.
Proof.
  unfold query_command. rewrite !append_assoc, eqb_append_cancel. reflexivity.
Qed.

Lemma sim_query_nil (limit : nat) (rs : list json) :
  sim_query limit rs EmptyString = Some (page_text (firstn limit rs)).
Proof. reflexivity. Qed.

Lemma sim_query_start (limit : nat) (rs : list json) (k : nat) :
  sim_query limit rs (" --start=" +:+ str_of_int (Z.of_nat k))
  = Some (page_text (firstn limit (skipn k rs))).
Proof.
  unfold sim_query. cbn [String.append].
  change (String " " (String "-" (String "-" (String "s" (String "t"
            (String "a" (String "r" (String "t" (String "="
               (str_of_int (Z.of_nat k)))))))))))
    with (" --start=" +:+ str_of_int (Z.of_nat k)).
  rewrite strip_prefix_append, parse_digits_str_of_int by lia.
  now rewrite Nat2Z.id.
Qed.

Lemma sim_query_key (limit : nat) (rs : list json) (key : string) :
  sim_query limit rs (" resume_sortkey:" +:+ key)
  = Some (page_text (firstn limit (after_key key rs))).
Proof.
  unfold sim_query. cbn [String.append].
  replace (strip_prefix " --start=" _) with (@None string) by reflexivity.
  match goal with
  | |- context [strip_prefix " resume_sortkey:" ?s] =>
      change s with (" resume_sortkey:" +:+ key)
  end.
  now rewrite strip_prefix_append.
Qed.

Section SimulatedSource.

Variable src : sim_source.
Variable p : string.
Variable rs : list json.
Variable offset : bool.

Hypothesis Hproj : sim_projects src = [(p, rs)].
Hypothesis Hrows : forallb row_ok rs = true.
Hypothesis Hkeyed : offset = false -> keyed rs = true.

Let P : nat := sim_limit src.
Let cmd : string := query_command (sim_cmd src) p (Z.of_nat P).

Lemma sim_remote_version (h : list string) :
  sim_remote src h (sim_cmd src +:+ " version ") = Some (sim_banner src).
Proof. unfold sim_remote. now rewrite String.eqb_refl. Qed.

Lemma sim_remote_query (h : list string) (arg : string) :
  sim_remote src h (cmd +:+ arg) = sim_query P rs arg.
Proof.
  unfold sim_remote, cmd.
  rewrite query_not_version, query_not_ls_projects, Hproj.
  cbn [sim_find]. now rewrite strip_prefix_append.
Qed.

(** The page that the source serves for the cursor of the loop. *)
Lemma sim_page_for_cursor (pre post : list json) :
  rs = pre ++ post ->
  exists arg,
    cursor_arg (cursor_after offset pre) = Ok arg
    /\ sim_query P rs arg = Some (page_text (firstn P post)).
Proof.
  intros Hrs. unfold cursor_after. destruct offset eqn:Hoff.
  - eexists. split; [reflexivity|].
    now rewrite sim_query_start, Hrs, skipn_length_app.
  - specialize (Hkeyed eq_refl). unfold keyed in Hkeyed.
    apply andb_prop in Hkeyed as [Hkeys Hdist].
    destruct pre as [|x pre0] using rev_ind.
    + exists EmptyString. split; [reflexivity|].
      now rewrite sim_query_nil, Hrs.
    + clear IHpre0. rewrite last_opt_snoc.
      assert (Hx : exists key, sortKey_of x = Some key).
      { apply forallb_to_Forall in Hkeys. rewrite Hrs in Hkeys.
        apply Forall_app in Hkeys as [Hpre _].
        apply Forall_app in Hpre as [_ Hx].
        inversion Hx as [|? ? Hx' _]; subst.
        destruct (sortKey_of x) as [key|]; [eauto | discriminate]. }
      destruct Hx as [key Hkey].
      assert (Hget : exists kvs, x = JObj kvs
                                 /\ dict_get "sortKey" kvs = Some (JStr key)).
      { destruct x as [ | | | | | kvs]; try discriminate. exists kvs.
        split; [reflexivity|]. simpl in Hkey.
        destruct (dict_get "sortKey" kvs) as [[ | | | k | | ]|]; try discriminate.
        now injection Hkey as ->. }
      destruct Hget as (kvs & -> & Hget). rewrite Hget.
      eexists. split; [reflexivity|].
      rewrite sim_query_key. rewrite Hrs, <- app_assoc. cbn [app].
      rewrite after_key_distinct; [reflexivity | exact Hkey |].
      rewrite Hrs, <- app_assoc in Hdist. exact Hdist.
Qed.

(** Consuming the data rows of a page moves the cursor past them. *)
Lemma consume_rows (rows : list json) :
  forall pre tail nres,
    forallb row_ok rows = true ->
    (offset = false -> forallb (fun r => match sortKey_of r with
                                         | Some _ => true
                                         | None => false
                                         end) rows = true) ->
    consume_entries
      {| last_item := cursor_after offset pre; number_results := nres;
         acc := pre |} (rows ++ tail)
    = consume_entries
        {| last_item := cursor_after offset (pre ++ rows); number_results := nres;
           acc := pre ++ rows |} tail.
Proof.
  induction rows as [|r rows IH]; intros pre tail nres Hok Hkeys.
  - now rewrite app_nil_r.
  - cbn [forallb] in Hok. apply andb_prop in Hok as [Hr Hok].
    unfold row_ok in Hr. apply andb_prop in Hr as [Hr _].
    apply andb_prop in Hr as [Hrev _].
    destruct r as [ | | | | | kvs]; try discriminate. simpl in Hrev.
    cbn [app consume_entries]. unfold consume_entry at 1.
    rewrite Hrev. cbn [last_item number_results acc].
    replace (pre ++ JObj kvs :: rows) with ((pre ++ [JObj kvs]) ++ rows)
      by now rewrite <- app_assoc.
    rewrite <- IH; [|exact Hok|].
    + unfold cursor_after. destruct offset.
      * cbn [obind]. rewrite length_app. cbn [length].
        do 3 f_equal. lia.
      * specialize (Hkeys eq_refl). cbn [forallb] in Hkeys.
        apply andb_prop in Hkeys as [Hkey _]. simpl in Hkey.
        destruct (dict_get "sortKey" kvs) as [k|] eqn:Hget; [|discriminate].
        cbn [obind]. now rewrite last_opt_snoc, Hget.
    + intros Hoff. specialize (Hkeys Hoff). cbn [forallb] in Hkeys.
      now apply andb_prop in Hkeys as [_ Hkeys].
Qed.

Lemma consume_stats (ls : loop_state) (m : nat) :
  consume_entries ls [stats_record m]
  = Ok {| last_item := last_item ls; number_results := JInt (Z.of_nat m);
          acc := acc ls |}.
Proof. reflexivity. Qed.

Lemma forallb_firstn {A} (f : A -> bool) (n : nat) (l : list A) :
  forallb f l = true -> forallb f (firstn n l) = true.
Proof.
  revert n; induction l as [|x l IH]; intros [|n] H; simpl in *; auto.
  apply andb_prop in H as [Hx Hl]. now rewrite Hx, IH.
Qed.

Lemma forallb_app_r {A} (f : A -> bool) (a b : list A) :
  forallb f (a ++ b) = true -> forallb f b = true.
Proof. rewrite forallb_app. intros H. now apply andb_prop in H. Qed.

(** One page of the loop against the source. *)
Lemma fetch_page_sim (pre post : list json) (st : state) :
  rs = pre ++ post ->
  exists st',
    fetch_page (sim_remote src) p cmd
      {| last_item := cursor_after offset pre;
         number_results := JInt (Z.of_nat P); acc := pre |} st
    = (Ok {| last_item := cursor_after offset (pre ++ firstn P post);
             number_results := JInt (Z.of_nat (length (firstn P post)));
             acc := pre ++ firstn P post |}, st').
Proof.
  intros Hrs.
  destruct (sim_page_for_cursor pre post Hrs) as (arg & Harg & Hpage).
  assert (Hpost : forallb row_ok post = true).
  { rewrite Hrs in Hrows. now apply forallb_app_r in Hrows. }
  unfold fetch_page. cbn [last_item].
  unfold bind at 1. unfold lift at 1. rewrite Harg.
  unfold bind at 1. unfold check_output.
  rewrite sim_remote_query, Hpage.
  unfold bind at 1. unfold lift at 1.
  rewrite loads_frame_page_text by now apply forallb_firstn.
  unfold bind at 1. unfold lift at 1. cbn [py_iter].
  unfold bind at 1. unfold lift at 1.
  rewrite consume_rows.
  - rewrite consume_stats. cbn [last_item acc].
    unfold _project_reviews_to_cache. unfold_M. eexists. reflexivity.
  - now apply forallb_firstn.
  - intros Hoff. specialize (Hkeyed Hoff). unfold keyed in Hkeyed.
    apply andb_prop in Hkeyed as [Hkeys _]. rewrite Hrs in Hkeys.
    apply forallb_app_r in Hkeys. now apply forallb_firstn.
Qed.

Lemma while_pages_stop
  (remote : list string -> string -> option string)
  (fuel : nat) (nrev : Z) (q c : string) (ls : loop_state) (st : state) :
  loop_cond nrev (number_results ls) = false ->
  while_pages remote fuel nrev q c ls st = (Ok (acc ls), st).
Proof. intros H. destruct fuel; simpl; now rewrite H. Qed.

Hypothesis Hlimit : (1 <= sim_limit src)%nat.

(** The loop against the source: from any point, with fuel for one page
    more than the rows left, it returns all the rows. *)
Lemma while_pages_sim (fuel : nat) :
  forall pre post st,
    rs = pre ++ post -> (length post < fuel)%nat ->
    exists st',
      while_pages (sim_remote src) fuel (Z.of_nat P) p cmd
        {| last_item := cursor_after offset pre;
           number_results := JInt (Z.of_nat P); acc := pre |} st
      = (Ok rs, st').
Proof.
  induction fuel as [|fuel IH]; intros pre post st Hrs Hfuel; [lia|].
  cbn [while_pages number_results].
  assert (Hcond : loop_cond (Z.of_nat P) (JInt (Z.of_nat P)) = true).
  { unfold loop_cond. cbn [py_eq_int]. now rewrite Z.eqb_refl. }
  rewrite Hcond.
  destruct (fetch_page_sim pre post st Hrs) as (st1 & Hpage).
  rewrite (bind_Ok _ _ _ _ _ Hpage).
  destruct (Nat.le_gt_cases P (length post)) as [Hfull | Hshort].
  - rewrite length_firstn, Nat.min_l by exact Hfull.
    apply (IH (pre ++ firstn P post) (skipn P post)).
    + rewrite <- app_assoc, firstn_skipn. exact Hrs.
    + rewrite length_skipn. unfold P in *. lia.
  - rewrite firstn_all2 by lia.
    rewrite while_pages_stop.
    + cbn [acc]. rewrite <- Hrs. eauto.
    + cbn [number_results]. unfold loop_cond. cbn [py_eq_int].
      apply orb_false_iff. split; apply Z.eqb_neq; lia.
Qed.

End SimulatedSource.

Lemma distinct_NoDup (l : list string) : distinct l = true -> NoDup l.
Proof.
  induction l as [|x l IH]; simpl; intros H; constructor.
  - apply andb_prop in H as [Hx _]. apply negb_true_iff in Hx.
    intros Hin. apply list_elem_of_In in Hin.
    assert (existsb (String.eqb x) l = true); [|congruence].
    apply existsb_exists. exists x. split; [exact Hin | apply String.eqb_refl].
  - apply andb_prop in H as [_ Hl]. auto.
Qed.

Lemma keyed_NoDup (rs : list json) : keyed rs = true -> NoDup rs.
Proof.
  unfold keyed. intros H. apply andb_prop in H as [_ Hd].
  apply distinct_NoDup in Hd. eapply NoDup_fmap_1. exact Hd.
Qed.

(** The remote path of [_get_project_reviews] against the source, up to
    the loop. *)
Lemma get_project_reviews_sim
  (src : sim_source) (p : string) (version : Z * Z) (st : state) (fuel : nat) :
  parse_version (sim_banner src) = Ok version ->
  use_cache (self st) = false ->
  gerrit_cmd (self st) = sim_cmd src ->
  _get_project_reviews (sim_remote src) fuel (JStr p) st
  = bind (while_pages (sim_remote src) fuel (nreviews (self st)) p
            (query_command (sim_cmd src) p (nreviews (self st)))
            {| last_item := cursor_after (offset_protocol version) [];
               number_results := JInt (nreviews (self st));
               acc := [] |})
      (fun reviews =>
         bind (logging INFO (MsgTotalReviews (length reviews)))
           (fun _ => ret (JArr reviews)))
      {| self := self st; files := files st; log := log st;
         trace := trace st ++ [sim_cmd src +:+ " version "] |}.
Proof.
  intros Hversion Hcache Hcmd.
  unfold _get_project_reviews.
  unfold bind at 1. unfold get_self at 1. rewrite Hcache.
  unfold bind at 1. unfold ret at 1.
  unfold fetch_remote, _get_version.
  unfold bind at 1. unfold bind at 1. unfold get_self at 1.
  unfold bind at 1. unfold check_output.
  rewrite Hcmd, sim_remote_version. unfold lift at 1. rewrite Hversion.
  unfold bind at 1. unfold get_self at 1. cbn [self].
  rewrite Hcmd.
  now destruct (offset_protocol version).
Qed.

(** With a page size of 0 every page is empty and reports 0 rows, which is
    [nreviews]: the loop never ends. *)
Lemma while_pages_zero_limit
  (src : sim_source) (p : string) (rs : list json) (offset : bool) :
  sim_projects src = [(p, rs)] ->
  sim_limit src = 0%nat ->
  forallb row_ok rs = true ->
  (offset = false -> keyed rs = true) ->
  forall fuel st,
    exists st',
      while_pages (sim_remote src) fuel 0 p (query_command (sim_cmd src) p 0)
        {| last_item := cursor_after offset []; number_results := JInt 0;
           acc := [] |} st
      = (OutOfFuel, st').
Proof.
  intros Hproj Hzero Hrows Hkeyed.
  induction fuel as [|fuel IH]; intros st; cbn [while_pages number_results].
  - eexists. reflexivity.
  - change (loop_cond 0 (JInt 0)) with true. cbv iota.
    destruct (fetch_page_sim src p rs offset Hproj Hrows Hkeyed [] rs st eq_refl)
      as (st1 & Hpage).
    rewrite Hzero in Hpage. cbn [firstn app length Z.of_nat] in Hpage.
    rewrite (bind_Ok _ _ _ _ _ Hpage). apply IH.
Qed.

(** C1, as stated, fails for a page size of 0: the fetch returns nothing,
    whatever the fuel. *)
Lemma zero_page_size_never_returns :
  let src := {| sim_cmd := "ssh -p 29418 u@h gerrit ";
                sim_banner := "gerrit version 2.9";
                sim_limit := 0;
                sim_projects := [("a/x", demo_reviews "a/x")] |} in
  let st := {| self := new_Gerrit "u" "h" 0 false false;
               files := ∅; log := []; trace := [] |} in
  ~ exists fuel result,
      fst (_get_project_reviews (sim_remote src) fuel (JStr "a/x") st)
      = Ok result.
Proof.
  intros src st (fuel & result & H).
  rewrite (get_project_reviews_sim src "a/x" (2, 9) st fuel eq_refl eq_refl eq_refl)
    in H.
  destruct (while_pages_zero_limit src "a/x" (demo_reviews "a/x") true
              eq_refl eq_refl eq_refl ltac:(discriminate) fuel
              {| self := self st; files := files st; log := log st;
                 trace := trace st ++ [sim_cmd src +:+ " version "] |})
    as (st' & Hloop).
  assert (Hloop' :
            while_pages (sim_remote src) fuel (nreviews (self st)) "a/x"
              (query_command (sim_cmd src) "a/x" (nreviews (self st)))
              {| last_item := cursor_after (offset_protocol (2, 9)) [];
                 number_results := JInt (nreviews (self st)); acc := [] |}
              {| self := self st; files := files st; log := log st;
                 trace := trace st ++ [sim_cmd src +:+ " version "] |}
            = (OutOfFuel, st')) by exact Hloop.
  unfold bind at 1 in H. rewrite Hloop' in H. discriminate.
Qed.

(** The framing defect reaches the fetch: two distinct rows that differ by
    a comma before a closing bracket inside a str come back equal. *)
Lemma framing_merges_distinct_rows :
  let r1 := JObj [("project", JStr "a/x"); ("subject", JStr "x,]")] in
  let r2 := JObj [("project", JStr "a/x"); ("subject", JStr "x]")] in
  let src := {| sim_cmd := "ssh -p 29418 u@h gerrit ";
                sim_banner := "gerrit version 2.9";
                sim_limit := 4;
                sim_projects := [("a/x", [r1; r2])] |} in
  r1 <> r2
  /\ fst (_get_project_reviews (sim_remote src) 3 (JStr "a/x") (demo_state 10))
     = Ok (JArr [r2; r2]).
Proof.
  intros r1 r2 src. split; [discriminate|]. vm_compute. reflexivity.
Qed.

(** C1 (amended).  Against a simulated paginated source that holds the
    rows [rs] of a project and serves them in pages of [sim_limit src >= 1]
    rows, each page ended by its control record, [_get_project_reviews] on
    the remote path returns exactly the sequence [rs]: as many records as
    the source holds, and no duplicates when the rows of the source are
    distinct, as they are when their sort keys are.  The rows are dicts
    with the key [project] whose text has no comma before a closing
    bracket.  This holds under the offset protocol (major version 2, minor
    9 or more) and under the sort-key protocol, where each row has a str
    [sortKey] and the keys are distinct.  The loop needs at most one page
    per row plus one.  After the "version" command the fetch is the loop,
    entered with the cursor 0 under the offset protocol and with no cursor
    under the sort-key protocol; each data row adds one to the offset, and
    makes its [sortKey] the cursor of the sort-key protocol. *)
Theorem fetch_returns_all_reviews
  (src : sim_source) (p : string) (rs : list json) (version : Z * Z)
  (st : state) (fuel : nat) :
  sim_projects src = [(p, rs)] ->
  (1 <= sim_limit src)%nat ->
  parse_version (sim_banner src) = Ok version ->
  forallb row_ok rs = true ->
  (offset_protocol version = false -> keyed rs = true) ->
  use_cache (self st) = false ->
  gerrit_cmd (self st) = sim_cmd src ->
  nreviews (self st) = Z.of_nat (sim_limit src) ->
  (length rs < fuel)%nat ->
  fst (_get_project_reviews (sim_remote src) fuel (JStr p) st) = Ok (JArr rs)
  /\ (keyed rs = true -> NoDup rs)
  /\ _get_project_reviews (sim_remote src) fuel (JStr p) st
     = bind (while_pages (sim_remote src) fuel (nreviews (self st)) p
               (query_command (sim_cmd src) p (nreviews (self st)))
               {| last_item := if offset_protocol version then Offset 0
                               else SortKey JNull;
                  number_results := JInt (nreviews (self st));
                  acc := [] |})
         (fun reviews =>
            bind (logging INFO (MsgTotalReviews (length reviews)))
              (fun _ => ret (JArr reviews)))
         {| self := self st; files := files st; log := log st;
            trace := trace st ++ [sim_cmd src +:+ " version "] |}
  /\ (forall ls n kvs,
        last_item ls = Offset n -> dict_has "project" kvs = true ->
        consume_entry ls (JObj kvs)
        = Ok {| last_item := Offset (n + 1);
                number_results := number_results ls;
                acc := acc ls ++ [JObj kvs] |})
  /\ (forall ls k0 kvs k,
        last_item ls = SortKey k0 -> dict_has "project" kvs = true ->
        dict_get "sortKey" kvs = Some k ->
        consume_entry ls (JObj kvs)
        = Ok {| last_item := SortKey k;
                number_results := number_results ls;
                acc := acc ls ++ [JObj kvs] |}).
Proof.
  intros Hproj Hlimit Hversion Hrows Hkeyed Hcache Hcmd Hnrev Hfuel.
  split; [|split; [apply keyed_NoDup | split; [|split]]].
  - rewrite (get_project_reviews_sim src p version st fuel Hversion Hcache Hcmd).
    rewrite Hnrev.
    destruct (while_pages_sim src p rs (offset_protocol version)
                Hproj Hrows Hkeyed Hlimit fuel [] rs
                {| self := self st; files := files st; log := log st;
                   trace := trace st ++ [sim_cmd src +:+ " version "] |}
                eq_refl Hfuel) as (st' & Hloop).
    unfold bind at 1. rewrite Hloop.
    unfold_M. reflexivity.
  - rewrite (get_project_reviews_sim src p version st fuel Hversion Hcache Hcmd).
    now destruct (offset_protocol version).
  - intros ls n kvs Hlast Hproject. unfold consume_entry.
    now rewrite Hproject, Hlast.
  - intros ls k0 kvs k Hlast Hproject Hget. unfold consume_entry.
    now rewrite Hproject, Hlast, Hget.
Qed.

Lemma fetch_returns_all_reviews_witness :
  (fst (_get_project_reviews
          (sim_remote {| sim_cmd := "ssh -p 29418 u@h gerrit ";
                         sim_banner := "gerrit version 2.9";
                         sim_limit := 4;
                         sim_projects := [("a/x", demo_reviews "a/x")] |})
          7 (JStr "a/x") (demo_state 10))
   = Ok (JArr (demo_reviews "a/x")))
  /\ (fst (_get_project_reviews
             (sim_remote {| sim_cmd := "ssh -p 29418 u@h gerrit ";
                            sim_banner := "gerrit version 2.8";
                            sim_limit := 3;
                            sim_projects := [("a/x", demo_reviews "a/x")] |})
             7 (JStr "a/x")
             {| self := new_Gerrit "u" "h" 3 false false;
                files := ∅; log := []; trace := [] |})
      = Ok (JArr (demo_reviews "a/x")))
  /\ NoDup (demo_reviews "a/x").
Proof.
  split; [|split].
  - apply (fetch_returns_all_reviews
             {| sim_cmd := "ssh -p 29418 u@h gerrit ";
                sim_banner := "gerrit version 2.9";
                sim_limit := 4;
                sim_projects := [("a/x", demo_reviews "a/x")] |}
             "a/x" (demo_reviews "a/x") (2, 9) (demo_state 10) 7);
      try reflexivity; try (simpl; lia).
  - apply (fetch_returns_all_reviews
             {| sim_cmd := "ssh -p 29418 u@h gerrit ";
                sim_banner := "gerrit version 2.8";
                sim_limit := 3;
                sim_projects := [("a/x", demo_reviews "a/x")] |}
             "a/x" (demo_reviews "a/x") (2, 8)
             {| self := new_Gerrit "u" "h" 3 false false;
                files := ∅; log := []; trace := [] |} 7);
      try reflexivity; try (simpl; lia).
  - apply (fetch_returns_all_reviews
             {| sim_cmd := "ssh -p 29418 u@h gerrit ";
                sim_banner := "gerrit version 2.8";
                sim_limit := 3;
                sim_projects := [("a/x", demo_reviews "a/x")] |}
             "a/x" (demo_reviews "a/x") (2, 8)
             {| self := new_Gerrit "u" "h" 3 false false;
                files := ∅; log := []; trace := [] |} 7);
      try reflexivity; try (simpl; lia).
Defined.

(** ** The ingestion loop *)

(** C3.  When the accumulator has reached [max_reviews] once a project is
    finished, [for_projects] logs the condition at level ERROR and stops:
    it returns normally, in the state the project left, whatever projects
    remain, so none of them is fetched; [get_reviews] then returns the
    accumulator.  When it has not, the loop goes on with the next
    project.  With [max_reviews = 10] and three projects of six reviews
    each, under either protocol, [get_reviews] returns the twelve reviews
    of the first two projects, sends no command about the third and leaves
    no artifact for it. *)
Theorem capacity_cap_stops_the_loop :
  (forall (remote : list string -> string -> option string)
          (fuel total current : nat) (p : json) (rest : list json)
          (st st1 : state) (fetched : json) (items : list json),
      _get_project_reviews remote fuel p st = (Ok fetched, st1) ->
      py_iter fetched = Ok items ->
      max_reviews (self st1) <= Z.of_nat (length (reviews (self st1) ++ items)) ->
      for_projects remote fuel total current (p :: rest) st
      = (Ok tt,
         {| self := set_reviews (reviews (self st1) ++ items) (self st1);
            files := files st1;
            log := log st1 ++ [(INFO, MsgCompleted p current total);
                               (ERROR, MsgMaxReviews (max_reviews (self st1)))];
            trace := trace st1 |}))
  /\ (forall (remote : list string -> string -> option string)
            (fuel total current : nat) (p : json) (rest : list json)
            (st st1 : state) (fetched : json) (items : list json),
        _get_project_reviews remote fuel p st = (Ok fetched, st1) ->
        py_iter fetched = Ok items ->
        Z.of_nat (length (reviews (self st1) ++ items)) < max_reviews (self st1) ->
        for_projects remote fuel total current (p :: rest) st
        = for_projects remote fuel total (S current) rest
            {| self := set_reviews (reviews (self st1) ++ items) (self st1);
               files := files st1;
               log := log st1 ++ [(INFO, MsgCompleted p current total);
                                  (DEBUG, MsgReviewsInMemory
                                            (length (reviews (self st1) ++ items)));
                                  (DEBUG, MsgMemory)];
               trace := trace st1 |})
  /\ (forall banner,
        banner = "gerrit version 2.9" \/ banner = "gerrit version 2.8" ->
        let run := get_reviews (sim_remote (demo_source banner)) 10%nat
                     (demo_state 10) in
        fst run = Ok (demo_reviews "a/x" ++ demo_reviews "b")
        /\ length (demo_reviews "a/x" ++ demo_reviews "b") = 12%nat
        /\ reviews (self (snd run)) = demo_reviews "a/x" ++ demo_reviews "b"
        /\ List.last (log (snd run)) (DEBUG, MsgDone) = (ERROR, MsgMaxReviews 10)
        /\ files (snd run) !! cache_reviews_file "c" = None
        /\ length (trace (snd run)) = 7%nat
        /\ forallb (fun cmd => negb (startswith
                                       (query_command "ssh -p 29418 u@h gerrit " "c" 4)
                                       cmd))
             (trace (snd run)) = true).
Proof.
  split.
  - intros remote fuel total current p rest st st1 fetched items Hfetch Hiter Hcap.
    cbn [for_projects].
    rewrite (bind_Ok _ _ _ _ _ Hfetch).
    unfold_M. rewrite Hiter. simpl.
    apply Z.leb_le in Hcap. rewrite Hcap. simpl.
    now rewrite <- app_assoc.
  - split.
    + intros remote fuel total current p rest st st1 fetched items Hfetch Hiter Hcap.
      cbn [for_projects].
      rewrite (bind_Ok _ _ _ _ _ Hfetch).
      unfold_M. rewrite Hiter. simpl.
      apply Z.leb_gt in Hcap. rewrite Hcap. simpl.
      now rewrite <- !app_assoc.
    + intros banner [-> | ->]; repeat split; vm_compute; reflexivity.
Qed.

Lemma capacity_cap_stops_the_loop_witness :
  let remote := sim_remote (demo_source "gerrit version 2.9") in
  exists st',
    for_projects remote 10%nat 3%nat 1%nat [JStr "a/x"; JStr "b"; JStr "c"]
      (demo_state 5)
    = (Ok tt, st')
    /\ reviews (self st') = demo_reviews "a/x"
    /\ length (trace st') = 3%nat.
Proof.
  intros remote. eexists. split; [|split].
  - eapply (proj1 capacity_cap_stops_the_loop remote 10%nat 3%nat 1%nat (JStr "a/x")
              [JStr "b"; JStr "c"] (demo_state 5)).
    + vm_compute. reflexivity.
    + reflexivity.
    + vm_compute. discriminate.
  - reflexivity.
  - reflexivity.
Defined.

(** ** The entries of a page *)

(** X1.  A page whose lines are the [json.dumps] texts of values (of a
    Python program) that have no comma right before a closing bracket is
    framed into a text that [json.loads] parses to exactly these values,
    in the order of the lines; a page with no line gives the empty list. *)
Theorem frame_page_parses_lines (vs : list json) :
  forallb json_wf vs = true ->
  forallb (fun v => no_comma_bracket (dumps v)) vs = true ->
  loads (frame_page (unlines (map dumps vs))) = Ok (JArr vs).
Proof.
  intros Hwf Hnc. destruct vs as [|v vs']; [vm_compute; reflexivity|].
  rewrite frame_page_unlines.
  - apply loads_array_lines. exact Hwf.
  - discriminate.
  - apply Forall_map, Forall_forall. intros x _. apply dumps_no_newline.
  - apply Forall_map. apply forallb_to_Forall in Hnc.
    eapply Forall_impl; [exact Hnc|]. intros r Hr. split; [exact Hr|].
    destruct (dumps_head r) as (c & s & Hs & _ & Hc). eauto.
Qed.

Lemma frame_page_parses_lines_witness :
  loads (frame_page (unlines (map dumps [demo_review "a/x" 1; JInt 7;
                                          stats_record 1])))
  = Ok (JArr [demo_review "a/x" 1; JInt 7; stats_record 1]).
Proof.
  apply (frame_page_parses_lines [demo_review "a/x" 1; JInt 7; stats_record 1]);
    reflexivity.
Defined.

Lemma frame_page_head (raw : string) :
  exists r, frame_page raw = String "[" r.
Proof.
  unfold frame_page. cbn [String.append].
  rewrite str_replace_skip by (discriminate || reflexivity). eauto.
Qed.

(** X2.  Whatever the remote sends, the framed text of a page never
    parses to anything but a list: [for entry in tickets] iterates the
    elements of a list, never the keys of a dict or the characters of a
    str, and never fails with [TypeError]. *)
Theorem framed_page_is_a_list (raw : string) (v : json) :
  loads (frame_page raw) = Ok v ->
  exists l, v = JArr l /\ py_iter v = Ok l.
Proof.
  destruct (frame_page_head raw) as (r & ->). unfold loads.
  cbn [String.length Nat.mul Nat.add skip_ws].
  change (is_ws "[") with false. cbv iota.
  rewrite Nat.add_comm. cbn [Nat.add scan_once].
  change (Ascii.eqb "[" DQ) with false. change (Ascii.eqb "[" "{") with false.
  change (Ascii.eqb "[" "[") with true. cbv iota.
  destruct (skip_ws r) as [|c2 r2]; [discriminate|].
  destruct (Ascii.eqb c2 "]").
  - cbn [obind]. destruct (skip_ws r2); intros H; [|discriminate].
    injection H as <-. eauto.
  - destruct (array_items _ _) as [[vs rest]| |]; cbn [obind];
      try discriminate.
    destruct (skip_ws rest); intros H; [|discriminate].
    injection H as <-. eauto.
Qed.

Lemma framed_page_is_a_list_witness :
  exists l, JArr [JInt 1; JInt 2] = JArr l
            /\ py_iter (JArr [JInt 1; JInt 2]) = Ok l.
Proof.
  apply (framed_page_is_a_list (String "1" (String NL (String "2" (String NL EmptyString))))).
  vm_compute. reflexivity.
Defined.

Lemma consume_entry_acc (ls ls' : loop_state) (entry : json) :
  consume_entry ls entry = Ok ls' ->
  acc ls' = acc ls ++ List.filter is_review [entry]
  /\ match last_item ls, last_item ls' with
     | Offset n, Offset m =>
         m = n + Z.of_nat (length (List.filter is_review [entry]))
     | SortKey _, SortKey _ => True
     | _, _ => False
     end.
Proof.
  unfold consume_entry. destruct entry as [ | | | | | kvs]; try discriminate.
  cbn [List.filter is_review].
  destruct (dict_has "project" kvs).
  - destruct (last_item ls) as [n|k].
    + intros H. injection H as <-. cbn. split; [reflexivity | lia].
    + destruct (dict_get "sortKey" kvs); [|discriminate].
      intros H. injection H as <-. cbn. auto.
  - destruct (dict_has "rowCount" kvs).
    + destruct (dict_get "rowCount" kvs); [|discriminate].
      intros H. injection H as <-. cbn. rewrite app_nil_r.
      destruct (last_item ls); split; auto; lia.
    + intros H. injection H as <-. rewrite app_nil_r.
      destruct (last_item ls); split; auto; cbn; lia.
Qed.

(** X3.  The entries of a page that carry the key [project] are appended
    to the accumulated reviews in the order of the page, and nothing else
    is: control records and other dicts leave it as it is.  Under the
    offset protocol the cursor grows by the number of these entries. *)
Theorem consume_entries_keeps_data_rows (tickets : list json) :
  forall ls ls',
    consume_entries ls tickets = Ok ls' ->
    acc ls' = acc ls ++ List.filter is_review tickets
    /\ (forall n, last_item ls = Offset n ->
          last_item ls'
          = Offset (n + Z.of_nat (length (List.filter is_review tickets)))).
Proof.
  induction tickets as [|entry tickets IH]; intros ls ls' H.
  - cbn in H. injection H as <-. cbn. rewrite app_nil_r. split; [reflexivity|].
    intros n ->. f_equal. lia.
  - cbn [consume_entries] in H.
    destruct (consume_entry ls entry) as [ls1| |] eqn:H1; [|discriminate..].
    cbn [obind] in H. apply consume_entry_acc in H1 as [Hacc Hcur].
    destruct (IH _ _ H) as [Hacc' Hcur']. split.
    + rewrite Hacc', Hacc, <- app_assoc. f_equal.
      change (entry :: tickets) with ([entry] ++ tickets).
      now rewrite List.filter_app.
    + intros n Hn. rewrite Hn in Hcur.
      destruct (last_item ls1) as [m|] eqn:Hm; [|contradiction].
      rewrite (Hcur' m eq_refl). f_equal. subst m.
      change (entry :: tickets) with ([entry] ++ tickets).
      rewrite List.filter_app, length_app. lia.
Qed.

Lemma consume_entries_keeps_data_rows_witness :
  acc {| last_item := Offset 2; number_results := JInt 1;
         acc := [demo_review "b" 1; demo_review "b" 2] |}
  = [demo_review "b" 1]
    ++ List.filter is_review [stats_record 0; demo_review "b" 2; stats_record 1].
Proof.
  apply (consume_entries_keeps_data_rows
           [stats_record 0; demo_review "b" 2; stats_record 1]
           {| last_item := Offset 1; number_results := JInt 4;
              acc := [demo_review "b" 1] |}).
  reflexivity.
Defined.

Lemma consume_entry_ok_iff (ls : loop_state) (entry : json) :
  (exists ls', consume_entry ls entry = Ok ls')
  <-> consumable (last_item ls) [entry] = true.
Proof.
  unfold consumable, consume_entry.
  destruct entry as [ | | | | | kvs]; cbn [forallb is_dict andb];
    try (split; [intros [? ?]; discriminate | discriminate]).
  cbn [List.filter is_review]. unfold dict_has.
  destruct (dict_get "project" kvs) as [pv|].
  - destruct (last_item ls) as [n|k]; [split; eauto|].
    cbn [forallb has_sortKey_field]. unfold dict_has.
    destruct (dict_get "sortKey" kvs);
      [split; eauto | split; [intros [? ?]; discriminate | discriminate]].
  - destruct (dict_get "rowCount" kvs); destruct (last_item ls); split; eauto.
Qed.

Lemma consumable_cons (c : cursor) (entry : json) (tickets : list json) :
  consumable c (entry :: tickets) = consumable c [entry] && consumable c tickets.
Proof.
  unfold consumable. cbn [forallb List.filter].
  destruct (is_dict entry); [|reflexivity]. cbn [andb].
  destruct (forallb is_dict tickets); [|now rewrite !andb_false_r].
  destruct c; [reflexivity|]. cbn [andb].
  destruct (is_review entry); cbn [forallb]; [|reflexivity].
  now rewrite andb_true_r.
Qed.

Lemma consumable_kind (c c' : cursor) (tickets : list json) :
  match c, c' with
  | Offset _, Offset _ | SortKey _, SortKey _ => True
  | _, _ => False
  end ->
  consumable c' tickets = consumable c tickets.
Proof. destruct c, c'; intros H; (reflexivity || contradiction). Qed.

Lemma consume_entry_error (ls : loop_state) (entry : json) :
  consume_entry ls entry <> OutOfFuel
  /\ forall e, consume_entry ls entry = Raise e ->
       e = AttributeError \/ e = KeyError "sortKey".
Proof.
  unfold consume_entry. destruct entry as [ | | | | | kvs];
    try (split; [discriminate | intros e H; injection H as <-; auto]).
  unfold dict_has.
  destruct (dict_get "project" kvs).
  - destruct (last_item ls); [split; discriminate|].
    destruct (dict_get "sortKey" kvs);
      split; try discriminate. intros e H. injection H as <-. auto.
  - destruct (dict_get "rowCount" kvs); split; discriminate.
Qed.

(** X4.  The loop over the entries of a page succeeds exactly when every
    entry is a dict and, under the sort-key protocol, every entry with
    the key [project] also has the key [sortKey].  Otherwise it raises
    [AttributeError] (an entry without [keys()]) or [KeyError] for
    [sortKey], and nothing else: the lookup of [rowCount] cannot fail. *)
Theorem consume_entries_ok_iff (tickets : list json) :
  forall ls,
    ((exists ls', consume_entries ls tickets = Ok ls')
     <-> consumable (last_item ls) tickets = true)
    /\ consume_entries ls tickets <> OutOfFuel
    /\ (forall e, consume_entries ls tickets = Raise e ->
          e = AttributeError \/ e = KeyError "sortKey").
Proof.
  induction tickets as [|entry tickets IH]; intros ls.
  - unfold consumable. cbn. split; [|split; discriminate].
    destruct (last_item ls); split; eauto.
  - rewrite consumable_cons. cbn [consume_entries].
    pose proof (consume_entry_ok_iff ls entry) as Hentry.
    pose proof (consume_entry_error ls entry) as [Hfuel Herr].
    destruct (consume_entry ls entry) as [ls1| e1 |] eqn:H1; cbn [obind].
    + destruct (IH ls1) as (Hiff & Hfuel' & Herr').
      apply consume_entry_acc in H1 as [_ Hkind].
      rewrite (proj1 Hentry) by eauto. cbn [andb].
      assert (Hsame : consumable (last_item ls1) tickets
                      = consumable (last_item ls) tickets).
      { apply consumable_kind.
        destruct (last_item ls), (last_item ls1); auto. }
      rewrite <- Hsame. auto.
    + split; [|split; [discriminate|]].
      * split; [intros [? ?]; discriminate|].
        intros H. apply andb_prop in H as [H _].
        apply Hentry in H as [? ?]. discriminate.
      * intros e H. injection H as <-. now apply Herr.
    + contradiction.
Qed.

(** ** The cursor and the checkpoint *)

Lemma consume_entry_cursor (offset : bool) (ls ls' : loop_state) (entry : json) :
  last_item ls = cursor_after offset (acc ls) ->
  consume_entry ls entry = Ok ls' ->
  last_item ls' = cursor_after offset (acc ls').
Proof.
  intros Hcur. unfold consume_entry.
  destruct entry as [ | | | | | kvs]; try discriminate.
  destruct (dict_has "project" kvs).
  - rewrite Hcur. destruct offset; cbn [cursor_after].
    + intros H. injection H as <-. cbn [last_item acc].
      rewrite length_app. cbn [length]. f_equal. lia.
    + destruct (dict_get "sortKey" kvs) as [k|] eqn:Hk; [|discriminate].
      intros H. injection H as <-. cbn [last_item acc].
      now rewrite last_opt_snoc, Hk.
  - destruct (dict_has "rowCount" kvs).
    + destruct (dict_get "rowCount" kvs); [|discriminate].
      intros H. now injection H as <-.
    + intros H. now injection H as <-.
Qed.

Lemma consume_entries_cursor (offset : bool) (tickets : list json) :
  forall ls ls',
    last_item ls = cursor_after offset (acc ls) ->
    consume_entries ls tickets = Ok ls' ->
    last_item ls' = cursor_after offset (acc ls').
Proof.
  induction tickets as [|entry tickets IH]; intros ls ls' Hcur H;
    cbn [consume_entries] in H.
  - now injection H as <-.
  - destruct (consume_entry ls entry) as [ls1| |] eqn:H1; [|discriminate..].
    cbn [obind] in H. eapply IH; [|exact H].
    eapply consume_entry_cursor; eassumption.
Qed.

Lemma fetch_page_cursor
  (remote : list string -> string -> option string) (offset : bool)
  (p cmd : string) (ls ls' : loop_state) (st st' : state) :
  last_item ls = cursor_after offset (acc ls) ->
  fetch_page remote p cmd ls st = (Ok ls', st') ->
  last_item ls' = cursor_after offset (acc ls').
Proof.
  intros Hcur H.
  apply fetch_page_inv in H as (arg & raw & tickets & entries & _ & _ & _ & _ & Hcons & _).
  eapply consume_entries_cursor; eassumption.
Qed.

(** X5.  Throughout the loop of [_get_project_reviews] the cursor is a
    function of the reviews accumulated so far: under the offset protocol
    it is their number, under the sort-key protocol the [sortKey] of the
    last one ([None] while there is none).  So the page that the loop
    asks for next starts, under the offset protocol, at the number of
    reviews it holds. *)
Theorem cursor_tracks_accumulator
  (remote : list string -> string -> option string) (offset : bool)
  (nrev : Z) (p cmd : string) (nres : json) (st0 : state)
  (ls : loop_state) (st : state) :
  pages_run remote nrev p cmd
    {| last_item := cursor_after offset []; number_results := nres; acc := [] |}
    st0 ls st ->
  last_item ls = cursor_after offset (acc ls)
  /\ (offset = true ->
      forall ls' st',
        fetch_page remote p cmd ls st = (Ok ls', st') ->
        trace st'
        = trace st
          ++ [cmd +:+ " --start=" +:+ str_of_int (Z.of_nat (length (acc ls)))]).
Proof.
  intros Hrun.
  assert (Hcur : last_item ls = cursor_after offset (acc ls)).
  { induction Hrun as [ls' st' _ Hpage | ls1 ls2 st1 st2 _ IH _ Hpage].
    - eapply fetch_page_cursor; [|exact Hpage]. reflexivity.
    - eapply fetch_page_cursor; [|exact Hpage]. exact IH. }
  split; [exact Hcur|]. intros -> ls' st' Hpage.
  apply fetch_page_inv in Hpage
    as (arg & raw & tickets & entries & Harg & _ & _ & _ & _ & ->).
  rewrite Hcur in Harg. cbn in Harg. injection Harg as <-. reflexivity.
Qed.

Lemma cursor_tracks_accumulator_witness :
  exists ls st,
    fetch_page (const_remote (Some one_row_page)) "p" "query"
      {| last_item := Offset 0; number_results := JInt 4; acc := [] |}
      (fresh_state false) = (Ok ls, st)
    /\ last_item ls = Offset 1.
Proof.
  eexists _, _. split; [vm_compute; reflexivity|].
  refine (proj1 (cursor_tracks_accumulator (const_remote (Some one_row_page))
                   true 4 "p" "query" (JInt 4) (fresh_state false) _ _ _)).
  apply run_first; [reflexivity|]. vm_compute. reflexivity.
Defined.

Lemma consume_entries_no_fuel (tickets : list json) :
  forall ls, consume_entries ls tickets <> OutOfFuel.
Proof.
  induction tickets as [|entry tickets IH]; intros ls; cbn [consume_entries];
    [discriminate|].
  pose proof (consume_entry_error ls entry) as [Hfuel _].
  destruct (consume_entry ls entry); cbn [obind];
    [apply IH | discriminate | contradiction].
Qed.

(** X6.  A turn of the loop that raises, whether the remote command
    fails, the page does not parse or an entry cannot be consumed, writes
    no file: the artifact of the project still holds the checkpoint of the
    page before.  It leaves the instance and the log as they were, and at
    most the command of the page is added to the commands sent.  A turn
    ends: it returns or raises. *)
Theorem failed_page_writes_nothing
  (remote : list string -> string -> option string)
  (p cmd : string) (ls : loop_state) (st : state) :
  fst (fetch_page remote p cmd ls st) <> OutOfFuel
  /\ (forall e st',
        fetch_page remote p cmd ls st = (Raise e, st') ->
        files st' = files st /\ self st' = self st /\ log st' = log st
        /\ (trace st' = trace st \/ exists c, trace st' = trace st ++ [c])).
Proof.
  unfold fetch_page, bind, lift, check_output, _project_reviews_to_cache,
    write_file, ret.
  destruct (cursor_arg (last_item ls)) as [arg|e0|] eqn:Harg.
  - destruct (remote (trace st) (cmd +:+ arg)) as [raw|].
    + pose proof (loads_ends (frame_page raw)) as Hends.
      destruct (loads (frame_page raw)) as [tickets|e1|]; [| |contradiction].
      * destruct (py_iter tickets) as [entries|e2|] eqn:Hiter.
        -- pose proof (consume_entries_no_fuel entries ls) as Hcons.
           destruct (consume_entries ls entries) as [ls1|e3|];
             [| |contradiction]; cbn.
           ++ split; [discriminate|]. intros e st' H. discriminate.
           ++ split; [discriminate|]. intros e st' H. injection H as <- <-.
              cbn. eauto 6.
        -- cbn. split; [discriminate|]. intros e st' H. injection H as <- <-.
           cbn. eauto 6.
        -- destruct tickets; discriminate.
      * cbn. split; [discriminate|]. intros e st' H. injection H as <- <-.
        cbn. eauto 6.
    + cbn. split; [discriminate|]. intros e st' H. injection H as <- <-.
      cbn. eauto 6.
  - cbn. split; [discriminate|]. intros e st' H. injection H as <- <-. auto.
  - destruct (last_item ls) as [n|[]]; discriminate.
Qed.

Lemma failed_page_writes_nothing_witness :
  let st := {| self := new_Gerrit "u" "h" 4 false false;
               files := {[ cache_reviews_file "p" := "[]" ]};
               log := []; trace := [] |} in
  let st' := {| self := new_Gerrit "u" "h" 4 false false;
                files := {[ cache_reviews_file "p" := "[]" ]};
                log := []; trace := ["query --start=0"] |} in
  files st' = files st /\ self st' = self st /\ log st' = log st
  /\ (trace st' = trace st \/ exists c, trace st' = trace st ++ [c]).
Proof.
  intros st st'.
  apply (proj2 (failed_page_writes_nothing (const_remote (Some "{")) "p" "query"
                  {| last_item := Offset 0; number_results := JInt 4; acc := [] |}
                  st) EXPECTING_NAME st').
  vm_compute. reflexivity.
Defined.

(** ** Cache-reuse for the reviews of a project *)

Lemma load_cache_project_spec (p : string) (st : state) :
  _load_cache_project p st
  = match files st !! cache_reviews_file p with
    | Some text =>
        (match loads text with
         | Ok v => Ok (Some v)
         | Raise e => Raise e
         | OutOfFuel => OutOfFuel
         end, logged st [(DEBUG, MsgLoadedFromCache p)])
    | None =>
        (Ok None, logged st [(DEBUG, MsgCacheIncomplete (cache_reviews_file p))])
    end.
Proof.
  unfold _load_cache_project, logged.
  generalize (cache_reviews_file p) as f. intros f. unfold_M.
  destruct (files st !! f) as [text|] eqn:Hfile; cbn.
  - rewrite Hfile. now destruct (loads text).
  - reflexivity.
Qed.

(** X7.  With cache-reuse, a project whose artifact holds a value that is
    true (a list that is not empty, for the artifacts this backend
    writes) gets that value, and no remote command is sent: not even the
    version of the server is asked.  The only trace of the call is one
    log message. *)
Theorem cached_reviews_need_no_remote
  (remote : list string -> string -> option string) (fuel : nat)
  (p text : string) (v : json) (st : state) :
  use_cache (self st) = true ->
  files st !! cache_reviews_file p = Some text ->
  loads text = Ok v ->
  truthy v = true ->
  _get_project_reviews remote fuel (JStr p) st
  = (Ok v, logged st [(DEBUG, MsgLoadedFromCache p)]).
Proof.
  intros Huse Hfile Hloads Htrue.
  unfold _get_project_reviews, bind, get_self.
  rewrite Huse, load_cache_project_spec, Hfile, Hloads, Htrue. reflexivity.
Qed.

Lemma cached_reviews_need_no_remote_witness :
  let st := {| self := new_Gerrit "u" "h" 4 true false;
               files := {[ cache_reviews_file "p" := "[1, 2]" ]};
               log := []; trace := [] |} in
  _get_project_reviews (const_remote None) 0 (JStr "p") st
  = (Ok (JArr [JInt 1; JInt 2]), logged st [(DEBUG, MsgLoadedFromCache "p")]).
Proof.
  intros st.
  apply (cached_reviews_need_no_remote (const_remote None) 0 "p" "[1, 2]"
           (JArr [JInt 1; JInt 2]) st); reflexivity.
Defined.

(** X8.  With cache-reuse, a project is still fetched from the remote
    when its artifact is absent and when the artifact holds a value that
    is false: the empty list that a project without reviews leaves behind
    is never a cache hit, so such a project is queried again on every
    run. *)
Theorem empty_cache_entry_is_fetched_again
  (remote : list string -> string -> option string) (fuel : nat)
  (p : string) (st : state) :
  use_cache (self st) = true ->
  (files st !! cache_reviews_file p = None ->
   _get_project_reviews remote fuel (JStr p) st
   = fetch_remote remote fuel (JStr p)
       (logged st [(DEBUG, MsgCacheIncomplete (cache_reviews_file p))]))
  /\ (forall text v,
        files st !! cache_reviews_file p = Some text ->
        loads text = Ok v -> truthy v = false ->
        _get_project_reviews remote fuel (JStr p) st
        = fetch_remote remote fuel (JStr p)
            (logged st [(DEBUG, MsgLoadedFromCache p)]))
  /\ (files st !! cache_reviews_file p = Some (dumps (JArr [])) ->
      _get_project_reviews remote fuel (JStr p) st
      = fetch_remote remote fuel (JStr p)
          (logged st [(DEBUG, MsgLoadedFromCache p)])).
Proof.
  intros Huse.
  assert (Hfalse : forall text v,
            files st !! cache_reviews_file p = Some text ->
            loads text = Ok v -> truthy v = false ->
            _get_project_reviews remote fuel (JStr p) st
            = fetch_remote remote fuel (JStr p)
                (logged st [(DEBUG, MsgLoadedFromCache p)])).
  { intros text v Hfile Hloads Hv.
    unfold _get_project_reviews, bind, get_self.
    rewrite Huse, load_cache_project_spec, Hfile, Hloads, Hv. reflexivity. }
  split; [|split; [exact Hfalse|]].
  - intros Hfile. unfold _get_project_reviews, bind, get_self.
    rewrite Huse, load_cache_project_spec, Hfile. reflexivity.
  - intros Hfile. apply (Hfalse _ (JArr []) Hfile); reflexivity.
Qed.

Lemma empty_cache_entry_is_fetched_again_witness :
  let st := {| self := new_Gerrit "u" "h" 4 true false;
               files := {[ cache_reviews_file "p" := dumps (JArr []) ]};
               log := []; trace := [] |} in
  _get_project_reviews (const_remote None) 0 (JStr "p") st
  = fetch_remote (const_remote None) 0 (JStr "p")
      (logged st [(DEBUG, MsgLoadedFromCache "p")]).
Proof.
  intros st.
  apply (empty_cache_entry_is_fetched_again (const_remote None) 0 "p" st);
    reflexivity.
Defined.

(** X9.  With cache-reuse, an artifact of a project that [json.loads]
    refuses makes [_get_project_reviews] raise the error of the decoder:
    unlike the project list at construction, it is neither caught nor
    replaced by a remote fetch, and no remote command is sent.  The
    message that the project was loaded from the cache is logged all the
    same. *)
Theorem corrupt_project_cache_raises
  (remote : list string -> string -> option string) (fuel : nat)
  (p text : string) (e : error) (st : state) :
  use_cache (self st) = true ->
  files st !! cache_reviews_file p = Some text ->
  loads text = Raise e ->
  _get_project_reviews remote fuel (JStr p) st
  = (Raise e, logged st [(DEBUG, MsgLoadedFromCache p)]).
Proof.
  intros Huse Hfile Hloads.
  unfold _get_project_reviews, bind, get_self.
  rewrite Huse, load_cache_project_spec, Hfile, Hloads. reflexivity.
Qed.

Lemma corrupt_project_cache_raises_witness :
  let st := {| self := new_Gerrit "u" "h" 4 true false;
               files := {[ cache_reviews_file "p" := "[1, 2" ]};
               log := []; trace := [] |} in
  _get_project_reviews (const_remote (Some one_row_page)) 3 (JStr "p") st
  = (Raise EXPECTING_COMMA, logged st [(DEBUG, MsgLoadedFromCache "p")]).
Proof.
  intros st.
  apply (corrupt_project_cache_raises (const_remote (Some one_row_page)) 3 "p"
           "[1, 2" EXPECTING_COMMA st); reflexivity.
Defined.

(** X10.  The name of the artifact of a project is made from the project
    name with every [/] turned into [_], so two projects whose names
    differ only there share one artifact: the reviews checkpointed for
    one are what cache-reuse loads for the other. *)
Theorem projects_share_an_artifact (p1 p2 : string) (rs : list json) (st : state) :
  str_replace "/" "_" p1 = str_replace "/" "_" p2 ->
  forallb json_wf rs = true ->
  cache_reviews_file p1 = cache_reviews_file p2
  /\ fst (_load_cache_project p2 (snd (_project_reviews_to_cache p1 rs st)))
     = Ok (Some (JArr rs)).
Proof.
  intros Hname Hwf.
  assert (Hfile : cache_reviews_file p1 = cache_reviews_file p2)
    by (unfold cache_reviews_file; now rewrite Hname).
  split; [exact Hfile|].
  apply load_cache_project_written; [|exact Hwf].
  unfold _project_reviews_to_cache, write_file. cbn [snd files].
  rewrite Hfile. apply lookup_insert_eq.
Qed.

Lemma projects_share_an_artifact_witness :
  cache_reviews_file "a/b" = cache_reviews_file "a_b"
  /\ fst (_load_cache_project "a_b"
            (snd (_project_reviews_to_cache "a/b" [JInt 1] (fresh_state true))))
     = Ok (Some (JArr [JInt 1])).
Proof.
  apply (projects_share_an_artifact "a/b" "a_b" [JInt 1] (fresh_state true));
    reflexivity.
Defined.

(** ** The project list across runs *)

Lemma wf_strs (l : list string) : json_wf (JArr (map JStr l)) = true.
Proof. cbn [json_wf]. induction l; cbn; auto. Qed.

Lemma get_projects_cached
  (remote : list string -> string -> option string) (v : json) (st : state) :
  use_cache (self st) = true ->
  cache (self st) !! "projects" = Some v ->
  _get_projects remote st
  = (Ok v, logged st [(DEBUG, MsgGettingProjects); (DEBUG, MsgDone)]).
Proof.
  intros Huse Hcache. unfold _get_projects, logged. unfold_M. cbn [self].
  rewrite Huse, Hcache. cbn. now rewrite <- app_assoc.
Qed.

Lemma get_projects_remote
  (remote : list string -> string -> option string) (response : string)
  (st : state) :
  use_cache (self st) = false ->
  remote (trace st) (gerrit_cmd (self st) +:+ "ls-projects ") = Some response ->
  _get_projects remote st
  = (Ok (JArr (map JStr (list_pop (str_split NL response)))),
     {| self := self st;
        files := <[cache_projects_file :=
                     dumps (JArr (map JStr (list_pop (str_split NL response))))]>
                   (files st);
        log := log st ++ [(DEBUG, MsgGettingProjects); (DEBUG, MsgDone)];
        trace := trace st ++ [gerrit_cmd (self st) +:+ "ls-projects "] |}).
Proof.
  intros Huse Hremote.
  unfold _get_projects, _projects_to_cache, check_output. unfold_M. cbn [self trace].
  rewrite Huse. cbn [self trace]. rewrite Hremote. cbn. now rewrite <- app_assoc.
Qed.

Lemma init_cache_loaded (user repository : string) (nrev : Z) (history : bool)
  (fs : gmap string string) (text : string) (v : json) :
  fs !! cache_projects_file = Some text ->
  loads text = Ok v ->
  Gerrit_new user repository nrev true history fs
  = (Ok tt,
     {| self := set_cache (<["projects" := v]> ∅)
                  (set_use_history false
                     (new_Gerrit user repository nrev true history));
        files := fs; log := [(INFO, MsgGettingFromCache)]; trace := [] |}).
Proof.
  intros Hfile Hloads.
  unfold Gerrit_new, __init__, _load_cache. unfold_M. simpl.
  rewrite Hfile. simpl. rewrite Hloads. reflexivity.
Qed.

(** X11.  The project list that [_get_projects] gets from the remote is
    written in full to the project-list artifact, and it survives a
    restart: an instance constructed afterwards with cache-reuse on the
    same storage directory keeps cache-reuse on, holds the same list, and
    its [_get_projects] returns that list whatever the remote would
    answer, sending no command. *)
Theorem project_list_survives_restart
  (remote : list string -> string -> option string) (response : string)
  (st : state) (user repository : string) (nrev : Z) (history : bool) :
  use_cache (self st) = false ->
  remote (trace st) (gerrit_cmd (self st) +:+ "ls-projects ") = Some response ->
  let projects := JArr (map JStr (list_pop (str_split NL response))) in
  fst (_get_projects remote st) = Ok projects
  /\ exists st2,
       Gerrit_new user repository nrev true history
         (files (snd (_get_projects remote st))) = (Ok tt, st2)
       /\ use_cache (self st2) = true
       /\ cache (self st2) !! "projects" = Some projects
       /\ forall remote',
            _get_projects remote' st2
            = (Ok projects,
               logged st2 [(DEBUG, MsgGettingProjects); (DEBUG, MsgDone)]).
Proof.
  intros Huse Hremote projects.
  rewrite (get_projects_remote remote response st Huse Hremote).
  split; [reflexivity|]. cbn [snd files].
  eexists. split.
  - apply (init_cache_loaded _ _ _ _ _ (dumps projects) projects).
    + apply lookup_insert_eq.
    + apply loads_dumps, wf_strs.
  - split; [reflexivity|]. split; [apply lookup_insert_eq|].
    intros remote'. apply get_projects_cached; [reflexivity|].
    apply lookup_insert_eq.
Qed.

Lemma project_list_survives_restart_witness :
  let remote := const_remote (Some (unlines ["a/x"; "b"])) in
  fst (_get_projects remote (fresh_state false))
  = Ok (JArr [JStr "a/x"; JStr "b"])
  /\ exists st2,
       Gerrit_new "u" "h" 4 true false
         (files (snd (_get_projects remote (fresh_state false)))) = (Ok tt, st2)
       /\ use_cache (self st2) = true
       /\ cache (self st2) !! "projects" = Some (JArr [JStr "a/x"; JStr "b"])
       /\ forall remote',
            _get_projects remote' st2
            = (Ok (JArr [JStr "a/x"; JStr "b"]),
               logged st2 [(DEBUG, MsgGettingProjects); (DEBUG, MsgDone)]).
Proof.
  intros remote.
  apply (project_list_survives_restart remote (unlines ["a/x"; "b"])
           (fresh_state false) "u" "h" 4 false); reflexivity.
Defined.

(** X12.  Whatever its arguments and the files it finds, the constructor
    ends, sends no remote command and leaves the review list empty.  The
    instance it leaves never has cache-reuse and history mode both on,
    and when cache-reuse is on the in-memory cache holds a project list:
    [_get_projects] then returns it and cannot fail with [KeyError]. *)
Theorem constructor_invariants (user repository : string) (nrev : Z)
  (use_cache_arg history : bool) (fs : gmap string string) :
  let st := snd (Gerrit_new user repository nrev use_cache_arg history fs) in
  fst (Gerrit_new user repository nrev use_cache_arg history fs) <> OutOfFuel
  /\ use_cache (self st) && use_history (self st) = false
  /\ (use_cache (self st) = true ->
      use_cache_arg = true
      /\ exists v,
           cache (self st) !! "projects" = Some v
           /\ forall remote,
                _get_projects remote st
                = (Ok v, logged st [(DEBUG, MsgGettingProjects); (DEBUG, MsgDone)]))
  /\ reviews (self st) = []
  /\ trace st = []
  /\ url (self st) = repository.
Proof.
  cbv zeta. destruct use_cache_arg.
  - unfold Gerrit_new, __init__, _load_cache, _clean_cache. unfold_M. simpl.
    destruct (fs !! cache_projects_file) as [text|]; simpl.
    + pose proof (loads_ends text) as Hends.
      destruct (loads text) as [v|e|]; [| |contradiction]; simpl.
      * split; [discriminate|]. split; [reflexivity|].
        split; [|repeat split]. intros _. split; [reflexivity|].
        exists v. split; [apply lookup_insert_eq|].
        intros remote. apply get_projects_cached; [reflexivity|].
        apply lookup_insert_eq.
      * split; [discriminate|]. split; [reflexivity|].
        split; [discriminate|repeat split].
    + split; [discriminate|]. split; [reflexivity|].
      split; [discriminate|repeat split].
  - destruct history.
    + unfold Gerrit_new, __init__, _restore. unfold_M. simpl.
      destruct (fs !! reviews_file) as [text|] eqn:Hfile; simpl.
      * rewrite Hfile. pose proof (loads_ends text) as Hends.
        destruct (loads text) as [v|[]|]; [| | | | | | | | | | |contradiction]; simpl;
          (split; [discriminate|]; split; [reflexivity|];
           split; [discriminate|repeat split]).
      * split; [discriminate|]. split; [reflexivity|].
        split; [discriminate|repeat split].
    + unfold Gerrit_new, __init__, _clean_cache. unfold_M. simpl.
      split; [discriminate|]. split; [reflexivity|].
      split; [discriminate|repeat split].
Qed.

(** ** What a run changes and what it leaves *)

Lemma run_extends_refl (st : state) : run_extends st st.
Proof.
  constructor; try reflexivity; exists []; now rewrite app_nil_r.
Qed.

Lemma run_extends_trans (st1 st2 st3 : state) :
  run_extends st1 st2 -> run_extends st2 st3 -> run_extends st1 st3.
Proof.
  intros [[l1 H1] [t1 H2] [m1 H3] H4 H5 H6 H7 H8 H9 H10]
         [[l2 G1] [t2 G2] [m2 G3] G4 G5 G6 G7 G8 G9 G10].
  constructor; try congruence.
  - exists (l1 ++ l2). now rewrite G1, H1, app_assoc.
  - exists (t1 ++ t2). now rewrite G2, H2, app_assoc.
  - exists (m1 ++ m2). now rewrite G3, H3, app_assoc.
Qed.

Section Extends.

Variable remote : list string -> string -> option string.

Lemma extends_bind {A B} (m : M A) (k : A -> M B) :
  extends m -> (forall a, extends (k a)) -> extends (bind m k).
Proof.
  intros Hm Hk st. unfold bind.
  specialize (Hm st). destruct (m st) as [[a|e|] st1]; cbn [snd] in *;
    try exact Hm.
  eapply run_extends_trans; [exact Hm | apply Hk].
Qed.

Lemma extends_pure {A} (o : outcome A) : extends (fun st => (o, st)).
Proof. intros st. apply run_extends_refl. Qed.

Lemma extends_ret {A} (a : A) : extends (ret a).
Proof. apply extends_pure. Qed.

Lemma extends_raise {A} (e : error) : extends (@raise A e).
Proof. apply extends_pure. Qed.

Lemma extends_lift {A} (o : outcome A) : extends (lift o).
Proof. apply extends_pure. Qed.

Lemma extends_get_self : extends get_self.
Proof. intros st. apply run_extends_refl. Qed.

Lemma extends_logging (l : level) (m : message) : extends (logging l m).
Proof.
  intros st. constructor; try reflexivity; cbn.
  - exists []. now rewrite app_nil_r.
  - exists []. now rewrite app_nil_r.
  - eauto.
Qed.

Lemma extends_path_exists (f : string) : extends (path_exists f).
Proof. intros st. apply run_extends_refl. Qed.

Lemma extends_read_file (f : string) : extends (read_file f).
Proof.
  intros st. unfold read_file. destruct (files st !! f); apply run_extends_refl.
Qed.

Lemma extends_write_file (f t : string) :
  f <> reviews_file -> extends (write_file f t).
Proof.
  intros Hf st. constructor; try reflexivity; cbn.
  - exists []. now rewrite app_nil_r.
  - exists []. now rewrite app_nil_r.
  - exists []. now rewrite app_nil_r.
  - now apply lookup_insert_ne.
Qed.

Lemma extends_check_output (cmd : string) : extends (check_output remote cmd).
Proof.
  intros st. unfold check_output.
  destruct (remote (trace st) cmd); (constructor; try reflexivity; cbn;
    [exists []; now rewrite app_nil_r | eauto | exists []; now rewrite app_nil_r]).
Qed.

Lemma extends_add_reviews (items : list json) :
  extends (modify_self (fun g => set_reviews (reviews g ++ items) g)).
Proof.
  intros st. constructor; try reflexivity; cbn.
  - eauto.
  - exists []. now rewrite app_nil_r.
  - exists []. now rewrite app_nil_r.
Qed.

Lemma cache_projects_file_not_dump : cache_projects_file <> reviews_file.
Proof. discriminate. Qed.

Lemma cache_reviews_file_not_dump (p : string) :
  cache_reviews_file p <> reviews_file.
Proof. unfold cache_reviews_file. cbn [String.append]. discriminate. Qed.

Lemma extends_get_version : extends (_get_version remote).
Proof.
  unfold _get_version.
  apply extends_bind; [apply extends_get_self | intros g].
  apply extends_bind; [apply extends_check_output | intros raw].
  apply extends_lift.
Qed.

Lemma extends_get_projects : extends (_get_projects remote).
Proof.
  unfold _get_projects, _projects_to_cache.
  apply extends_bind; [apply extends_logging | intros _].
  apply extends_bind; [apply extends_get_self | intros g].
  apply extends_bind.
  - destruct (use_cache g).
    + destruct (cache g !! "projects"); [apply extends_ret | apply extends_raise].
    + apply extends_bind; [apply extends_check_output | intros raw].
      apply extends_bind; [|intros _; apply extends_ret].
      apply extends_write_file, cache_projects_file_not_dump.
  - intros v. apply extends_bind; [apply extends_logging | intros _].
    apply extends_ret.
Qed.

Lemma extends_load_cache_project (p : string) : extends (_load_cache_project p).
Proof.
  unfold _load_cache_project.
  apply extends_bind; [apply extends_path_exists | intros [|]].
  - apply extends_bind; [apply extends_read_file | intros text].
    apply extends_bind; [apply extends_logging | intros _].
    apply extends_bind; [apply extends_lift | intros v]. apply extends_ret.
  - apply extends_bind; [apply extends_logging | intros _]. apply extends_ret.
Qed.

Lemma extends_fetch_page (p cmd : string) (ls : loop_state) :
  extends (fetch_page remote p cmd ls).
Proof.
  unfold fetch_page, _project_reviews_to_cache.
  apply extends_bind; [apply extends_lift | intros arg].
  apply extends_bind; [apply extends_check_output | intros raw].
  apply extends_bind; [apply extends_lift | intros tickets].
  apply extends_bind; [apply extends_lift | intros entries].
  apply extends_bind; [apply extends_lift | intros ls'].
  apply extends_bind; [|intros _; apply extends_ret].
  apply extends_write_file, cache_reviews_file_not_dump.
Qed.

Lemma extends_while_pages (fuel : nat) (nrev : Z) (p cmd : string) :
  forall ls, extends (while_pages remote fuel nrev p cmd ls).
Proof.
  induction fuel as [|fuel IH]; intros ls; cbn [while_pages].
  - destruct (loop_cond nrev (number_results ls));
      [apply extends_pure | apply extends_ret].
  - destruct (loop_cond nrev (number_results ls)); [|apply extends_ret].
    apply extends_bind; [apply extends_fetch_page | intros ls'; apply IH].
Qed.

Lemma extends_fetch_remote (fuel : nat) (project : json) :
  extends (fetch_remote remote fuel project).
Proof.
  unfold fetch_remote.
  apply extends_bind; [apply extends_get_version | intros v].
  apply extends_bind; [apply extends_get_self | intros g].
  destruct project; try apply extends_raise.
  apply extends_bind; [apply extends_while_pages | intros rs].
  apply extends_bind; [apply extends_logging | intros _]. apply extends_ret.
Qed.

Lemma extends_get_project_reviews (fuel : nat) (project : json) :
  extends (_get_project_reviews remote fuel project).
Proof.
  unfold _get_project_reviews.
  apply extends_bind; [apply extends_get_self | intros g].
  apply extends_bind.
  - destruct (use_cache g); [|apply extends_ret].
    destruct project; try apply extends_raise. apply extends_load_cache_project.
  - intros [v|]; [destruct (truthy v)|]; try apply extends_ret;
      apply extends_fetch_remote.
Qed.

Lemma extends_for_projects (fuel total : nat) (ps : list json) :
  forall current, extends (for_projects remote fuel total current ps).
Proof.
  induction ps as [|p ps IH]; intros current; cbn [for_projects];
    [apply extends_ret|].
  apply extends_bind; [apply extends_get_project_reviews | intros fetched].
  apply extends_bind; [apply extends_lift | intros items].
  apply extends_bind; [apply extends_add_reviews | intros _].
  apply extends_bind; [apply extends_logging | intros _].
  apply extends_bind; [apply extends_get_self | intros g].
  destruct (max_reviews g <=? Z.of_nat (length (reviews g))).
  - apply extends_logging.
  - apply extends_bind; [apply extends_logging | intros _].
    apply extends_bind; [apply extends_logging | intros _].
    apply IH.
Qed.

Lemma extends_get_reviews (fuel : nat) : extends (get_reviews remote fuel).
Proof.
  unfold get_reviews.
  apply extends_bind; [apply extends_get_projects | intros ps].
  apply extends_bind; [apply extends_lift | intros plist].
  apply extends_bind; [apply extends_for_projects | intros _].
  apply extends_bind; [apply extends_get_self | intros g]. apply extends_ret.
Qed.

Lemma get_reviews_result (fuel : nat) (st st' : state) (rs : list json) :
  get_reviews remote fuel st = (Ok rs, st') -> rs = reviews (self st').
Proof.
  unfold get_reviews. intros H.
  apply bind_inv_Ok in H as (ps & st1 & _ & H).
  apply bind_inv_Ok in H as (plist & st2 & _ & H).
  apply bind_inv_Ok in H as (u & st3 & _ & H).
  unfold_M. now injection H as <- <-.
Qed.

End Extends.

(** X13.  [get_reviews] only ever adds to the review list of the
    instance: what was in [self.reviews] before the call is a prefix of
    what is there after it, however the call ends, and of the list it
    returns.  The list is not reset between calls, so a second call on the
    same instance returns the reviews of the first followed by what it
    fetches itself. *)
Theorem get_reviews_accumulates
  (remote : list string -> string -> option string) (fuel : nat) (st : state) :
  exists l,
    reviews (self (snd (get_reviews remote fuel st))) = reviews (self st) ++ l
    /\ (forall rs, fst (get_reviews remote fuel st) = Ok rs ->
          rs = reviews (self st) ++ l
          /\ forall remote' fuel' rs',
               fst (get_reviews remote' fuel' (snd (get_reviews remote fuel st)))
               = Ok rs' ->
               exists l', rs' = rs ++ l').
Proof.
  destruct (ext_reviews _ _ (extends_get_reviews remote fuel st)) as [l Hl].
  exists l. split; [exact Hl|]. intros rs Hrs.
  assert (Hres : rs = reviews (self st) ++ l).
  { rewrite <- Hl. apply (get_reviews_result remote fuel st).
    destruct (get_reviews remote fuel st) as [o st1]. cbn in *. now subst. }
  split; [exact Hres|]. intros remote' fuel' rs' Hrs'.
  destruct (ext_reviews _ _ (extends_get_reviews remote' fuel'
                               (snd (get_reviews remote fuel st)))) as [l' Hl'].
  exists l'. rewrite Hres, <- Hl, <- Hl'.
  apply (get_reviews_result remote' fuel' (snd (get_reviews remote fuel st))).
  destruct (get_reviews remote' fuel' _) as [o st2]. cbn in *. now subst.
Qed.

Lemma init_keeps_dump (user repository : string) (nrev : Z)
  (use_cache_arg : bool) (fs : gmap string string) :
  let st := snd (Gerrit_new user repository nrev use_cache_arg false fs) in
  files st !! reviews_file = fs !! reviews_file /\ issues (self st) = None.
Proof.
  cbv zeta. destruct use_cache_arg.
  - unfold Gerrit_new, __init__, _load_cache, _clean_cache. unfold_M. simpl.
    destruct (fs !! cache_projects_file) as [text|]; simpl.
    + destruct (loads text) as [v|e|]; simpl; split; try reflexivity.
      apply lookup_insert_ne. discriminate.
    + split; [|reflexivity]. apply lookup_insert_ne. discriminate.
  - unfold Gerrit_new, __init__, _clean_cache. unfold_M. simpl.
    split; [|reflexivity]. apply lookup_insert_ne. discriminate.
Qed.

Lemma dump_without_issues (st : state) :
  issues (self st) = None ->
  _dump st
  = (Raise AttributeError,
     {| self := self st; files := <[reviews_file := EmptyString]> (files st);
        log := log st ++ [(DEBUG, MsgDumping)]; trace := trace st |}).
Proof.
  intros Hnone. unfold _dump. unfold_M. cbn [self]. now rewrite Hnone.
Qed.

(** X14.  A run never writes the dump file of history mode and never
    sets [self.issues].  So on an instance that was not constructed in
    history mode [_dump] fails after any run: it raises [AttributeError],
    and since it opens the dump file for writing before it reads
    [self.issues], it leaves that file empty. *)
Theorem run_leaves_no_dump
  (user repository : string) (nrev : Z) (use_cache_arg : bool)
  (fs : gmap string string)
  (remote : list string -> string -> option string) (fuel : nat) :
  let st0 := snd (Gerrit_new user repository nrev use_cache_arg false fs) in
  let st1 := snd (get_reviews remote fuel st0) in
  files st1 !! reviews_file = fs !! reviews_file
  /\ issues (self st1) = None
  /\ fst (_dump st1) = Raise AttributeError
  /\ files (snd (_dump st1)) !! reviews_file = Some EmptyString.
Proof.
  intros st0 st1.
  destruct (init_keeps_dump user repository nrev use_cache_arg fs) as [Hf Hi].
  fold st0 in Hf, Hi.
  pose proof (extends_get_reviews remote fuel st0) as Hext. fold st1 in Hext.
  assert (Hnone : issues (self st1) = None)
    by now rewrite (ext_issues _ _ Hext).
  split; [now rewrite (ext_dump _ _ Hext)|]. split; [exact Hnone|].
  rewrite (dump_without_issues st1 Hnone). cbn [fst snd files].
  split; [reflexivity | apply lookup_insert_eq].
Qed.

(** X15.  [_dump] on an instance without [self.issues] raises
    [AttributeError] and destroys the dump that was there: the file is
    left empty, and an instance constructed in history mode afterwards
    logs that the restore failed and has no [issues]. *)
Theorem failed_dump_empties_dump_file (st : state) :
  issues (self st) = None ->
  exists st1,
    _dump st = (Raise AttributeError, st1)
    /\ files st1 !! reviews_file = Some EmptyString
    /\ forall user repository nrev,
       exists st2,
         Gerrit_new user repository nrev false true (files st1) = (Ok tt, st2)
         /\ issues (self st2) = None
         /\ log st2 = [(DEBUG, MsgRestoring);
                       (WARNING, MsgRestoreFailed reviews_file)].
Proof.
  intros Hnone. rewrite (dump_without_issues st Hnone).
  eexists. split; [reflexivity|]. cbn [files].
  split; [apply lookup_insert_eq|]. intros user repository nrev.
  destruct (restore_malformed_dump user repository nrev
              (<[reviews_file := EmptyString]> (files st)) EmptyString
              "Expecting value" (lookup_insert_eq _ _ _) loads_empty)
    as (st2 & Hnew & Hlog & Hissues & _).
  exists st2. auto.
Qed.

Lemma failed_dump_empties_dump_file_witness :
  let st := {| self := new_Gerrit "u" "h" 4 false false;
               files := {[ reviews_file := "[1, 2]" ]};
               log := []; trace := [] |} in
  exists st1,
    _dump st = (Raise AttributeError, st1)
    /\ files st1 !! reviews_file = Some EmptyString
    /\ forall user repository nrev,
       exists st2,
         Gerrit_new user repository nrev false true (files st1) = (Ok tt, st2)
         /\ issues (self st2) = None
         /\ log st2 = [(DEBUG, MsgRestoring);
                       (WARNING, MsgRestoreFailed reviews_file)].
Proof.
  intros st. apply (failed_dump_empties_dump_file st). reflexivity.
Defined.

Lemma init_history_loaded (user repository : string) (nrev : Z)
  (fs : gmap string string) (text : string) (v : json) :
  fs !! reviews_file = Some text ->
  loads text = Ok v ->
  Gerrit_new user repository nrev false true fs
  = (Ok tt,
     {| self := set_issues v (new_Gerrit user repository nrev false true);
        files := fs;
        log := [(DEBUG, MsgRestoring); (DEBUG, MsgRestoreCompleted)];
        trace := [] |}).
Proof.
  intros Hfile Hloads.
  unfold Gerrit_new, __init__, _restore. unfold_M. simpl.
  rewrite Hfile. simpl. rewrite Hfile, Hloads. reflexivity.
Qed.

Lemma dump_with_issues (st : state) (v : json) :
  issues (self st) = Some v ->
  _dump st
  = (Ok tt,
     {| self := self st;
        files := <[reviews_file := dumps v]>
                   (<[reviews_file := EmptyString]> (files st));
        log := log st ++ [(DEBUG, MsgDumping); (DEBUG, MsgDumpCompleted)];
        trace := trace st |}).
Proof.
  intros Hsome. unfold _dump. unfold_M. cbn [self]. rewrite Hsome.
  cbn. now rewrite <- app_assoc.
Qed.

(** X16.  An instance that restored a dump in history mode can write it
    back: [_dump] then succeeds, the dump file holds the text of the
    restored value, and an instance constructed in history mode on it
    restores the same value.  Dump and restore are inverse on the values
    that a restore produces. *)
Theorem dump_restores_to_the_same_value
  (user repository : string) (nrev : Z) (fs : gmap string string)
  (text : string) (v : json) :
  fs !! reviews_file = Some text ->
  loads text = Ok v ->
  let st := snd (Gerrit_new user repository nrev false true fs) in
  issues (self st) = Some v
  /\ fst (_dump st) = Ok tt
  /\ files (snd (_dump st)) !! reviews_file = Some (dumps v)
  /\ forall user' repository' nrev',
       issues (self (snd (Gerrit_new user' repository' nrev' false true
                            (files (snd (_dump st))))))
       = Some v.
Proof.
  intros Hfile Hloads.
  rewrite (init_history_loaded user repository nrev fs text v Hfile Hloads).
  cbv zeta. cbn [snd]. split; [reflexivity|].
  rewrite (dump_with_issues _ v) by reflexivity. cbn [fst snd files].
  split; [reflexivity|].
  split; [apply lookup_insert_eq|]. intros user' repository' nrev'.
  rewrite (init_history_loaded user' repository' nrev' _ (dumps v) v).
  - reflexivity.
  - apply lookup_insert_eq.
  - apply loads_dumps. eapply loads_wf. exact Hloads.
Qed.

Lemma dump_restores_to_the_same_value_witness :
  let fs : gmap string string := {[ reviews_file := "[1,   2]" ]} in
  let st := snd (Gerrit_new "u" "h" 4 false true fs) in
  issues (self st) = Some (JArr [JInt 1; JInt 2])
  /\ fst (_dump st) = Ok tt
  /\ files (snd (_dump st)) !! reviews_file
     = Some (dumps (JArr [JInt 1; JInt 2]))
  /\ forall user' repository' nrev',
       issues (self (snd (Gerrit_new user' repository' nrev' false true
                            (files (snd (_dump st))))))
       = Some (JArr [JInt 1; JInt 2]).
Proof.
  intros fs.
  apply (dump_restores_to_the_same_value "u" "h" 4 fs "[1,   2]"
           (JArr [JInt 1; JInt 2])); reflexivity.
Defined.

(** ** Runs that are served from the cache *)

Section CachedRun.

Variable remote : list string -> string -> option string.
Variable fuel : nat.
Variable cached : string -> list json.

Lemma for_projects_cached (total : nat) (ps : list string) :
  forall (current : nat) (st : state),
    use_cache (self st) = true ->
    (forall p, In p ps ->
       files st !! cache_reviews_file p = Some (dumps (JArr (cached p)))
       /\ cached p <> [] /\ forallb json_wf (cached p) = true) ->
    Z.of_nat (length (reviews (self st) ++ List.concat (map cached ps)))
    < max_reviews (self st) ->
    fst (for_projects remote fuel total current (map JStr ps) st) = Ok tt
    /\ reviews (self (snd (for_projects remote fuel total current (map JStr ps) st)))
       = reviews (self st) ++ List.concat (map cached ps)
    /\ trace (snd (for_projects remote fuel total current (map JStr ps) st))
       = trace st
    /\ files (snd (for_projects remote fuel total current (map JStr ps) st))
       = files st.
Proof.
  induction ps as [|p ps IH]; intros current st Huse Hfiles Hcap.
  - cbn. now rewrite app_nil_r.
  - destruct (Hfiles p (or_introl eq_refl)) as (Hfile & Hne & Hwf).
    assert (Hhit : _get_project_reviews remote fuel (JStr p) st
                   = (Ok (JArr (cached p)),
                      logged st [(DEBUG, MsgLoadedFromCache p)])).
    { unfold _get_project_reviews, bind, get_self.
      rewrite Huse, load_cache_project_spec, Hfile.
      rewrite (loads_dumps (JArr (cached p))) by exact Hwf.
      cbn [truthy]. destruct (cached p); [contradiction | reflexivity]. }
    cbn [map List.concat] in Hcap. rewrite app_assoc in Hcap.
    assert (Hbelow : (max_reviews (self st)
                      <=? Z.of_nat (length (reviews (self st) ++ cached p)))
                     = false).
    { apply Z.leb_gt. rewrite length_app in Hcap. lia. }
    assert (Hstep :
      for_projects remote fuel total current (JStr p :: map JStr ps) st
      = for_projects remote fuel total (S current) (map JStr ps)
          {| self := set_reviews (reviews (self st) ++ cached p) (self st);
             files := files st;
             log := log st
                    ++ [(DEBUG, MsgLoadedFromCache p);
                        (INFO, MsgCompleted (JStr p) current total);
                        (DEBUG, MsgReviewsInMemory
                                  (length (reviews (self st) ++ cached p)));
                        (DEBUG, MsgMemory)];
             trace := trace st |}).
    { cbn [for_projects]. rewrite (bind_Ok _ _ _ _ _ Hhit).
      unfold bind, lift, modify_self, logging, get_self.
      cbn [py_iter self set_self set_reviews max_reviews reviews logged files
             log trace].
      rewrite Hbelow.
      cbn [self set_self set_reviews max_reviews reviews logged files log trace].
      now rewrite <- !app_assoc. }
    change (map JStr (p :: ps)) with (JStr p :: map JStr ps). rewrite Hstep.
    match goal with
    | |- context [for_projects _ _ _ _ _ ?s] =>
        destruct (IH (S current) s) as (H1 & H2 & H3 & H4)
    end.
    + exact Huse.
    + intros q Hq. apply Hfiles. now right.
    + exact Hcap.
    + rewrite H1, H2, H3, H4. cbn [map List.concat self reviews set_reviews
                                     trace files].
      now rewrite app_assoc.
Qed.

End CachedRun.

(** X17.  A cache-reuse run whose project list and review artifacts are
    all in the storage directory, each artifact holding a list that is
    not empty, returns the reviews already in the instance followed by
    the cached reviews of the projects, in the order of the project list,
    as long as the total stays below [max_reviews].  It sends no remote
    command and writes no file. *)
Theorem cached_run_needs_no_remote
  (remote : list string -> string -> option string) (fuel : nat)
  (cached : string -> list json) (ps : list string) (st : state) :
  use_cache (self st) = true ->
  cache (self st) !! "projects" = Some (JArr (map JStr ps)) ->
  (forall p, In p ps ->
     files st !! cache_reviews_file p = Some (dumps (JArr (cached p)))
     /\ cached p <> [] /\ forallb json_wf (cached p) = true) ->
  Z.of_nat (length (reviews (self st) ++ List.concat (map cached ps)))
  < max_reviews (self st) ->
  fst (get_reviews remote fuel st)
  = Ok (reviews (self st) ++ List.concat (map cached ps))
  /\ trace (snd (get_reviews remote fuel st)) = trace st
  /\ files (snd (get_reviews remote fuel st)) = files st.
Proof.
  intros Huse Hcache Hfiles Hcap.
  set (st0 := logged st [(DEBUG, MsgGettingProjects); (DEBUG, MsgDone)]).
  destruct (for_projects_cached remote fuel cached (length (map JStr ps)) ps
              1%nat st0 Huse Hfiles Hcap) as (H1 & H2 & H3 & H4).
  assert (Hrun :
    get_reviews remote fuel st
    = (Ok (reviews (self (snd (for_projects remote fuel (length (map JStr ps))
                                 1 (map JStr ps) st0)))),
       snd (for_projects remote fuel (length (map JStr ps)) 1 (map JStr ps) st0))).
  { unfold get_reviews.
    rewrite (bind_Ok _ _ _ _ _ (get_projects_cached remote _ st Huse Hcache)).
    fold st0. unfold bind at 1, lift at 1. cbn [py_iter]. unfold bind at 1.
    destruct (for_projects remote fuel (length (map JStr ps)) 1 (map JStr ps) st0)
      as [o st1].
    cbn [fst] in H1. subst o. reflexivity. }
  rewrite Hrun. cbn [fst snd]. rewrite H2, H3, H4. auto.
Qed.

Lemma cached_run_needs_no_remote_witness :
  let st := {| self := set_cache {[ "projects" := JArr [JStr "a/x"; JStr "b"] ]}
                         (new_Gerrit "u" "h" 4 true false);
               files := {[ cache_reviews_file "a/x" := dumps (JArr [JInt 1; JInt 2]);
                           cache_reviews_file "b" := dumps (JArr [JInt 3]) ]};
               log := []; trace := [] |} in
  fst (get_reviews (const_remote None) 0 st) = Ok [JInt 1; JInt 2; JInt 3]
  /\ trace (snd (get_reviews (const_remote None) 0 st)) = []
  /\ files (snd (get_reviews (const_remote None) 0 st)) = files st.
Proof.
  intros st.
  apply (cached_run_needs_no_remote (const_remote None) 0
           (fun p => if String.eqb p "b" then [JInt 3] else [JInt 1; JInt 2])
           ["a/x"; "b"] st); try reflexivity.
  intros p [<- | [<- | []]]; repeat split; discriminate.
Defined.

(** X18.  A project whose remote fetch returned a list of reviews that is
    not empty is served from the cache afterwards: on the same storage
    directory with cache-reuse on, [_get_project_reviews] returns the
    very same list and sends no remote command, whatever the remote
    would answer. *)
Theorem fetched_reviews_resume_from_cache
  (remote : list string -> string -> option string) (fuel : nat)
  (p : string) (rs : list json) (st st' : state) :
  use_cache (self st) = false ->
  _get_project_reviews remote fuel (JStr p) st = (Ok (JArr rs), st') ->
  rs <> [] ->
  forall remote' fuel',
    _get_project_reviews remote' fuel' (JStr p) (with_cache st')
    = (Ok (JArr rs), logged (with_cache st') [(DEBUG, MsgLoadedFromCache p)]).
Proof.
  intros Huse H Hne remote' fuel'.
  unfold _get_project_reviews in H.
  unfold bind at 1, get_self at 1 in H. rewrite Huse in H.
  unfold bind at 1, ret at 1 in H.
  unfold fetch_remote in H.
  apply bind_inv_Ok in H as (version & st1 & _ & H).
  apply bind_inv_Ok in H as (g & st2 & _ & H).
  apply bind_inv_Ok in H as (reviews & st3 & Hloop & H).
  unfold bind, logging, ret in H. injection H as <- <-.
  apply while_pages_checkpoint in Hloop; [|reflexivity].
  destruct Hloop as [[-> _] | Hload]; [contradiction|].
  rewrite load_cache_project_spec in Hload.
  destruct (files st3 !! cache_reviews_file p) as [text|] eqn:Hfile;
    [|discriminate].
  cbn [fst] in Hload.
  destruct (loads text) as [v| |] eqn:Hloads; try discriminate.
  injection Hload as ->.
  unfold _get_project_reviews, bind, get_self.
  cbn [with_cache set_self self set_use_cache use_cache].
  rewrite load_cache_project_spec.
  match goal with
  | |- context [files (with_cache ?s)] =>
      change (files (with_cache s)) with (files st3)
  end.
  rewrite Hfile, Hloads.
  cbn [truthy]. destruct reviews; [contradiction | reflexivity].
Qed.

Lemma fetched_reviews_resume_from_cache_witness :
  let remote := banner_then_page "gerrit version 2.9" one_row_page in
  exists st',
    _get_project_reviews remote 2 (JStr "p") (fresh_state false)
    = (Ok (JArr [JObj [("project", JStr "p")]]), st')
    /\ forall remote' fuel',
         _get_project_reviews remote' fuel' (JStr "p") (with_cache st')
         = (Ok (JArr [JObj [("project", JStr "p")]]),
            logged (with_cache st') [(DEBUG, MsgLoadedFromCache "p")]).
Proof.
  intros remote. eexists. split; [vm_compute; reflexivity|].
  apply (fetched_reviews_resume_from_cache remote 2 "p"
           [JObj [("project", JStr "p")]] (fresh_state false)).
  - reflexivity.
  - vm_compute. reflexivity.
  - discriminate.
Defined.

(** X19.  A project that is not a str, as a project-list artifact with
    numbers in it gives, makes [_get_project_reviews] raise: with
    cache-reuse [AttributeError], from [project.replace], before anything
    is read or sent; without it [TypeError], from the concatenation of the
    query command, after the version of the server was asked and before
    any query. *)
Theorem non_str_project_raises
  (remote : list string -> string -> option string) (fuel : nat)
  (project : json) (st : state) :
  (forall p, project <> JStr p) ->
  (use_cache (self st) = true ->
   _get_project_reviews remote fuel project st = (Raise AttributeError, st))
  /\ (use_cache (self st) = false ->
      forall banner version,
        remote (trace st) (gerrit_cmd (self st) +:+ " version ") = Some banner ->
        parse_version banner = Ok version ->
        _get_project_reviews remote fuel project st
        = (Raise TypeError,
           {| self := self st; files := files st; log := log st;
              trace := trace st ++ [gerrit_cmd (self st) +:+ " version "] |})).
Proof.
  intros Hnot. split.
  - intros Huse. unfold _get_project_reviews, bind, get_self. rewrite Huse.
    destruct project; try reflexivity. now destruct (Hnot s).
  - intros Huse banner version Hremote Hversion.
    unfold _get_project_reviews, bind, get_self, ret. rewrite Huse.
    unfold fetch_remote, _get_version, bind, get_self, check_output, lift.
    rewrite Hremote, Hversion. cbn [self].
    destruct project; try reflexivity. now destruct (Hnot s).
Qed.

Lemma non_str_project_raises_witness :
  _get_project_reviews (const_remote None) 0 (JInt 7) (fresh_state true)
  = (Raise AttributeError, fresh_state true).
Proof.
  apply (non_str_project_raises (const_remote None) 0 (JInt 7) (fresh_state true)).
  - discriminate.
  - reflexivity.
Defined.

(** ** The identity of an instance *)

Lemma init_url (user repository : string) (nrev : Z)
  (use_cache_arg history : bool) (fs : gmap string string) :
  url (self (snd (Gerrit_new user repository nrev use_cache_arg history fs)))
  = repository.
Proof.
  destruct use_cache_arg; [|destruct history].
  - unfold Gerrit_new, __init__, _load_cache, _clean_cache. unfold_M. simpl.
    destruct (fs !! cache_projects_file) as [text|]; simpl; [|reflexivity].
    now destruct (loads text).
  - unfold Gerrit_new, __init__, _restore. unfold_M. simpl.
    destruct (fs !! reviews_file) as [text|] eqn:Hfile; simpl; [|reflexivity].
    rewrite Hfile. now destruct (loads text) as [v|[]|].
  - reflexivity.
Qed.

(** X20.  The identifier of an instance is [gerrit_] followed by the
    repository it was constructed for, and [get_url] is that repository.
    Neither depends on the user, the page size or the mode, and a run
    does not change them: two instances have the same identifier exactly
    when they were constructed for the same repository. *)
Theorem get_id_names_the_repository
  (user repository : string) (nrev : Z) (use_cache_arg history : bool)
  (fs : gmap string string)
  (remote : list string -> string -> option string) (fuel : nat) :
  let st := snd (Gerrit_new user repository nrev use_cache_arg history fs) in
  get_id (self st) = "gerrit_" +:+ repository
  /\ get_url (self st) = repository
  /\ get_id (self (snd (get_reviews remote fuel st))) = get_id (self st)
  /\ forall user' repository' nrev' use_cache_arg' history' fs',
       get_id (self (snd (Gerrit_new user' repository' nrev' use_cache_arg'
                            history' fs')))
       = get_id (self st)
       <-> repository' = repository.
Proof.
  intros st. unfold get_id, get_url, _get_name, _name.
  pose proof (init_url user repository nrev use_cache_arg history fs) as Hurl.
  fold st in Hurl. rewrite Hurl.
  split; [reflexivity|]. split; [reflexivity|]. split.
  - now rewrite (ext_url _ _ (extends_get_reviews remote fuel st)), Hurl.
  - intros user' repository' nrev' use_cache_arg' history' fs'.
    rewrite init_url. cbn [String.append]. split; [|now intros ->].
    intros H. now injection H.
Qed.

(** ** The commands of a remote fetch *)

Lemma fetch_page_trace
  (remote : list string -> string -> option string)
  (p cmd arg : string) (ls : loop_state) (st : state) :
  cursor_arg (last_item ls) = Ok arg ->
  exists t,
    trace (snd (fetch_page remote p cmd ls st)) = trace st ++ (cmd +:+ arg) :: t.
Proof.
  intros Harg. unfold fetch_page. unfold bind at 1, lift at 1. rewrite Harg.
  unfold bind at 1, check_output at 1.
  destruct (remote (trace st) (cmd +:+ arg)) as [raw|]; [|now exists []].
  match goal with
  | |- context [snd (?m ?s)] =>
      assert (Hext : extends m);
        [|destruct (ext_trace _ _ (Hext s)) as [t Ht]; exists t; rewrite Ht;
          cbn [trace]; now rewrite <- app_assoc]
  end.
  apply extends_bind; [apply extends_lift | intros tickets].
  apply extends_bind; [apply extends_lift | intros entries].
  apply extends_bind; [apply extends_lift | intros ls'].
  apply extends_bind; [|intros _; apply extends_ret].
  apply extends_write_file, cache_reviews_file_not_dump.
Qed.

Lemma while_pages_first_trace
  (remote : list string -> string -> option string)
  (fuel : nat) (nrev : Z) (p cmd arg : string) (ls : loop_state) (st : state) :
  loop_cond nrev (number_results ls) = true ->
  cursor_arg (last_item ls) = Ok arg ->
  exists t,
    trace (snd (while_pages remote (S fuel) nrev p cmd ls st))
    = trace st ++ (cmd +:+ arg) :: t.
Proof.
  intros Hcond Harg. cbn [while_pages]. rewrite Hcond. unfold bind.
  destruct (fetch_page_trace remote p cmd arg ls st Harg) as [t Ht].
  destruct (fetch_page remote p cmd ls st) as [[ls1|e|] st1]; cbn [snd] in *;
    try (now exists t).
  destruct (ext_trace _ _ (extends_while_pages remote fuel nrev p cmd ls1 st1))
    as [t' Ht'].
  exists (t ++ t'). rewrite Ht', Ht, <- app_assoc. reflexivity.
Qed.

(** X21.  After the version of the server, the first command of a remote
    fetch is the query of the project, with [--start=0] when the server
    is of major version 2 and minor version 9 or more, and with no cursor
    argument for every other version: a server of major version 3 is
    asked as one before 2.9 is. *)
Theorem first_query_follows_the_version
  (remote : list string -> string -> option string) (fuel : nat)
  (p banner : string) (version : Z * Z) (st : state) :
  remote (trace st) (gerrit_cmd (self st) +:+ " version ") = Some banner ->
  parse_version banner = Ok version ->
  (offset_protocol version = true <-> fst version = 2 /\ 9 <= snd version)
  /\ exists t,
       trace (snd (fetch_remote remote (S fuel) (JStr p) st))
       = trace st
         ++ [gerrit_cmd (self st) +:+ " version ";
             query_command (gerrit_cmd (self st)) p (nreviews (self st))
             +:+ (if offset_protocol version then " --start=0" else EmptyString)]
         ++ t.
Proof.
  intros Hremote Hversion. split.
  { unfold offset_protocol. rewrite andb_true_iff, Z.eqb_eq, Z.leb_le.
    reflexivity. }
  unfold fetch_remote, _get_version.
  unfold bind at 1. unfold bind at 1, get_self at 1.
  unfold bind at 1, check_output at 1. rewrite Hremote.
  unfold lift at 1. rewrite Hversion.
  unfold bind at 1, get_self at 1. cbn [self].
  unfold bind at 1.
  match goal with
  | |- context [while_pages remote (S fuel) ?n p ?c ?l ?s] =>
      destruct (while_pages_first_trace remote fuel n p c
                  (if offset_protocol version then " --start=0" else EmptyString)
                  l s) as [t Ht];
        [unfold loop_cond; cbn; now rewrite Z.eqb_refl
        |now destruct (offset_protocol version)
        |destruct (while_pages remote (S fuel) n p c l s) as [[rs|e|] st1]]
  end; unfold bind, logging, ret; cbn [snd trace] in *; exists t;
    rewrite Ht, <- app_assoc; reflexivity.
Qed.

Lemma first_query_follows_the_version_witness :
  exists t,
    trace (snd (fetch_remote (banner_then_page "gerrit version 3.4" one_row_page)
                  1 (JStr "p") (fresh_state false)))
    = trace (fresh_state false)
      ++ [gerrit_cmd (self (fresh_state false)) +:+ " version ";
          query_command (gerrit_cmd (self (fresh_state false))) "p"
            (nreviews (self (fresh_state false)))
          +:+ (if offset_protocol (3, 4) then " --start=0" else EmptyString)]
      ++ t.
Proof.
  apply (first_query_follows_the_version
           (banner_then_page "gerrit version 3.4" one_row_page) 0 "p"
           "gerrit version 3.4" (3, 4) (fresh_state false)); reflexivity.
Defined.

(** X22.  When the answer of the remote to [ls-projects] has no newline,
    as the empty answer of a server without projects, the project list
    is empty: the run writes the empty list to the project-list artifact,
    asks for no review and returns the reviews the instance already
    held. *)
Theorem no_project_no_query
  (remote : list string -> string -> option string) (fuel : nat)
  (response : string) (st : state) :
  use_cache (self st) = false ->
  remote (trace st) (gerrit_cmd (self st) +:+ "ls-projects ") = Some response ->
  no_char NL response = true ->
  get_reviews remote fuel st
  = (Ok (reviews (self st)),
     {| self := self st;
        files := <[cache_projects_file := "[]"]> (files st);
        log := log st ++ [(DEBUG, MsgGettingProjects); (DEBUG, MsgDone)];
        trace := trace st ++ [gerrit_cmd (self st) +:+ "ls-projects "] |}).
Proof.
  intros Huse Hremote Hnl. unfold get_reviews.
  rewrite (bind_Ok _ _ _ _ _ (get_projects_remote remote response st Huse Hremote)).
  rewrite (str_split_no_sep NL response Hnl). reflexivity.
Qed.

Lemma no_project_no_query_witness :
  get_reviews (const_remote (Some EmptyString)) 0 (fresh_state false)
  = (Ok [],
     {| self := self (fresh_state false);
        files := <[cache_projects_file := "[]"]> (files (fresh_state false));
        log := [(DEBUG, MsgGettingProjects); (DEBUG, MsgDone)];
        trace := [gerrit_cmd (self (fresh_state false)) +:+ "ls-projects "] |}).
Proof.
  apply (no_project_no_query (const_remote (Some EmptyString)) 0 EmptyString
           (fresh_state false)); reflexivity.
Defined.

(** ** Instances of the statements above *)

Lemma consume_entries_ok_iff_witness :
  (exists ls', consume_entries
                 {| last_item := SortKey JNull; number_results := JInt 4; acc := [] |}
                 [demo_review "b" 1; stats_record 1] = Ok ls')
  /\ ~ (exists ls', consume_entries
                      {| last_item := SortKey JNull; number_results := JInt 4;
                         acc := [] |}
                      [JObj [("project", JStr "b")]] = Ok ls').
Proof.
  split.
  - apply (proj1 (consume_entries_ok_iff [demo_review "b" 1; stats_record 1]
                    {| last_item := SortKey JNull; number_results := JInt 4;
                       acc := [] |})).
    reflexivity.
  - intros H.
    apply (proj1 (consume_entries_ok_iff [JObj [("project", JStr "b")]]
                    {| last_item := SortKey JNull; number_results := JInt 4;
                       acc := [] |})) in H.
    discriminate H.
Defined.

Lemma constructor_invariants_witness :
  exists v,
    cache (self (snd (Gerrit_new "u" "h" 4 true true
                        {[ cache_projects_file := "[]" ]})))
    !! "projects" = Some v.
Proof.
  destruct (constructor_invariants "u" "h" 4 true true
              {[ cache_projects_file := "[]" ]})
    as (_ & _ & H & _).
  destruct (H eq_refl) as (_ & v & Hv & _). exists v. exact Hv.
Defined.

Lemma get_reviews_accumulates_witness :
  let st := {| self := set_cache {[ "projects" := JArr [JStr "b"] ]}
                         (new_Gerrit "u" "h" 4 true false);
               files := {[ cache_reviews_file "b" := dumps (JArr [JInt 3]) ]};
               log := []; trace := [] |} in
  exists l,
    reviews (self (snd (get_reviews (const_remote None) 0 st)))
    = reviews (self st) ++ l.
Proof.
  intros st.
  destruct (get_reviews_accumulates (const_remote None) 0 st) as (l & Hl & _).
  exists l. exact Hl.
Defined.

(** ** The names of the artifacts *)

Lemma replace_slash (c : ascii) (s : string) :
  str_replace "/" "_" (String c s)
  = String (if Ascii.eqb c "/" then "_" else c) (str_replace "/" "_" s)%char.
Proof.
  destruct (Ascii.eqb c "/") eqn:Hc.
  - rewrite str_replace_hit; [reflexivity | discriminate |].
    cbn [startswith]. rewrite Ascii.eqb_sym, Hc. now destruct s.
  - rewrite str_replace_skip; [reflexivity | discriminate |].
    cbn [startswith]. now rewrite Ascii.eqb_sym, Hc.
Qed.

Lemma no_slash_after_replace (s : string) :
  no_char "/" (str_replace "/" "_" s) = true.
Proof.
  induction s as [|c s IH]; [reflexivity|].
  rewrite replace_slash. cbn [no_char]. rewrite IH, andb_true_r.
  destruct (Ascii.eqb c "/") eqn:Hc; [reflexivity | now rewrite Hc].
Qed.

Lemma replace_slash_id (s : string) :
  no_char "/" s = true -> str_replace "/" "_" s = s.
Proof.
  induction s as [|c s IH]; [reflexivity|]. cbn [no_char]. intros H.
  apply andb_prop in H as [Hc Hs]. apply negb_true_iff in Hc.
  now rewrite replace_slash, Hc, (IH Hs).
Qed.

(** X23.  The name of the review artifact of a project never has a [/]
    in it, whatever the project is called: the artifact is a file of the
    storage directory itself, never one of a directory below it.  For a
    project without [/] in its name it is [cache_], the name and
    [-reviews.json]. *)
Theorem artifact_names_are_flat (p : string) :
  no_char "/" (cache_reviews_file p) = true
  /\ (no_char "/" p = true ->
      cache_reviews_file p = "cache_" +:+ p +:+ "-reviews.json").
Proof.
  unfold cache_reviews_file. split.
  - rewrite !no_char_append, no_slash_after_replace. reflexivity.
  - intros H. now rewrite (replace_slash_id p H).
Qed.

Lemma artifact_names_are_flat_witness :
  no_char "/" (cache_reviews_file "../a/b") = true
  /\ cache_reviews_file "b" = "cache_b-reviews.json".
Proof.
  split.
  - apply (artifact_names_are_flat "../a/b").
  - apply (artifact_names_are_flat "b"). reflexivity.
Defined.

(** ** Checkpoints of a fetch that did not finish *)

(** X24.  The checkpoint of a project says nothing about whether its
    fetch finished.  Once the loop has consumed a page or more and holds
    some reviews, cache-reuse on that storage directory returns exactly
    these reviews for the project and sends no remote command, also when
    the loop was about to ask for further pages: a fetch interrupted
    there is taken for a complete one. *)
Theorem unfinished_fetch_is_served_as_complete
  (remote : list string -> string -> option string)
  (nrev : Z) (p cmd : string) (ls0 ls : loop_state) (st0 st : state) :
  acc ls0 = [] ->
  pages_run remote nrev p cmd ls0 st0 ls st ->
  acc ls <> [] ->
  forall remote' fuel',
    _get_project_reviews remote' fuel' (JStr p) (with_cache st)
    = (Ok (JArr (acc ls)),
       logged (with_cache st) [(DEBUG, MsgLoadedFromCache p)]).
Proof.
  intros Hacc Hrun Hne remote' fuel'.
  assert (Hwf0 : forallb json_wf (acc ls0) = true) by now rewrite Hacc.
  assert (Hfile : files st !! cache_reviews_file p = Some (dumps (JArr (acc ls)))
                  /\ forallb json_wf (acc ls) = true).
  { destruct Hrun as [ls' st' _ Hpage | ls1 ls2 st1 st2 Hrun _ Hpage].
    - destruct (fetch_page_checkpoint _ _ _ _ _ _ _ Hwf0 Hpage) as (H1 & _ & H3).
      auto.
    - pose proof (pages_run_wf _ _ _ _ _ _ _ _ Hwf0 Hrun) as Hwf1.
      destruct (fetch_page_checkpoint _ _ _ _ _ _ _ Hwf1 Hpage) as (H1 & _ & H3).
      auto. }
  destruct Hfile as [Hfile Hwf].
  unfold _get_project_reviews, bind, get_self.
  cbn [with_cache set_self self set_use_cache use_cache].
  rewrite load_cache_project_spec.
  change (files (with_cache st)) with (files st).
  rewrite Hfile, (loads_dumps (JArr (acc ls))) by exact Hwf.
  cbn [truthy]. destruct (acc ls); [contradiction | reflexivity].
Qed.

Lemma unfinished_fetch_is_served_as_complete_witness :
  let page := unlines (map dumps [JObj [("project", JStr "p")]; stats_record 4]) in
  exists ls st,
    fetch_page (const_remote (Some page)) "p" "query"
      {| last_item := Offset 0; number_results := JInt 4; acc := [] |}
      (fresh_state false) = (Ok ls, st)
    /\ loop_cond 4 (number_results ls) = true
    /\ forall remote' fuel',
         _get_project_reviews remote' fuel' (JStr "p") (with_cache st)
         = (Ok (JArr [JObj [("project", JStr "p")]]),
            logged (with_cache st) [(DEBUG, MsgLoadedFromCache "p")]).
Proof.
  intros page. eexists _, _. split; [vm_compute; reflexivity|].
  split; [reflexivity|].
  refine (unfinished_fetch_is_served_as_complete (const_remote (Some page)) 4
            "p" "query"
            {| last_item := Offset 0; number_results := JInt 4; acc := [] |}
            {| last_item := Offset 1; number_results := JInt 4;
               acc := [JObj [("project", JStr "p")]] |}
            (fresh_state false) _ eq_refl _ _).
  - apply run_first; [reflexivity|]. vm_compute. reflexivity.
  - discriminate.
Defined.
